(** * SegaGenesisBMP2HEX: the pixel / tile / palette codec

    A shallow embedding of [GenesisBMP2HEX.py] (image -> palette, tiles,
    assembly text) and [GenesisHEX2BMP.py] (assembly text -> palette,
    tile bytes -> 4-bit indexed bitmap), with the properties of the
    codec proved over it.

    Conventions.
    - Python [int] is [Z]; [<<], [>>], [&], [|] are [Z.shiftl],
      [Z.shiftr], [Z.land], [Z.lor]; [//] and [%] are [Z.div] and
      [Z.modulo] (both floor, as in Python).
    - Python [float] is IEEE binary64, taken from [SpecFloat] with
      [prec = 53] and [emax = 1024].
    - Text ([str]) is [list ascii]; [bytes] and [bytearray] are [list Z].
    - A function that can raise returns [result]. *)

From Stdlib Require Import Ascii String.
From Stdlib Require Import ZArith List Bool Lia.
From Stdlib Require Import SpecFloat.
Import ListNotations.

Local Open Scope Z_scope.

(** ** Exceptions *)

Inductive exn : Type :=
| IndexError
| NameError
| StructError
| ValueError
| OverflowError.

Inductive result (A : Type) : Type :=
| Ok (a : A)
| Raise (e : exn).

Arguments Ok {A} a.
Arguments Raise {A} e.

Definition bind {A B : Type} (m : result A) (k : A -> result B) : result B :=
  match m with
  | Ok a => k a
  | Raise e => Raise e
  end.

Notation "x <- m ;; k" := (bind m (fun x => k))
  (at level 61, m at next level, right associativity).
Notation "' p <- m ;; k" := (bind m (fun x => let p := x in k))
  (at level 61, p pattern, m at next level, right associativity).

(** [l[i]]: a negative index counts from the end; [IndexError] outside the
    list. *)
Definition index {A : Type} (l : list A) (i : Z) : result A :=
  let j := if i <? 0 then i + Z.of_nat (length l) else i in
  if j <? 0 then Raise IndexError
  else match nth_error l (Z.to_nat j) with
       | Some a => Ok a
       | None => Raise IndexError
       end.

(** [range(lo, hi, step)] for [step > 0]. *)
Definition range_step (lo hi step : Z) : list Z :=
  map (fun k => lo + step * Z.of_nat k)
      (seq 0 (Z.to_nat ((hi - lo + step - 1) / step))).

Definition range (n : Z) : list Z := range_step 0 n 1.

(** [range(n - 1, -1, -1)]. *)
Definition range_down (n : Z) : list Z := rev (range n).

(** [l[a:b]] with Python's treatment of negative and oversized bounds. *)
Definition clamp_index (len i : Z) : Z :=
  if i <? 0 then Z.max 0 (i + len) else Z.min i len.

Definition slice {A : Type} (l : list A) (a b : Z) : list A :=
  let len := Z.of_nat (length l) in
  let a' := clamp_index len a in
  let b' := clamp_index len b in
  firstn (Z.to_nat (b' - a')) (skipn (Z.to_nat a') l).

(** [for x in xs: acc <- body x] in the error monad. *)
Fixpoint mapM {A B : Type} (f : A -> result B) (xs : list A) : result (list B) :=
  match xs with
  | [] => Ok []
  | x :: xs' => y <- f x ;; ys <- mapM f xs' ;; Ok (y :: ys)
  end.

(** ** Binary64 arithmetic used by [rgb_to_genesis_color] *)

Module Float.

Definition prec : Z := 53.
Definition emax : Z := 1024.

(** [float(n)] for an [int] of magnitude below [2^53] (exact). *)
Definition of_int (n : Z) : spec_float := binary_normalize prec emax n 0 false.

Definition div : spec_float -> spec_float -> spec_float := SFdiv prec emax.
Definition mul : spec_float -> spec_float -> spec_float := SFmul prec emax.

(** Round a non-negative rational [m * 2^e] to the nearest integer, ties
    to the even one. *)
Definition round_half_even (m : positive) (e : Z) : Z :=
  match e with
  | Zneg k =>
      let d := Z.pow_pos 2 k in
      let q := Zpos m / d in
      let r := Zpos m mod d in
      match 2 * r ?= d with
      | Lt => q
      | Gt => q + 1
      | Eq => if Z.even q then q else q + 1
      end
  | _ => Zpos m * 2 ^ e
  end.

(** Python's one-argument [round(x)] on a float: the nearest [int], ties
    to even; [OverflowError] on an infinity, [ValueError] on a NaN. *)
Definition round (x : spec_float) : result Z :=
  match x with
  | S754_zero _ => Ok 0
  | S754_finite s m e =>
      let n := round_half_even m e in
      Ok (if s then - n else n)
  | S754_infinity _ => Raise OverflowError
  | S754_nan => Raise ValueError
  end.

End Float.

(** ** GenesisBMP2HEX.py: [rgb_to_genesis_color] *)

(** [round(c / 255 * 7)] *)
Definition scale_channel (c : Z) : result Z :=
  Float.round (Float.mul (Float.div (Float.of_int c) (Float.of_int 255))
                         (Float.of_int 7)).

Definition rgb_to_genesis_color (r g b : Z) : result Z :=
  genesis_r <- scale_channel r ;;
  genesis_g <- scale_channel g ;;
  genesis_b <- scale_channel b ;;
  Ok (Z.lor (Z.lor (Z.shiftl genesis_b 6) (Z.shiftl genesis_g 3)) genesis_r).

(** ** GenesisHEX2BMP.py: [genesis_to_rgb] *)

Definition genesis_to_rgb (color : Z) : Z * Z * Z :=
  let r := Z.shiftl (Z.land color 0x007) 5 in
  let g := Z.shiftl (Z.land color 0x038) 2 in
  let b := Z.shiftr (Z.land color 0x1C0) 1 in
  (r, g, b).

(** ** GenesisBMP2HEX.py: [create_genesis_palette] *)

(** [while len(genesis_palette) < 16: genesis_palette.append(0)]; sixteen
    iterations are enough fuel for a list that only grows towards 16. *)
Fixpoint pad_palette (fuel : nat) (genesis_palette : list Z) : list Z :=
  match fuel with
  | O => genesis_palette
  | S fuel' =>
      if Z.of_nat (length genesis_palette) <? 16
      then pad_palette fuel' (genesis_palette ++ [0])
      else genesis_palette
  end.

(** The body of [create_genesis_palette] after the two Pillow calls:
    [palette_colors] is [quantized.getpalette()[:48]]. *)
Definition palette_of_colors (palette_colors : list Z) : result (list Z) :=
  genesis_palette <-
    mapM (fun i =>
            r <- index palette_colors i ;;
            g <- index palette_colors (i + 1) ;;
            b <- index palette_colors (i + 2) ;;
            rgb_to_genesis_color r g b)
         (range_step 0 48 3) ;;
  Ok (pad_palette 16 genesis_palette).

Section PaletteBuilder.

(** Pillow: the RGB image type, the palettised image type,
    [image.quantize(colors=16, method=Image.MEDIANCUT)] and
    [quantized.getpalette()]. *)
Variable RGBImage PImage : Type.
Variable quantize : RGBImage -> PImage.
Variable getpalette : PImage -> list Z.

Definition create_genesis_palette (image : RGBImage) : result (list Z * PImage) :=
  let quantized := quantize image in
  let palette_colors := slice (getpalette quantized) 0 48 in
  genesis_palette <- palette_of_colors palette_colors ;;
  Ok (genesis_palette, quantized).

End PaletteBuilder.

(** ** GenesisBMP2HEX.py: [image_to_tiles] *)

(** A mode-['P'] Pillow image: its [size] and its rows of palette indices
    (what [np.array(image)] yields, indexed [[y, x]]). *)
Record Image : Type := mkImage {
  im_size : Z * Z;
  im_rows : list (list Z)
}.

Definition well_formed (im : Image) : Prop :=
  Z.of_nat (length (im_rows im)) = snd (im_size im) /\
  Forall (fun row => Z.of_nat (length row) = fst (im_size im)) (im_rows im).

(** [Image.new('P', (w, h), color)] *)
Definition Image_new (size : Z * Z) (color : Z) : Image :=
  mkImage size (repeat (repeat color (Z.to_nat (fst size))) (Z.to_nat (snd size))).

(** Row-wise overwrite of [dst] by [src] from the top-left corner. *)
Fixpoint paste_rows (dst src : list (list Z)) : list (list Z) :=
  match dst, src with
  | d :: dst', s :: src' =>
      (firstn (length d) s ++ skipn (length s) d) :: paste_rows dst' src'
  | _, _ => dst
  end.

(** [dst.paste(src, (0, 0))] *)
Definition paste (dst src : Image) : Image :=
  mkImage (im_size dst) (paste_rows (im_rows dst) (im_rows src)).

(** [img_array[pixel_y, pixel_x]] *)
Definition array_get (img_array : list (list Z)) (pixel_y pixel_x : Z) : result Z :=
  row <- index img_array pixel_y ;;
  index row pixel_x.

(** A loop that extends a list with what each iteration appends. *)
Definition concatM {A B : Type} (f : A -> result (list B)) (xs : list A)
  : result (list B) :=
  ls <- mapM f xs ;; Ok (concat ls).

Definition extract_tile (img_array : list (list Z)) (tile_y tile_x : Z)
  : result (list Z) :=
  concatM (fun y =>
    mapM (fun x =>
      let pixel_x := tile_x * 8 + x in
      let pixel_y := tile_y * 8 + y in
      pixel_value <- array_get img_array pixel_y pixel_x ;;
      Ok (Z.land pixel_value 0xF))
      (range 8))
    (range 8).

Definition image_to_tiles (image : Image) : result (list (list Z) * Z * Z) :=
  let '(width, height) := im_size image in
  let new_width := ((width + 7) / 8) * 8 in
  let new_height := ((height + 7) / 8) * 8 in
  let image :=
    if negb (new_width =? width) || negb (new_height =? height)
    then paste (Image_new (new_width, new_height) 0) image
    else image in
  let img_array := im_rows image in
  let tiles_x := new_width / 8 in
  let tiles_y := new_height / 8 in
  tiles <-
    concatM (fun tile_y =>
      mapM (fun tile_x => extract_tile img_array tile_y tile_x) (range tiles_x))
      (range tiles_y) ;;
  Ok (tiles, tiles_x, tiles_y).

(** ** Text *)

Definition str (s : string) : list ascii := list_ascii_of_string s.

Definition nl : ascii := "010"%char.

(** [sep.join(parts)] *)
Fixpoint join (sep : list ascii) (parts : list (list ascii)) : list ascii :=
  match parts with
  | [] => []
  | [p] => p
  | p :: rest => p ++ sep ++ join sep rest
  end.

Definition hex_digit_char (d : Z) : ascii :=
  if d <? 10 then ascii_of_nat (Z.to_nat (48 + d))
  else ascii_of_nat (Z.to_nat (55 + d)).

(** The upper-case hexadecimal digits of [n >= 0], most significant first. *)
Fixpoint hex_digits_aux (fuel : nat) (n : Z) (acc : list ascii) : list ascii :=
  match fuel with
  | O => acc
  | S fuel' =>
      let acc' := hex_digit_char (n mod 16) :: acc in
      if n <? 16 then acc' else hex_digits_aux fuel' (n / 16) acc'
  end.

Definition hex_digits (n : Z) : list ascii :=
  hex_digits_aux (S (Z.to_nat (Z.log2 n))) n [].

Definition zero_pad (width : nat) (ds : list ascii) : list ascii :=
  repeat "0"%char (width - length ds) ++ ds.

(** [f"{n:0wX}"]: sign-aware zero padding to [w] characters. *)
Definition format_X (width : nat) (n : Z) : list ascii :=
  if n <? 0 then "-"%char :: zero_pad (width - 1) (hex_digits (- n))
  else zero_pad width (hex_digits n).

Fixpoint dec_uint (d : Decimal.uint) : list ascii :=
  match d with
  | Decimal.Nil => []
  | Decimal.D0 d' => "0"%char :: dec_uint d'
  | Decimal.D1 d' => "1"%char :: dec_uint d'
  | Decimal.D2 d' => "2"%char :: dec_uint d'
  | Decimal.D3 d' => "3"%char :: dec_uint d'
  | Decimal.D4 d' => "4"%char :: dec_uint d'
  | Decimal.D5 d' => "5"%char :: dec_uint d'
  | Decimal.D6 d' => "6"%char :: dec_uint d'
  | Decimal.D7 d' => "7"%char :: dec_uint d'
  | Decimal.D8 d' => "8"%char :: dec_uint d'
  | Decimal.D9 d' => "9"%char :: dec_uint d'
  end.

(** [f"{n}"] for an [int]. *)
Definition format_int (n : Z) : list ascii :=
  match Z.to_int n with
  | Decimal.Pos d => dec_uint d
  | Decimal.Neg d => "-"%char :: dec_uint d
  end.

(** ** GenesisBMP2HEX.py: [tiles_to_genesis_hex] *)

(** The [byte_value]s of one tile, before they are formatted. *)
Definition tile_bytes (tile : list Z) : result (list Z) :=
  mapM (fun i =>
          hi <- index tile i ;;
          lo <- index tile (i + 1) ;;
          Ok (Z.lor (Z.shiftl hi 4) lo))
       (range_step 0 64 2).

Definition tiles_to_genesis_hex (tiles : list (list Z)) : result (list (list ascii)) :=
  concatM (fun tile =>
             bs <- tile_bytes tile ;;
             Ok (map (format_X 2) bs))
          tiles.

(** ** GenesisBMP2HEX.py: [format_output] *)

(** The dictionary returned by [bitmap_to_genesis_hex]. *)
Record Data : Type := mkData {
  palette : list Z;
  tile_data : list (list ascii);
  tiles_x : Z;
  tiles_y : Z;
  total_tiles : Z
}.

Definition format_output (data : Data) : list ascii :=
  let output := [str "; Genesis Palette Data (16 colors)"; str "palette_data:"] in
  let palette_hex := map (fun color => "$"%char :: format_X 4 color) (palette data) in
  let output := output ++
    map (fun i => str "    dc.w " ++ join (str ", ") (slice palette_hex i (i + 8)))
        (range_step 0 16 8) in
  let output := output ++ [str ""] in
  let output := output ++
    [str "; Genesis Tile Data";
     str "; " ++ format_int (total_tiles data) ++ str " tiles (" ++
       format_int (tiles_x data) ++ str "x" ++ format_int (tiles_y data) ++ str ")";
     str "tile_data:"] in
  let tile_data := tile_data data in
  let output := output ++
    map (fun i =>
           let line_data := slice tile_data i (i + 16) in
           str "    dc.b $" ++ join (str ", $") line_data)
        (range_step 0 (Z.of_nat (length tile_data)) 16) in
  join [nl] output.

(** ** GenesisHEX2BMP.py: the two regular expressions

    Text is a list of characters with code points below 256. *)

(** [\s] on [str]: the Unicode white space below 256. *)
Definition is_space (c : ascii) : bool :=
  let n := Z.of_nat (nat_of_ascii c) in
  ((9 <=? n) && (n <=? 13)) || ((28 <=? n) && (n <=? 32)) ||
  (n =? 133) || (n =? 160).

(** [[0-9A-Fa-f]] and the value of such a digit. *)
Definition hex_value (c : ascii) : option Z :=
  let n := Z.of_nat (nat_of_ascii c) in
  if (48 <=? n) && (n <=? 57) then Some (n - 48)
  else if (65 <=? n) && (n <=? 70) then Some (n - 55)
  else if (97 <=? n) && (n <=? 102) then Some (n - 87)
  else None.

Definition is_hex (c : ascii) : bool :=
  match hex_value c with Some _ => true | None => false end.

(** [int(digits, 16)] on a string of hexadecimal digits. *)
Definition int16 (digits : list ascii) : Z :=
  fold_left (fun acc c => 16 * acc + match hex_value c with
                                     | Some v => v
                                     | None => 0
                                     end) digits 0.

(** What is left of [s] after the literal [lit], when [s] starts with it. *)
Fixpoint strip_prefix (lit s : list ascii) : option (list ascii) :=
  match lit, s with
  | [], _ => Some s
  | a :: lit', b :: s' => if Ascii.eqb a b then strip_prefix lit' s' else None
  | _ :: _, [] => None
  end.

(** The text after the leftmost occurrence of [lit] in [s]. *)
Fixpoint find_literal (lit s : list ascii) : option (list ascii) :=
  match strip_prefix lit s with
  | Some rest => Some rest
  | None =>
      match s with
      | [] => None
      | _ :: s' => find_literal lit s'
      end
  end.

(** [\s*], greedy. *)
Fixpoint skip_spaces (s : list ascii) : list ascii :=
  match s with
  | c :: s' => if is_space c then skip_spaces s' else s
  | [] => []
  end.

(** [(?=\n\S|\Z)] at the head of [s]. *)
Definition at_boundary (s : list ascii) : bool :=
  match s with
  | [] => true
  | c :: d :: _ => Ascii.eqb c nl && negb (is_space d)
  | [_] => false
  end.

(** [(.*?)(?=\n\S|\Z)] under [re.DOTALL]: the shortest prefix that ends
    at a boundary, and the text from the boundary on. *)
Fixpoint lazy_to_boundary (s : list ascii) : list ascii * list ascii :=
  if at_boundary s then ([], s)
  else match s with
       | [] => ([], [])
       | c :: s' => let '(g, rest) := lazy_to_boundary s' in (c :: g, rest)
       end.

(** [re.findall(label + r'\s*(.*?)(?=\n\S|\Z)', content, re.DOTALL)]:
    after the literal the pattern always succeeds ([\s*] never has to
    give characters back, the lazy group can always reach the end), so
    the matches are the leftmost occurrences of the label taken in turn.
    Every match consumes its label, hence [fuel] beyond the length of the
    text is never reached. *)
Fixpoint findall_section_fuel (fuel : nat) (label content : list ascii)
  : list (list ascii) :=
  match fuel with
  | O => []
  | S fuel' =>
      match find_literal label content with
      | None => []
      | Some after =>
          let '(group, rest) := lazy_to_boundary (skip_spaces after) in
          group :: findall_section_fuel fuel' label rest
      end
  end.

Definition findall_section (label content : list ascii) : list (list ascii) :=
  findall_section_fuel (S (length content)) label content.

(** Up to [n] leading hexadecimal digits of [s]. *)
Fixpoint take_hex (n : nat) (s : list ascii) : list ascii :=
  match n, s with
  | S n', c :: s' => if is_hex c then c :: take_hex n' s' else []
  | _, _ => []
  end.

(** [re.findall(r'\$([0-9A-Fa-f]{lo,hi})', s)]; [skip] counts the
    characters of the match in progress that are still to be passed. *)
Fixpoint findall_hex_from (lo hi skip : nat) (s : list ascii) : list (list ascii) :=
  match s with
  | [] => []
  | c :: s' =>
      match skip with
      | S skip' => findall_hex_from lo hi skip' s'
      | O =>
          if Ascii.eqb c "$"%char then
            let digits := take_hex hi s' in
            if (lo <=? length digits)%nat
            then digits :: findall_hex_from lo hi (length digits) s'
            else findall_hex_from lo hi 0 s'
          else findall_hex_from lo hi 0 s'
      end
  end.

Definition findall_hex (lo hi : nat) (s : list ascii) : list (list ascii) :=
  findall_hex_from lo hi 0 s.

(** ** GenesisHEX2BMP.py: [parse_genesis_assembly]

    [content] is what [f.read()] returned. *)
Definition parse_genesis_assembly (content : list ascii) : list Z * list Z :=
  let palette_matches := findall_section (str "palette_data:") content in
  let palette :=
    match palette_matches with
    | m0 :: _ => map int16 (findall_hex 3 4 m0)
    | [] => []
    end in
  let tile_matches := findall_section (str "tile_data:") content in
  let tile_data :=
    match tile_matches with
    | m0 :: _ => map int16 (findall_hex 2 2 m0)
    | [] => []
    end in
  (palette, tile_data).

(** ** [struct.pack] with a little-endian, unaligned format *)

Inductive field : Type :=
| fmt_B
| fmt_H
| fmt_L
| fmt_x.

Definition le_bytes (n : nat) (v : Z) : list Z :=
  map (fun k => Z.land (Z.shiftr v (8 * Z.of_nat k)) 255) (seq 0 n).

Definition pack_uint (n : nat) (v : Z) : result (list Z) :=
  if (0 <=? v) && (v <? 2 ^ (8 * Z.of_nat n)) then Ok (le_bytes n v)
  else Raise StructError.

Fixpoint struct_pack (fmt : list field) (args : list Z) : result (list Z) :=
  match fmt, args with
  | [], [] => Ok []
  | fmt_x :: fmt', _ => rest <- struct_pack fmt' args ;; Ok (0 :: rest)
  | fmt_B :: fmt', v :: args' =>
      bs <- pack_uint 1 v ;; rest <- struct_pack fmt' args' ;; Ok (bs ++ rest)
  | fmt_H :: fmt', v :: args' =>
      bs <- pack_uint 2 v ;; rest <- struct_pack fmt' args' ;; Ok (bs ++ rest)
  | fmt_L :: fmt', v :: args' =>
      bs <- pack_uint 4 v ;; rest <- struct_pack fmt' args' ;; Ok (bs ++ rest)
  | _, _ => Raise StructError
  end.

(** ** GenesisHEX2BMP.py: [create_bmp] *)

(** Lines 66-75: the color table. *)
Definition color_table_of (palette : list Z) : result (list Z) :=
  color_table <-
    concatM (fun color =>
               let rgb := genesis_to_rgb color in
               let '(r, g, b) := rgb in
               struct_pack [fmt_B; fmt_B; fmt_B; fmt_x]
                           [Z.min b 255; Z.min g 255; Z.min r 255])
            palette ;;
  Ok (color_table ++ repeat 0 (Z.to_nat (64 - Z.of_nat (length color_table)))).

(** Lines 88-90: unpack the bytes of a tile row into 4-bit pixels. *)
Definition unpack_pixels (tile_row : list Z) : list Z :=
  flat_map (fun byte => [Z.land (Z.shiftr byte 4) 0x0F; Z.land byte 0x0F]) tile_row.

(** Lines 93-95: pack a row of 4-bit pixels two to a byte. *)
Definition pack_pixels (row : list Z) : result (list Z) :=
  mapM (fun i =>
          hi <- index row i ;;
          lo <- index row (i + 1) ;;
          Ok (Z.lor (Z.shiftl hi 4) lo))
       (range_step 0 (Z.of_nat (length row)) 2).

(** Lines 81-99: one output row. The body reads the module-level name
    [tile_data], not the parameter [tiles]; [g_tile_data] is that global,
    [None] while the name is unbound. *)
Definition bmp_row (g_tile_data : option (list Z)) (width_tiles ty y : Z)
  : result (list Z) :=
  row <-
    concatM (fun tx =>
               let tile_index := ty * width_tiles + tx in
               let tile_start := tile_index * 32 in
               match g_tile_data with
               | None => Raise NameError
               | Some tile_data =>
                   let tile_row :=
                     slice tile_data (tile_start + y * 4) (tile_start + y * 4 + 4) in
                   Ok (unpack_pixels tile_row)
               end)
            (range width_tiles) ;;
  packed_row <- pack_pixels row ;;
  Ok (packed_row ++ repeat 0 (Z.to_nat ((- Z.of_nat (length packed_row)) mod 4))).

(** The bytes written to [output_path]. *)
Definition create_bmp (g_tile_data : option (list Z))
           (palette tiles : list Z) (width_tiles height_tiles : Z)
  : result (list Z) :=
  let tile_size := 8 in
  let width_px := width_tiles * tile_size in
  let height_px := height_tiles * tile_size in
  headers <-
    struct_pack [fmt_H; fmt_L; fmt_H; fmt_H; fmt_L]
                [0x4D42; 54 + 64 + (width_px * height_px / 2); 0; 0; 54 + 64] ;;
  info <-
    struct_pack [fmt_L; fmt_L; fmt_L; fmt_H; fmt_H; fmt_L; fmt_L; fmt_L; fmt_L;
                 fmt_L; fmt_L]
                [40; width_px; height_px; 1; 4; 0; 0; 2835; 2835; 16; 16] ;;
  let headers := headers ++ info in
  color_table <- color_table_of palette ;;
  pixel_data <-
    concatM (fun ty =>
               concatM (fun y => bmp_row g_tile_data width_tiles ty y)
                       (range_down 8))
            (range_down height_tiles) ;;
  Ok (headers ++ color_table ++ pixel_data).

(** The [__main__] block: parse, bind the globals [palette] and
    [tile_data], and call [create_bmp] on them. *)
Definition convert (content : list ascii) (width_tiles height_tiles : Z)
  : result (list Z) :=
  let '(palette, tile_data) := parse_genesis_assembly content in
  create_bmp (Some tile_data) palette tile_data width_tiles height_tiles.

(** Little-endian fields read back from a file. *)
Definition read_le (n : nat) (file : list Z) (offset : nat) : Z :=
  fold_right (fun b acc => b + 256 * acc) 0 (firstn n (skipn offset file)).

(** ** The words of the specification, for comparison with the code *)

(** The 3-bit fields of a Color9 value: [R = val & 0x7],
    [G = (val & 0x38) >> 3], [B = (val & 0x1C0) >> 6]. *)
Definition field_r (v : Z) : Z := Z.land v 0x7.
Definition field_g (v : Z) : Z := Z.shiftr (Z.land v 0x38) 3.
Definition field_b (v : Z) : Z := Z.shiftr (Z.land v 0x1C0) 6.

(** The integer nearest to the rational [num / den] ([den > 0]), ties to
    even: [round] in exact arithmetic. *)
Definition round_ratio (num den : Z) : Z :=
  let q := num / den in
  let r := num mod den in
  match 2 * r ?= den with
  | Lt => q
  | Gt => q + 1
  | Eq => if Z.even q then q else q + 1
  end.

(** [encode(decode(v))] *)
Definition encode_decode (v : Z) : result Z :=
  let '(r, g, b) := genesis_to_rgb v in
  rgb_to_genesis_color r g b.

(** What re-encoding does to a 3-bit field that was decoded as
    [field * 32]. *)
Definition reencoded_field (f : Z) : Z := if f <=? 4 then f else f - 1.

(** ** Checkers run over finite ranges *)

Definition below (n : nat) : list Z := map Z.of_nat (seq 0 n).

Definition channel_ok (c : Z) : bool :=
  match scale_channel c with
  | Ok c3 => (c3 =? round_ratio (c * 7) 255) && (0 <=? c3) && (c3 <=? 7)
  | Raise _ => false
  end.

Definition pack9_ok (b3 : Z) : bool :=
  forallb (fun g3 =>
    forallb (fun r3 =>
      let v := Z.lor (Z.lor (Z.shiftl b3 6) (Z.shiftl g3 3)) r3 in
      (v =? 64 * b3 + 8 * g3 + r3) && (field_r v =? r3) &&
      (field_g v =? g3) && (field_b v =? b3))
      (below 8))
    (below 8).

Definition decode_ok (v : Z) : bool :=
  let '(r, g, b) := genesis_to_rgb v in
  (r =? 32 * field_r v) && (g =? 32 * field_g v) && (b =? 32 * field_b v) &&
  (0 <=? field_r v) && (field_r v <=? 7) &&
  (0 <=? field_g v) && (field_g v <=? 7) &&
  (0 <=? field_b v) && (field_b v <=? 7).

Definition reencode_ok (v : Z) : bool :=
  match encode_decode v with
  | Ok v' =>
      (field_r v' =? reencoded_field (field_r v)) &&
      (field_g v' =? reencoded_field (field_g v)) &&
      (field_b v' =? reencoded_field (field_b v)) &&
      (0 <=? v') && (v' <=? 511) &&
      Bool.eqb (v' =? v)
               ((field_r v <=? 4) && (field_g v <=? 4) && (field_b v <=? 4))
  | Raise _ => false
  end.

(** ** Nibble pairs *)

(** The bytes that both packing loops ([tiles_to_genesis_hex] and the row
    packer of [create_bmp]) produce from a list of 4-bit values. *)
Fixpoint pair_up (l : list Z) : list Z :=
  match l with
  | hi :: lo :: rest => Z.lor (Z.shiftl hi 4) lo :: pair_up rest
  | _ => []
  end.

Definition nibble (x : Z) : Prop := 0 <= x <= 15.
Definition byte_range (x : Z) : Prop := 0 <= x <= 255.

(** ** Palette triples *)

(** The colours that the loop of [create_genesis_palette] reads from a
    flat [r, g, b, r, g, b, ...] list. *)
Fixpoint triples (l : list Z) : list (Z * Z * Z) :=
  match l with
  | r :: g :: b :: rest => (r, g, b) :: triples rest
  | _ => []
  end.

(** [encode] with the rounding written in exact arithmetic. *)
Definition encode_exact (c : Z * Z * Z) : Z :=
  let '(r, g, b) := c in
  Z.lor (Z.lor (Z.shiftl (round_ratio (b * 7) 255) 6)
               (Z.shiftl (round_ratio (g * 7) 255) 3))
        (round_ratio (r * 7) 255).

Definition color9 (v : Z) : Prop := 0 <= v <= 511.

(** ** The bitmap writer in closed form *)

(** What unpacking a byte into two nibbles and packing them again gives. *)
Definition repack (byte : Z) : Z :=
  Z.lor (Z.shiftl (Z.land (Z.shiftr byte 4) 0x0F) 4) (Z.land byte 0x0F).

(** The tile bytes that make up output row [y] of tile row [ty]. *)
Definition row_bytes (tile_data : list Z) (width_tiles ty y : Z) : list Z :=
  concat (map (fun tx =>
                 let tile_start := (ty * width_tiles + tx) * 32 in
                 slice tile_data (tile_start + y * 4) (tile_start + y * 4 + 4))
              (range width_tiles)).

Definition padded_row (tile_data : list Z) (width_tiles ty y : Z) : list Z :=
  let packed_row := map repack (row_bytes tile_data width_tiles ty y) in
  packed_row ++ repeat 0 (Z.to_nat ((- Z.of_nat (length packed_row)) mod 4)).

Definition pixel_rows (tile_data : list Z) (width_tiles height_tiles : Z) : list Z :=
  concat (map (fun ty =>
                 concat (map (fun y => padded_row tile_data width_tiles ty y)
                             (range_down 8)))
              (range_down height_tiles)).

Definition color_entry (color : Z) : list Z :=
  let '(r, g, b) := genesis_to_rgb color in [b; g; r; 0].

Definition color_entries (palette : list Z) : list Z :=
  let table := concat (map color_entry palette) in
  table ++ repeat 0 (Z.to_nat (64 - Z.of_nat (length table))).

Definition bmp_headers (width_tiles height_tiles : Z) : list Z :=
  (le_bytes 2 0x4D42 ++ le_bytes 4 (54 + 64 + (width_tiles * 8 * (height_tiles * 8) / 2))
   ++ le_bytes 2 0 ++ le_bytes 2 0 ++ le_bytes 4 (54 + 64) ++ [])
  ++ (le_bytes 4 40 ++ le_bytes 4 (width_tiles * 8) ++ le_bytes 4 (height_tiles * 8)
      ++ le_bytes 2 1 ++ le_bytes 2 4 ++ le_bytes 4 0 ++ le_bytes 4 0
      ++ le_bytes 4 2835 ++ le_bytes 4 2835 ++ le_bytes 4 16 ++ le_bytes 4 16 ++ []).

(** Tile-grid dimensions that [struct.pack] can write into the headers. *)
Definition header_fits (width_tiles height_tiles : Z) : Prop :=
  0 <= width_tiles /\ 0 <= height_tiles /\
  width_tiles * 8 < 2 ^ 32 /\ height_tiles * 8 < 2 ^ 32 /\
  118 + 32 * width_tiles * height_tiles < 2 ^ 32.

(** ** Occurrence of a label in a text *)

(** [lit] occurs in [s]: at some offset the next [length lit] characters
    of [s] are [lit]. *)
Definition occurs (lit s : list ascii) : bool :=
  existsb (fun k =>
             if list_eq_dec ascii_dec (firstn (length lit) (skipn k s)) lit
             then true else false)
          (seq 0 (S (length s))).

(** ** The tiler in closed form *)

(** The palette index of pixel [(px, py)] of an image. *)
Definition pixel_at (im : Image) (px py : Z) : Z :=
  nth (Z.to_nat px) (nth (Z.to_nat py) (im_rows im) []) 0.

(** What the tiler stores for pixel [(px, py)] of the padded canvas. *)
Definition stored_index (im : Image) (px py : Z) : Z :=
  if (px <? fst (im_size im)) && (py <? snd (im_size im))
  then Z.land (pixel_at im px py) 0xF
  else 0.

(** Rows of width [w] extended to width [nw], then rows of zeros up to
    [nh] rows. *)
Definition pad_rows (rows : list (list Z)) (w nw nh : nat) : list (list Z) :=
  map (fun row => row ++ repeat 0 (nw - w)) rows
  ++ repeat (repeat 0 nw) (nh - length rows).

(** The 64 indices of the tile at [(tile_x, tile_y)] read off an array. *)
Definition tile_at (img_array : list (list Z)) (tile_y tile_x : Z) : list Z :=
  concat (map (fun y =>
                 map (fun x =>
                        Z.land (nth (Z.to_nat (tile_x * 8 + x))
                                    (nth (Z.to_nat (tile_y * 8 + y)) img_array []) 0)
                               0xF)
                     (range 8))
              (range 8)).

(** ** Shapes of text that the parser's patterns pass over *)

(** [t], however it is continued, does not start with [lit]: the two
    differ at a position both have. *)
Fixpoint clash (lit t : list ascii) : bool :=
  match lit, t with
  | a :: lit', b :: t' => if Ascii.eqb a b then clash lit' t' else true
  | _, _ => false
  end.

(** No occurrence of [lit] can start inside [seg], whatever follows it. *)
Fixpoint no_start (lit seg : list ascii) : bool :=
  match seg with
  | [] => true
  | _ :: seg' => clash lit seg && no_start lit seg'
  end.

(** Every line feed of [seg] is followed, inside [seg], by white space:
    the lazy group runs through [seg]. *)
Fixpoint nl_ok (seg : list ascii) : bool :=
  match seg with
  | [] => true
  | c :: seg' =>
      (if Ascii.eqb c nl
       then match seg' with d :: _ => is_space d | [] => false end
       else true) && nl_ok seg'
  end.

Definition not_char (a c : ascii) : bool := negb (Ascii.eqb c a).

(** A text that is a run of [$]-literals of exactly [hi] hexadecimal
    digits each, separated by text without [$]. *)
Inductive tokenized (hi : nat) : list ascii -> list (list ascii) -> Prop :=
| tok_end (u : list ascii) :
    forallb (not_char "$") u = true -> tokenized hi u []
| tok_cons (u h t : list ascii) (hs : list (list ascii)) :
    forallb (not_char "$") u = true ->
    length h = hi -> forallb is_hex h = true ->
    tokenized hi t hs ->
    tokenized hi (u ++ "$"%char :: h ++ t) (h :: hs).

(** A formatted number has [width] hexadecimal digits and reads back. *)
Definition hex_format_ok (width : nat) (v : Z) : bool :=
  let s := format_X width v in
  (length s =? width)%nat && forallb is_hex s && (int16 s =? v).

(** The characters of a decimal [int]. *)
Definition dec_char (c : ascii) : bool :=
  let n := Z.of_nat (nat_of_ascii c) in
  ((48 <=? n) && (n <=? 57)) || (n =? 45).

(** The characters of a line body: hexadecimal digits, [$], [,], space. *)
Definition body_char (c : ascii) : bool :=
  is_hex c || Ascii.eqb c "$" || Ascii.eqb c "," || Ascii.eqb c " ".

(** ** GenesisBMP2HEX.py: [bitmap_to_genesis_hex] *)

Section Forward.

(** Pillow: [img] is the image after
    [Image.open(image_path).convert('RGB')]; quantizing it yields a
    mode-['P'] image. The two [print] calls are left out. *)
Variable RGBImage : Type.
Variable quantize : RGBImage -> Image.
Variable getpalette : Image -> list Z.

Definition bitmap_to_genesis_hex (img : RGBImage) : result Data :=
  created <- create_genesis_palette RGBImage Image quantize getpalette img ;;
  let '(genesis_palette, quantized_img) := created in
  tiled <- image_to_tiles quantized_img ;;
  let '(tiles, tiles_x, tiles_y) := tiled in
  tile_hex_data <- tiles_to_genesis_hex tiles ;;
  Ok (mkData genesis_palette tile_hex_data tiles_x tiles_y
             (Z.of_nat (length tiles))).

End Forward.

(** A palette word as the document can hold it: four hexadecimal digits. *)
Definition word16 (v : Z) : Prop := 0 <= v <= 65535.

(** ** Reading a 4-bit bitmap *)


(** ** GenesisBMP2HEX.py: [get_image_path] *)

(** [s.strip()]: white space removed at both ends. *)
Definition strip (s : list ascii) : list ascii :=
  rev (skip_spaces (rev (skip_spaces s))).

(** [s.startswith(c)] and [s.endswith(c)] for a one-character [c]. *)
Definition startswith (c : ascii) (s : list ascii) : bool :=
  match s with
  | d :: _ => Ascii.eqb d c
  | [] => false
  end.

Definition endswith (c : ascii) (s : list ascii) : bool := startswith c (rev s).

Definition double_quote : ascii := "034"%char.

(** Lines 160-164: one pair of surrounding quotes is removed. *)
Definition unquote (image_path : list ascii) : list ascii :=
  if startswith double_quote image_path && endswith double_quote image_path
  then slice image_path 1 (-1)
  else if startswith "'" image_path && endswith "'" image_path
       then slice image_path 1 (-1)
       else image_path.

Definition not_found_message (image_path : list ascii) : list ascii :=
  str "Error: File '" ++ image_path ++ str "' not found. Try again.".

Section Prompt.

(** [os.path.exists]. *)
Variable path_exists : list ascii -> bool.

(** The loop of [get_image_path] run on the lines that [input] returns one
    after the other: the error lines it prints and the path it returns,
    [None] when the input ends first ([input] raises [EOFError]). The
    prompt that [input] writes is left out. *)
Fixpoint get_image_path (inputs : list (list ascii))
  : list (list ascii) * option (list ascii) :=
  match inputs with
  | [] => ([], None)
  | line :: rest =>
      let image_path := unquote (strip line) in
      if path_exists image_path then ([], Some image_path)
      else let '(printed, found) := get_image_path rest in
           (not_found_message image_path :: printed, found)
  end.

End Prompt.

(** Right-nest a chain of [++] and [::]. *)
Ltac app_normalize := repeat (rewrite <- app_assoc || rewrite <- app_comm_cons).

(** * Properties *)

(** ** Enumeration over an initial segment of the integers *)

Lemma In_below (n : nat) (v : Z) : 0 <= v < Z.of_nat n -> In v (below n).
Proof.
  intros Hv. unfold below.
  replace v with (Z.of_nat (Z.to_nat v)) by lia.
  apply in_map, in_seq. lia.
Qed.

Lemma forallb_below (p : Z -> bool) (n : nat) :
  forallb p (below n) = true ->
  forall v, 0 <= v < Z.of_nat n -> p v = true.
Proof.
  intros Hall v Hv.
  rewrite forallb_forall in Hall. apply Hall, In_below, Hv.
Qed.

(** ** ColorCodec *)

Lemma scale_channel_exact (c : Z) :
  0 <= c <= 255 ->
  scale_channel c = Ok (round_ratio (c * 7) 255) /\
  0 <= round_ratio (c * 7) 255 <= 7.
Proof.
  intros Hc.
  assert (H : channel_ok c = true).
  { apply (forallb_below channel_ok 256); [vm_compute; reflexivity | lia]. }
  unfold channel_ok in H.
  destruct (scale_channel c) as [c3|e]; [|discriminate].
  apply andb_prop in H as [H H7]. apply andb_prop in H as [Heq H0].
  apply Z.eqb_eq in Heq. subst c3. split; [reflexivity | lia].
Qed.

Lemma pack9_fields (b3 g3 r3 : Z) :
  0 <= b3 <= 7 -> 0 <= g3 <= 7 -> 0 <= r3 <= 7 ->
  let v := Z.lor (Z.lor (Z.shiftl b3 6) (Z.shiftl g3 3)) r3 in
  v = 64 * b3 + 8 * g3 + r3 /\
  field_r v = r3 /\ field_g v = g3 /\ field_b v = b3.
Proof.
  intros Hb Hg Hr v.
  assert (H : pack9_ok b3 = true).
  { apply (forallb_below pack9_ok 8); [vm_compute; reflexivity | lia]. }
  unfold pack9_ok in H.
  apply (forallb_below _ 8) with (v := g3) in H; [|lia].
  apply (forallb_below _ 8) with (v := r3) in H; [|lia].
  fold v in H.
  repeat (apply andb_prop in H as [H ?]).
  repeat match goal with E : (_ =? _) = true |- _ => apply Z.eqb_eq in E end.
  auto.
Qed.

Lemma rgb_to_genesis_color_exact (r g b : Z) :
  byte_range r -> byte_range g -> byte_range b ->
  rgb_to_genesis_color r g b = Ok (encode_exact (r, g, b)) /\
  color9 (encode_exact (r, g, b)).
Proof.
  intros Hr Hg Hb.
  destruct (scale_channel_exact r Hr) as [Er Br].
  destruct (scale_channel_exact g Hg) as [Eg Bg].
  destruct (scale_channel_exact b Hb) as [Eb Bb].
  split.
  - unfold rgb_to_genesis_color. rewrite Er, Eg, Eb. reflexivity.
  - destruct (pack9_fields _ _ _ Bb Bg Br) as [E _]. cbv zeta in E.
    unfold color9, encode_exact. lia.
Qed.

(** C5. For channels in 0..255 the encoder returns
    [(B3 << 6) | (G3 << 3) | R3] where each 3-bit channel is
    [round(channel / 255 * 7)] -- the binary64 computation of the code
    agrees with the rounding of the exact ratio --, each lies in 0..7 and
    the packed value lies in 0..511. *)
Theorem encode_packs_rounded_channels (r g b : Z) :
  0 <= r <= 255 -> 0 <= g <= 255 -> 0 <= b <= 255 ->
  let r3 := round_ratio (r * 7) 255 in
  let g3 := round_ratio (g * 7) 255 in
  let b3 := round_ratio (b * 7) 255 in
  scale_channel r = Ok r3 /\ scale_channel g = Ok g3 /\ scale_channel b = Ok b3 /\
  0 <= r3 <= 7 /\ 0 <= g3 <= 7 /\ 0 <= b3 <= 7 /\
  rgb_to_genesis_color r g b =
    Ok (Z.lor (Z.lor (Z.shiftl b3 6) (Z.shiftl g3 3)) r3) /\
  0 <= Z.lor (Z.lor (Z.shiftl b3 6) (Z.shiftl g3 3)) r3 <= 511.
Proof.
  intros Hr Hg Hb r3 g3 b3.
  destruct (scale_channel_exact r Hr) as [Er Br].
  destruct (scale_channel_exact g Hg) as [Eg Bg].
  destruct (scale_channel_exact b Hb) as [Eb Bb].
  destruct (rgb_to_genesis_color_exact r g b Hr Hg Hb) as [E B].
  fold r3 in Er, Br. fold g3 in Eg, Bg. fold b3 in Eb, Bb.
  do 6 (split; [assumption|]).
  split; [exact E | exact B].
Qed.

Lemma encode_packs_rounded_channels_witness :
  (0 <= 255 <= 255 /\ 0 <= 0 <= 255 /\ 0 <= 0 <= 255) /\
  rgb_to_genesis_color 255 0 0 = Ok 7.
Proof.
  split; [lia|].
  destruct (encode_packs_rounded_channels 255 0 0) as (_ & _ & _ & _ & _ & _ & E & _);
    [lia | lia | lia |].
  exact E.
Defined.

Lemma genesis_to_rgb_fields (v : Z) :
  0 <= v <= 511 ->
  genesis_to_rgb v = (32 * field_r v, 32 * field_g v, 32 * field_b v) /\
  0 <= field_r v <= 7 /\ 0 <= field_g v <= 7 /\ 0 <= field_b v <= 7.
Proof.
  intros Hv.
  assert (H : decode_ok v = true).
  { apply (forallb_below decode_ok 512); [vm_compute; reflexivity | lia]. }
  unfold decode_ok in H.
  destruct (genesis_to_rgb v) as [[r g] b].
  repeat (apply andb_prop in H as [H ?]).
  repeat match goal with
         | E : (_ =? _) = true |- _ => apply Z.eqb_eq in E
         | E : (_ <=? _) = true |- _ => apply Z.leb_le in E
         end.
  subst. repeat split; assumption.
Qed.

(** The masks of [genesis_to_rgb] read only the low nine bits. *)
Lemma genesis_to_rgb_mod (color : Z) :
  genesis_to_rgb color = genesis_to_rgb (color mod 512).
Proof.
  unfold genesis_to_rgb.
  change 512 with (2 ^ 9). rewrite <- Z.land_ones by lia.
  rewrite <- !Z.land_assoc. reflexivity.
Qed.

Lemma pack_uint_byte (x : Z) : 0 <= x <= 255 -> pack_uint 1 x = Ok [x].
Proof.
  intros Hx. unfold pack_uint.
  change (2 ^ (8 * Z.of_nat 1)) with 256.
  destruct (Z.leb_spec 0 x); [|lia].
  destruct (Z.ltb_spec x 256); [|lia].
  cbn [andb le_bytes seq map].
  change (8 * Z.of_nat 0) with 0. rewrite Z.shiftr_0_r.
  change 255 with (Z.ones 8). rewrite Z.land_ones by lia.
  rewrite Z.mod_small by lia. reflexivity.
Qed.

(** C10. For a Color9 value in 0..511 every channel decoded by
    [genesis_to_rgb] is its 3-bit field times 32, so it is one of
    0, 32, ..., 224 and never exceeds 255, and the [min(channel, 255)]
    clamps of the color table leave every channel unchanged: the table
    entry is exactly (blue, green, red, 0). *)
Theorem decode_channels_never_clamped (v : Z) :
  0 <= v <= 511 ->
  let '(r, g, b) := genesis_to_rgb v in
  r = 32 * field_r v /\ g = 32 * field_g v /\ b = 32 * field_b v /\
  0 <= field_r v <= 7 /\ 0 <= field_g v <= 7 /\ 0 <= field_b v <= 7 /\
  r <= 224 /\ g <= 224 /\ b <= 224 /\
  Z.min r 255 = r /\ Z.min g 255 = g /\ Z.min b 255 = b /\
  struct_pack [fmt_B; fmt_B; fmt_B; fmt_x] [Z.min b 255; Z.min g 255; Z.min r 255]
    = Ok [b; g; r; 0].
Proof.
  intros Hv.
  destruct (genesis_to_rgb_fields v Hv) as (E & Hr & Hg & Hb).
  rewrite E.
  assert (Mr : Z.min (32 * field_r v) 255 = 32 * field_r v) by lia.
  assert (Mg : Z.min (32 * field_g v) 255 = 32 * field_g v) by lia.
  assert (Mb : Z.min (32 * field_b v) 255 = 32 * field_b v) by lia.
  repeat split; try lia.
  rewrite Mr, Mg, Mb.
  cbn [struct_pack]. rewrite !pack_uint_byte by lia. reflexivity.
Qed.

Lemma decode_channels_never_clamped_witness :
  0 <= 0x1FF <= 511 /\
  struct_pack [fmt_B; fmt_B; fmt_B; fmt_x] [Z.min 224 255; Z.min 224 255; Z.min 224 255]
    = Ok [224; 224; 224; 0].
Proof.
  split; [lia|].
  pose proof (decode_channels_never_clamped 0x1FF) as H.
  cbv beta iota zeta delta [genesis_to_rgb] in H.
  apply H. lia.
Defined.

(** C3, as the code has it. Re-encoding a decoded Color9 value recovers a
    3-bit field exactly when the field is at most 4, and yields the field
    minus one when it is 5, 6 or 7 (the decoder scales by 32, the encoder
    by 7/255); hence [encode(decode(v)) = v] exactly when every field of
    [v] is at most 4. *)
Theorem encode_decode_fields (v : Z) :
  0 <= v <= 511 ->
  exists v',
    encode_decode v = Ok v' /\ 0 <= v' <= 511 /\
    field_r v' = reencoded_field (field_r v) /\
    field_g v' = reencoded_field (field_g v) /\
    field_b v' = reencoded_field (field_b v) /\
    (v' = v <-> field_r v <= 4 /\ field_g v <= 4 /\ field_b v <= 4).
Proof.
  intros Hv.
  assert (H : reencode_ok v = true).
  { apply (forallb_below reencode_ok 512); [vm_compute; reflexivity | lia]. }
  unfold reencode_ok in H.
  destruct (encode_decode v) as [v'|e]; [|discriminate].
  exists v'.
  repeat (apply andb_prop in H as [H ?]).
  repeat match goal with
         | E : (_ =? _) = true |- _ => apply Z.eqb_eq in E
         | E : (_ <=? _) = true |- _ => apply Z.leb_le in E
         end.
  match goal with E : Bool.eqb _ _ = true |- _ =>
    apply Bool.eqb_prop in E; rename E into Hb end.
  split; [reflexivity|]. split; [lia|].
  do 3 (split; [assumption|]).
  split.
  - intros ->. rewrite Z.eqb_refl in Hb. symmetry in Hb.
    apply andb_prop in Hb as [Hb Lb]. apply andb_prop in Hb as [Lr Lg].
    apply Z.leb_le in Lr, Lg, Lb. auto.
  - intros (Lr & Lg & Lb).
    apply Z.eqb_eq. rewrite Hb.
    apply andb_true_intro; split; [apply andb_true_intro; split|];
      apply Z.leb_le; assumption.
Qed.

Lemma encode_decode_fields_witness :
  0 <= 0x124 <= 511 /\
  exists v',
    encode_decode 0x124 = Ok v' /\ 0 <= v' <= 511 /\
    field_r v' = reencoded_field (field_r 0x124) /\
    field_g v' = reencoded_field (field_g 0x124) /\
    field_b v' = reencoded_field (field_b 0x124) /\
    (v' = 0x124 <-> field_r 0x124 <= 4 /\ field_g 0x124 <= 4 /\ field_b 0x124 <= 4).
Proof.
  split; [lia|]. apply (encode_decode_fields 0x124). lia.
Defined.

(** C3, as the specification states it, fails: the pure red Color9 value
    7 decodes to (224, 0, 0), which encodes to 6. *)
Lemma encode_decode_not_identity :
  0 <= 7 <= 511 /\ genesis_to_rgb 7 = (224, 0, 0) /\
  encode_decode 7 = Ok 6 /\ encode_decode 7 <> Ok 7.
Proof.
  split; [lia|]. split; [reflexivity|]. split; [vm_compute; reflexivity|].
  vm_compute. discriminate.
Qed.

(** ** Lists, indices and loops *)

Lemma index_app_at {A : Type} (pre : list A) (x : A) (l : list A) :
  index (pre ++ x :: l) (Z.of_nat (length pre)) = Ok x.
Proof.
  unfold index.
  destruct (Z.ltb_spec (Z.of_nat (length pre)) 0); [lia|]. cbv zeta.
  destruct (Z.ltb_spec (Z.of_nat (length pre)) 0); [lia|].
  rewrite Nat2Z.id, nth_error_app2, Nat.sub_diag by lia. reflexivity.
Qed.

Lemma list_pair_ind {A : Type} (P : list A -> Prop) :
  P [] -> (forall x, P [x]) ->
  (forall x y l, P l -> P (x :: y :: l)) ->
  forall l, P l.
Proof.
  intros H0 H1 H2.
  fix IH 1. intros [|x [|y l]]; [exact H0 | apply H1 | apply H2, IH].
Qed.

Lemma mapM_ext {A B : Type} (f g : A -> result B) (xs : list A) :
  (forall x, In x xs -> f x = g x) -> mapM f xs = mapM g xs.
Proof.
  induction xs as [|x xs IH]; intros H; [reflexivity|].
  cbn [mapM]. rewrite (H x) by (left; reflexivity).
  rewrite IH by (intros y Hy; apply H; right; exact Hy). reflexivity.
Qed.

Lemma mapM_Ok {A B : Type} (f : A -> B) (xs : list A) :
  mapM (fun x => Ok (f x)) xs = Ok (map f xs).
Proof.
  induction xs as [|x xs IH]; [reflexivity|].
  cbn [mapM map bind]. rewrite IH. reflexivity.
Qed.

(** ** TileCodec *)

Lemma nibble_pair_hi (hi lo : Z) :
  nibble hi -> nibble lo ->
  Z.land (Z.shiftr (Z.lor (Z.shiftl hi 4) lo) 4) 0x0F = hi.
Proof.
  unfold nibble. intros Hhi Hlo.
  rewrite Z.shiftr_lor, Z.shiftr_shiftl_l, Z.sub_diag, Z.shiftl_0_r by lia.
  rewrite (Z.shiftr_div_pow2 lo) by lia.
  change (2 ^ 4) with 16. rewrite (Z.div_small lo) by lia.
  rewrite Z.lor_0_r. change 0x0F with (Z.ones 4).
  rewrite Z.land_ones by lia. apply Z.mod_small. change (2 ^ 4) with 16. lia.
Qed.

Lemma nibble_pair_lo (hi lo : Z) :
  nibble hi -> nibble lo ->
  Z.land (Z.lor (Z.shiftl hi 4) lo) 0x0F = lo.
Proof.
  unfold nibble. intros Hhi Hlo.
  rewrite Z.land_lor_distr_l. change 0x0F with (Z.ones 4).
  rewrite !Z.land_ones by lia.
  rewrite Z.shiftl_mul_pow2 by lia. rewrite Z.mod_mul by (change (2 ^ 4) with 16; lia).
  rewrite Z.lor_0_l. apply Z.mod_small. change (2 ^ 4) with 16. lia.
Qed.

Lemma nibble_pair_byte (hi lo : Z) :
  nibble hi -> nibble lo -> byte_range (Z.lor (Z.shiftl hi 4) lo).
Proof.
  unfold nibble, byte_range. intros Hhi Hlo.
  assert (E : Z.lor (Z.shiftl hi 4) lo = 16 * hi + lo).
  { rewrite Z.shiftl_mul_pow2 by lia. change (2 ^ 4) with 16.
    assert (L : Z.land (hi * 16) lo = 0); [|rewrite <- Z.lxor_lor, <- Z.add_nocarry_lxor by exact L; lia].
    apply Z.bits_inj'. intros n Hn.
    rewrite Z.land_spec, Z.bits_0.
    destruct (Z.ltb_spec n 4).
    - change 16 with (2 ^ 4).
      rewrite Z.mul_pow2_bits_low by lia. reflexivity.
    - rewrite (Z.bits_above_log2 lo n), andb_false_r; [reflexivity | lia |].
      destruct (Z.eq_dec lo 0) as [->|]; [simpl; lia|].
      apply Z.lt_le_trans with 4; [|lia].
      apply Z.log2_lt_pow2; [lia | change (2 ^ 4) with 16; lia]. }
  rewrite E. lia.
Qed.

Lemma unpack_pair_up (l : list Z) :
  Forall nibble l -> Nat.Even (length l) -> unpack_pixels (pair_up l) = l.
Proof.
  induction l as [| x | x y l IH] using list_pair_ind; intros Hn He.
  - reflexivity.
  - destruct He as [k Hk]. simpl in Hk. lia.
  - inversion Hn as [|? ? Hx Hn']; subst. inversion Hn' as [|? ? Hy Hl]; subst.
    cbn [pair_up unpack_pixels flat_map app].
    rewrite nibble_pair_hi, nibble_pair_lo by assumption.
    f_equal. f_equal. apply IH; [assumption|].
    destruct He as [k Hk]. exists (k - 1)%nat. simpl in Hk. lia.
Qed.

Lemma length_pair_up (l : list Z) (n : nat) :
  length l = (2 * n)%nat -> length (pair_up l) = n.
Proof.
  revert n. induction l as [| x | x y l IH] using list_pair_ind; intros n Hl.
  - simpl in *. lia.
  - simpl in Hl. lia.
  - destruct n as [|n]; [simpl in Hl; lia|].
    cbn [pair_up length]. f_equal. apply IH. simpl in Hl. lia.
Qed.

Lemma pair_up_bytes (l : list Z) :
  Forall nibble l -> Forall byte_range (pair_up l).
Proof.
  induction l as [| x | x y l IH] using list_pair_ind; intros Hn;
    try (constructor; fail).
  inversion Hn as [|? ? Hx Hn']; subst. inversion Hn' as [|? ? Hy Hl]; subst.
  cbn [pair_up]. constructor; [apply nibble_pair_byte; assumption | auto].
Qed.

(** The packing loop [for i in range(0, 2n, 2): (l[i] << 4) | l[i+1]] run
    on the last [2n] elements of a list. *)
Lemma mapM_pairs (n a : nat) (pre l : list Z) :
  length pre = (2 * a)%nat -> length l = (2 * n)%nat ->
  mapM (fun i =>
          hi <- index (pre ++ l) i ;;
          lo <- index (pre ++ l) (i + 1) ;;
          Ok (Z.lor (Z.shiftl hi 4) lo))
       (map (fun k => 0 + 2 * Z.of_nat k) (seq a n)) = Ok (pair_up l).
Proof.
  revert a pre l. induction n as [|n IH]; intros a pre l Hpre Hl.
  - destruct l; [reflexivity | simpl in Hl; lia].
  - destruct l as [|hi [|lo l]]; try (simpl in Hl; lia).
    cbn [seq map mapM pair_up].
    replace (0 + 2 * Z.of_nat a) with (Z.of_nat (length pre)) by lia.
    rewrite index_app_at. cbn [bind].
    replace (pre ++ hi :: lo :: l) with ((pre ++ [hi]) ++ lo :: l)
      by (rewrite <- app_assoc; reflexivity).
    replace (Z.of_nat (length pre) + 1) with (Z.of_nat (length (pre ++ [hi])))
      by (rewrite length_app; simpl; lia).
    rewrite index_app_at. cbn [bind].
    replace ((pre ++ [hi]) ++ lo :: l) with ((pre ++ [hi; lo]) ++ l)
      by (rewrite <- !app_assoc; reflexivity).
    rewrite (IH (S a) (pre ++ [hi; lo]) l);
      [reflexivity | rewrite length_app; simpl; lia | simpl in Hl; lia].
Qed.

Lemma tile_bytes_pair_up (tile : list Z) :
  length tile = 64%nat -> tile_bytes tile = Ok (pair_up tile).
Proof.
  intros Hl. unfold tile_bytes.
  change (range_step 0 64 2) with (map (fun k => 0 + 2 * Z.of_nat k) (seq 0 32)).
  apply (mapM_pairs 32 0 [] tile); [reflexivity | exact Hl].
Qed.

(** C1. Packing a tile of 64 palette indices in 0..15 gives 32 bytes
    (byte [i/2] is [(t[2i] << 4) | t[2i+1]] for even [i]), and unpacking those
    bytes high nibble first gives the tile back. *)
Theorem unpack_pack_tile (t : list Z) :
  length t = 64%nat -> Forall nibble t ->
  exists bytes,
    tile_bytes t = Ok bytes /\ bytes = pair_up t /\ length bytes = 32%nat /\
    Forall byte_range bytes /\ unpack_pixels bytes = t.
Proof.
  intros Hl Hn. exists (pair_up t).
  split; [apply tile_bytes_pair_up, Hl|]. split; [reflexivity|].
  split; [apply length_pair_up; rewrite Hl; reflexivity|].
  split; [apply pair_up_bytes, Hn|].
  apply unpack_pair_up; [exact Hn|]. exists 32%nat. rewrite Hl. reflexivity.
Qed.

Lemma unpack_pack_tile_witness :
  let t := map (fun k => Z.of_nat k mod 16) (seq 0 64) in
  (length t = 64%nat /\ Forall nibble t) /\
  exists bytes,
    tile_bytes t = Ok bytes /\ bytes = pair_up t /\ length bytes = 32%nat /\
    Forall byte_range bytes /\ unpack_pixels bytes = t.
Proof.
  assert (H : length (map (fun k => Z.of_nat k mod 16) (seq 0 64)) = 64%nat /\
              Forall nibble (map (fun k => Z.of_nat k mod 16) (seq 0 64))).
  { split; [reflexivity|].
    apply Forall_forall. intros x Hx. apply in_map_iff in Hx as (k & <- & _).
    unfold nibble. pose proof (Z.mod_pos_bound (Z.of_nat k) 16). lia. }
  split; [exact H|].
  apply unpack_pack_tile; apply H.
Defined.

(** ** Slices *)

Lemma slice_nonneg {A : Type} (l : list A) (a b : Z) :
  0 <= a -> 0 <= b ->
  slice l a b = firstn (Z.to_nat (b - a)) (skipn (Z.to_nat a) l).
Proof.
  intros Ha Hb. unfold slice, clamp_index.
  destruct (Z.ltb_spec a 0); [lia|]. destruct (Z.ltb_spec b 0); [lia|].
  destruct (Z.le_gt_cases (Z.of_nat (length l)) a) as [Hge|Hlt].
  - rewrite (Z.min_r a) by lia.
    rewrite !skipn_all2 by lia. rewrite !firstn_nil. reflexivity.
  - rewrite (Z.min_l a) by lia.
    destruct (Z.le_gt_cases b (Z.of_nat (length l))).
    + rewrite Z.min_l by lia. reflexivity.
    + rewrite Z.min_r by lia.
      rewrite !firstn_all2; [reflexivity | |]; rewrite length_skipn; lia.
Qed.

Lemma slice_all {A : Type} (l : list A) (b : Z) :
  Z.of_nat (length l) <= b -> slice l 0 b = l.
Proof.
  intros Hb. rewrite slice_nonneg by lia.
  cbn [Z.to_nat skipn]. apply firstn_all2. lia.
Qed.

Lemma length_slice_le {A : Type} (l : list A) (a b : Z) :
  0 <= a -> 0 <= b -> Z.of_nat (length (slice l a b)) <= Z.max 0 (b - a).
Proof.
  intros Ha Hb. rewrite slice_nonneg by assumption.
  rewrite length_firstn. lia.
Qed.

Lemma length_slice_full {A : Type} (l : list A) (a b : Z) :
  0 <= a <= b -> b <= Z.of_nat (length l) ->
  length (slice l a b) = Z.to_nat (b - a).
Proof.
  intros Ha Hb. rewrite slice_nonneg by lia.
  rewrite length_firstn, length_skipn. lia.
Qed.

(** ** PaletteBuilder *)

Lemma index_past_end {A : Type} (l : list A) (i : Z) :
  Z.of_nat (length l) <= i -> index l i = Raise IndexError.
Proof.
  intros Hi. unfold index. destruct (Z.ltb_spec i 0); [lia|]. cbv zeta.
  destruct (Z.ltb_spec i 0); [lia|].
  destruct (nth_error l (Z.to_nat i)) eqn:E; [|reflexivity].
  assert (nth_error l (Z.to_nat i) <> None) as Hn by congruence.
  apply nth_error_Some in Hn. lia.
Qed.

(** The loop [for i in range(0, 3n, 3)] over the last part [l] of the
    palette list, when [l] holds all [3n] values it reads. *)
Lemma mapM_triples (n a : nat) (pre l : list Z) :
  length pre = (3 * a)%nat -> length l = (3 * n)%nat -> Forall byte_range l ->
  mapM (fun i =>
          r <- index (pre ++ l) i ;;
          g <- index (pre ++ l) (i + 1) ;;
          b <- index (pre ++ l) (i + 2) ;;
          rgb_to_genesis_color r g b)
       (map (fun k => 0 + 3 * Z.of_nat k) (seq a n))
  = Ok (map encode_exact (triples l)).
Proof.
  revert a pre l. induction n as [|n IH]; intros a pre l Hpre Hl Hb.
  - destruct l; [reflexivity | simpl in Hl; lia].
  - destruct l as [|r [|g [|b l]]]; try (simpl in Hl; lia).
    inversion Hb as [|? ? Hr Hb1]; subst. inversion Hb1 as [|? ? Hg Hb2]; subst.
    inversion Hb2 as [|? ? Hbb Hb3]; subst.
    cbn [seq map mapM triples].
    replace (0 + 3 * Z.of_nat a) with (Z.of_nat (length pre)) by lia.
    rewrite index_app_at. cbn [bind].
    replace (pre ++ r :: g :: b :: l) with ((pre ++ [r]) ++ g :: b :: l) at 1
      by (rewrite <- app_assoc; reflexivity).
    replace (Z.of_nat (length pre) + 1) with (Z.of_nat (length (pre ++ [r])))
      by (rewrite length_app; simpl; lia).
    rewrite index_app_at. cbn [bind].
    replace (pre ++ r :: g :: b :: l) with ((pre ++ [r; g]) ++ b :: l) at 1
      by (rewrite <- app_assoc; reflexivity).
    replace (Z.of_nat (length pre) + 2) with (Z.of_nat (length (pre ++ [r; g])))
      by (rewrite length_app; simpl; lia).
    rewrite index_app_at. cbn [bind].
    destruct (rgb_to_genesis_color_exact r g b Hr Hg Hbb) as [E _]. rewrite E.
    cbn [bind].
    replace (pre ++ r :: g :: b :: l) with ((pre ++ [r; g; b]) ++ l)
      by (rewrite <- app_assoc; reflexivity).
    rewrite (IH (S a) (pre ++ [r; g; b]) l);
      [reflexivity | rewrite length_app; simpl; lia | simpl in Hl; lia | assumption].
Qed.

(** The same loop when [l] is too short for the [n] colours it is asked
    for: the first index past the end raises. *)
Lemma mapM_triples_short (n a : nat) (pre l : list Z) :
  length pre = (3 * a)%nat -> (length l < 3 * n)%nat -> Forall byte_range l ->
  mapM (fun i =>
          r <- index (pre ++ l) i ;;
          g <- index (pre ++ l) (i + 1) ;;
          b <- index (pre ++ l) (i + 2) ;;
          rgb_to_genesis_color r g b)
       (map (fun k => 0 + 3 * Z.of_nat k) (seq a n))
  = Raise IndexError.
Proof.
  revert a pre l. induction n as [|n IH]; intros a pre l Hpre Hl Hb; [lia|].
  cbn [seq map mapM].
  destruct l as [|r [|g [|b l]]].
  - rewrite index_past_end; [reflexivity | rewrite length_app; cbn [length]; lia].
  - replace (0 + 3 * Z.of_nat a) with (Z.of_nat (length pre)) by lia.
    rewrite index_app_at. cbn [bind].
    rewrite index_past_end; [reflexivity | rewrite length_app; cbn [length]; lia].
  - replace (0 + 3 * Z.of_nat a) with (Z.of_nat (length pre)) by lia.
    rewrite index_app_at. cbn [bind].
    replace (pre ++ [r; g]) with ((pre ++ [r]) ++ [g]) at 1
      by (rewrite <- app_assoc; reflexivity).
    replace (Z.of_nat (length pre) + 1) with (Z.of_nat (length (pre ++ [r])))
      by (rewrite length_app; cbn [length]; lia).
    rewrite index_app_at. cbn [bind].
    rewrite index_past_end; [reflexivity | rewrite !length_app; cbn [length]; lia].
  - inversion Hb as [|? ? Hr Hb1]; subst. inversion Hb1 as [|? ? Hg Hb2]; subst.
    inversion Hb2 as [|? ? Hbb Hb3]; subst.
    replace (0 + 3 * Z.of_nat a) with (Z.of_nat (length pre)) by lia.
    rewrite index_app_at. cbn [bind].
    replace (pre ++ r :: g :: b :: l) with ((pre ++ [r]) ++ g :: b :: l) at 1
      by (rewrite <- app_assoc; reflexivity).
    replace (Z.of_nat (length pre) + 1) with (Z.of_nat (length (pre ++ [r])))
      by (rewrite length_app; cbn [length]; lia).
    rewrite index_app_at. cbn [bind].
    replace (pre ++ r :: g :: b :: l) with ((pre ++ [r; g]) ++ b :: l) at 1
      by (rewrite <- app_assoc; reflexivity).
    replace (Z.of_nat (length pre) + 2) with (Z.of_nat (length (pre ++ [r; g])))
      by (rewrite length_app; cbn [length]; lia).
    rewrite index_app_at. cbn [bind].
    destruct (rgb_to_genesis_color_exact r g b Hr Hg Hbb) as [E _]. rewrite E.
    cbn [bind].
    replace (pre ++ r :: g :: b :: l) with ((pre ++ [r; g; b]) ++ l)
      by (rewrite <- app_assoc; reflexivity).
    rewrite (IH (S a) (pre ++ [r; g; b]) l);
      [reflexivity | rewrite length_app; cbn [length]; lia | simpl in Hl; lia | assumption].
Qed.

Lemma length_triples (l : list Z) (n : nat) :
  length l = (3 * n)%nat -> length (triples l) = n.
Proof.
  revert l. induction n as [|n IH]; intros l Hl.
  - destruct l; [reflexivity | simpl in Hl; lia].
  - destruct l as [|r [|g [|b l]]]; try (simpl in Hl; lia).
    cbn [triples length]. f_equal. apply IH. simpl in Hl. lia.
Qed.

Lemma triples_color9 (l : list Z) :
  Forall byte_range l -> Forall color9 (map encode_exact (triples l)).
Proof.
  revert l. fix IH 1. intros [|r [|g [|b l]]] Hb; try (constructor; fail).
  inversion Hb as [|? ? Hr Hb1]; subst. inversion Hb1 as [|? ? Hg Hb2]; subst.
  inversion Hb2 as [|? ? Hbb Hb3]; subst.
  cbn [triples map]. constructor.
  - apply (rgb_to_genesis_color_exact r g b); assumption.
  - apply IH, Hb3.
Qed.

Lemma pad_palette_full (fuel : nat) (p : list Z) :
  length p = 16%nat -> pad_palette fuel p = p.
Proof.
  intros Hp. destruct fuel; [reflexivity|].
  cbn [pad_palette]. rewrite Hp. reflexivity.
Qed.

(** When Pillow hands over at least 48 palette bytes the builder returns
    sixteen Color9 entries and its own padding loop adds nothing. *)
Lemma palette_of_colors_full (palette_colors : list Z) :
  length palette_colors = 48%nat -> Forall byte_range palette_colors ->
  palette_of_colors palette_colors = Ok (map encode_exact (triples palette_colors)) /\
  length (map encode_exact (triples palette_colors)) = 16%nat /\
  Forall color9 (map encode_exact (triples palette_colors)).
Proof.
  intros Hl Hb. unfold palette_of_colors.
  change (range_step 0 48 3) with (map (fun k => 0 + 3 * Z.of_nat k) (seq 0 16)).
  pose proof (mapM_triples 16 0 [] palette_colors eq_refl Hl Hb) as M.
  cbn [app] in M. rewrite M. clear M.
  assert (L : length (map encode_exact (triples palette_colors)) = 16%nat).
  { rewrite length_map. apply length_triples. rewrite Hl. reflexivity. }
  cbn [bind]. rewrite pad_palette_full by exact L.
  split; [reflexivity|]. split; [exact L | apply triples_color9, Hb].
Qed.

(** C7 (the code against its own padding loop). Whenever the palette that
    Pillow returns for the quantized image has fewer than 48 entries -- the
    case the loop [while len(genesis_palette) < 16] was written for --
    [create_genesis_palette] raises [IndexError] in the [for] loop before
    it reaches the padding, so no 16-entry zero-padded palette is
    produced. *)
Theorem create_genesis_palette_short_raises
  (RGBImage PImage : Type) (quantize : RGBImage -> PImage)
  (getpalette : PImage -> list Z) (image : RGBImage) :
  (length (getpalette (quantize image)) < 48)%nat ->
  Forall byte_range (getpalette (quantize image)) ->
  create_genesis_palette RGBImage PImage quantize getpalette image
  = Raise IndexError.
Proof.
  intros Hl Hb. unfold create_genesis_palette.
  rewrite slice_all by lia.
  unfold palette_of_colors.
  change (range_step 0 48 3) with (map (fun k => 0 + 3 * Z.of_nat k) (seq 0 16)).
  pose proof (mapM_triples_short 16 0 [] (getpalette (quantize image)) eq_refl)
    as M.
  cbn [app] in M. rewrite M; [reflexivity | lia | exact Hb].
Qed.

Lemma create_genesis_palette_short_raises_witness :
  ((length [255; 0; 0] < 48)%nat /\ Forall byte_range [255; 0; 0]) /\
  create_genesis_palette unit unit (fun im => im) (fun _ => [255; 0; 0]) tt
  = Raise IndexError.
Proof.
  assert (H : (length [255; 0; 0] < 48)%nat /\ Forall byte_range [255; 0; 0]).
  { split; [simpl; lia|]. repeat constructor; unfold byte_range; lia. }
  split; [exact H|].
  apply (create_genesis_palette_short_raises unit unit (fun im => im)
           (fun _ => [255; 0; 0]) tt); apply H.
Defined.

(** ** Ranges and loops that cannot raise *)

Lemma range_below (n : Z) : range n = below (Z.to_nat n).
Proof.
  unfold range, range_step, below.
  replace ((n - 0 + 1 - 1) / 1) with n by (rewrite Z.div_1_r; lia).
  apply map_ext. intros k. lia.
Qed.

Lemma in_range (x n : Z) : In x (range n) -> 0 <= x < n.
Proof.
  rewrite range_below. unfold below. intros H.
  apply in_map_iff in H as (k & <- & Hk). apply in_seq in Hk. lia.
Qed.

Lemma in_range_down (x n : Z) : In x (range_down n) -> 0 <= x < n.
Proof. unfold range_down. intros H. apply in_rev in H. apply in_range, H. Qed.

Lemma length_range (n : Z) : length (range n) = Z.to_nat n.
Proof. rewrite range_below. unfold below. rewrite length_map, length_seq. reflexivity. Qed.

Lemma length_range_down (n : Z) : length (range_down n) = Z.to_nat n.
Proof. unfold range_down. rewrite length_rev. apply length_range. Qed.

Lemma concatM_Ok {A B : Type} (f : A -> result (list B)) (g : A -> list B)
      (xs : list A) :
  (forall x, In x xs -> f x = Ok (g x)) ->
  concatM f xs = Ok (concat (map g xs)).
Proof.
  intros H. unfold concatM.
  rewrite (mapM_ext f (fun x => Ok (g x))) by exact H.
  rewrite mapM_Ok. reflexivity.
Qed.

Lemma length_concat_le {A B : Type} (f : A -> list B) (xs : list A) (n : nat) :
  (forall x, In x xs -> (length (f x) <= n)%nat) ->
  (length (concat (map f xs)) <= n * length xs)%nat.
Proof.
  induction xs as [|x xs IH]; intros H; [simpl; lia|].
  cbn [map concat length]. rewrite length_app.
  specialize (H x (or_introl eq_refl)) as Hx.
  specialize (IH (fun y Hy => H y (or_intror Hy))). lia.
Qed.

Lemma length_concat_eq {A B : Type} (f : A -> list B) (xs : list A) (n : nat) :
  (forall x, In x xs -> length (f x) = n) ->
  length (concat (map f xs)) = (n * length xs)%nat.
Proof.
  induction xs as [|x xs IH]; intros H; [simpl; lia|].
  cbn [map concat length]. rewrite length_app.
  rewrite (H x (or_introl eq_refl)).
  rewrite (IH (fun y Hy => H y (or_intror Hy))). lia.
Qed.

(** ** [struct.pack] *)

Lemma pack_uint_ok (n : nat) (v : Z) :
  0 <= v < 2 ^ (8 * Z.of_nat n) -> pack_uint n v = Ok (le_bytes n v).
Proof.
  intros Hv. unfold pack_uint.
  destruct (Z.leb_spec 0 v); [|lia].
  destruct (Z.ltb_spec v (2 ^ (8 * Z.of_nat n))); [|lia]. reflexivity.
Qed.

Lemma length_le_bytes (n : nat) (v : Z) : length (le_bytes n v) = n.
Proof. unfold le_bytes. rewrite length_map, length_seq. reflexivity. Qed.

(** ** BitmapWriter: the color table *)

Lemma genesis_to_rgb_bytes (color : Z) :
  let '(r, g, b) := genesis_to_rgb color in
  byte_range r /\ byte_range g /\ byte_range b /\
  Z.min r 255 = r /\ Z.min g 255 = g /\ Z.min b 255 = b.
Proof.
  rewrite genesis_to_rgb_mod.
  pose proof (Z.mod_pos_bound color 512 ltac:(lia)) as Hm.
  destruct (genesis_to_rgb_fields (color mod 512) ltac:(lia)) as (E & Hr & Hg & Hb).
  rewrite E. unfold byte_range. lia.
Qed.

Lemma color_entry_packed (color : Z) :
  (let rgb := genesis_to_rgb color in
   let '(r, g, b) := rgb in
   struct_pack [fmt_B; fmt_B; fmt_B; fmt_x] [Z.min b 255; Z.min g 255; Z.min r 255])
  = Ok (color_entry color).
Proof.
  unfold color_entry. cbv zeta.
  pose proof (genesis_to_rgb_bytes color) as H.
  destruct (genesis_to_rgb color) as [[r g] b].
  destruct H as (Hr & Hg & Hb & Mr & Mg & Mb).
  rewrite Mr, Mg, Mb. cbn [struct_pack].
  unfold byte_range in *. rewrite !pack_uint_byte by lia. reflexivity.
Qed.

Lemma length_color_entry (color : Z) : length (color_entry color) = 4%nat.
Proof. unfold color_entry. destruct (genesis_to_rgb color) as [[r g] b]. reflexivity. Qed.

Lemma color_table_of_entries (palette : list Z) :
  color_table_of palette = Ok (color_entries palette).
Proof.
  unfold color_table_of, color_entries.
  rewrite (concatM_Ok _ color_entry) by (intros c _; apply color_entry_packed).
  reflexivity.
Qed.

Lemma length_color_entries (palette : list Z) :
  (length palette <= 16)%nat -> length (color_entries palette) = 64%nat.
Proof.
  intros Hp. unfold color_entries. cbv zeta.
  rewrite length_app, repeat_length.
  rewrite (length_concat_eq color_entry palette 4)
    by (intros c _; apply length_color_entry).
  lia.
Qed.

(** ** BitmapWriter: the pixel rows *)

Lemma unpack_pixels_app (a b : list Z) :
  unpack_pixels (a ++ b) = unpack_pixels a ++ unpack_pixels b.
Proof. unfold unpack_pixels. apply flat_map_app. Qed.

Lemma unpack_pixels_concat {A : Type} (f : A -> list Z) (xs : list A) :
  concat (map (fun x => unpack_pixels (f x)) xs) = unpack_pixels (concat (map f xs)).
Proof.
  induction xs as [|x xs IH]; [reflexivity|].
  cbn [map concat]. rewrite unpack_pixels_app, IH. reflexivity.
Qed.

Lemma pair_up_unpack (bs : list Z) : pair_up (unpack_pixels bs) = map repack bs.
Proof.
  induction bs as [|b bs IH]; [reflexivity|].
  cbn [unpack_pixels flat_map app pair_up map]. f_equal. exact IH.
Qed.

Lemma length_unpack_pixels (bs : list Z) :
  length (unpack_pixels bs) = (2 * length bs)%nat.
Proof.
  induction bs as [|b bs IH]; [reflexivity|].
  cbn [unpack_pixels flat_map app length]. fold (unpack_pixels bs). lia.
Qed.

Lemma pack_pixels_unpack (bs : list Z) :
  pack_pixels (unpack_pixels bs) = Ok (map repack bs).
Proof.
  unfold pack_pixels. rewrite length_unpack_pixels.
  assert (R : range_step 0 (Z.of_nat (2 * length bs)) 2
              = map (fun k => 0 + 2 * Z.of_nat k) (seq 0 (length bs))).
  { unfold range_step. f_equal. f_equal.
    replace (Z.of_nat (2 * length bs) - 0 + 2 - 1) with (1 + Z.of_nat (length bs) * 2) by lia.
    rewrite Z.div_add by lia. change (1 / 2) with 0. lia. }
  rewrite R.
  pose proof (mapM_pairs (length bs) 0 [] (unpack_pixels bs) eq_refl
                (length_unpack_pixels bs)) as M.
  cbn [app] in M. rewrite M, pair_up_unpack. reflexivity.
Qed.

Lemma repack_byte (b : Z) : byte_range b -> repack b = b.
Proof.
  intros Hb. apply Z.eqb_eq.
  apply (forallb_below (fun x => repack x =? x) 256);
    [vm_compute; reflexivity | unfold byte_range in Hb; lia].
Qed.

(** One output row never raises once the global [tile_data] is bound. *)
Lemma bmp_row_ok (tile_data : list Z) (width_tiles ty y : Z) :
  bmp_row (Some tile_data) width_tiles ty y
  = Ok (padded_row tile_data width_tiles ty y).
Proof.
  unfold bmp_row, padded_row.
  rewrite (concatM_Ok _ (fun tx =>
             unpack_pixels
               (slice tile_data ((ty * width_tiles + tx) * 32 + y * 4)
                      ((ty * width_tiles + tx) * 32 + y * 4 + 4))))
    by (intros; reflexivity).
  cbn [bind].
  rewrite (unpack_pixels_concat
             (fun tx => slice tile_data ((ty * width_tiles + tx) * 32 + y * 4)
                              ((ty * width_tiles + tx) * 32 + y * 4 + 4))).
  fold (row_bytes tile_data width_tiles ty y).
  rewrite pack_pixels_unpack. reflexivity.
Qed.

Lemma struct_pack_headers (width_tiles height_tiles : Z) :
  header_fits width_tiles height_tiles ->
  (headers <-
     struct_pack [fmt_H; fmt_L; fmt_H; fmt_H; fmt_L]
       [0x4D42; 54 + 64 + (width_tiles * 8 * (height_tiles * 8) / 2); 0; 0; 54 + 64] ;;
   info <-
     struct_pack [fmt_L; fmt_L; fmt_L; fmt_H; fmt_H; fmt_L; fmt_L; fmt_L; fmt_L;
                  fmt_L; fmt_L]
       [40; width_tiles * 8; height_tiles * 8; 1; 4; 0; 0; 2835; 2835; 16; 16] ;;
   Ok (headers ++ info))
  = Ok (bmp_headers width_tiles height_tiles).
Proof.
  intros (Hw & Hh & Hwp & Hhp & Hsize).
  assert (E : width_tiles * 8 * (height_tiles * 8) / 2 = 32 * width_tiles * height_tiles).
  { replace (width_tiles * 8 * (height_tiles * 8))
      with (32 * width_tiles * height_tiles * 2) by lia.
    apply Z.div_mul. lia. }
  assert (0 <= 32 * width_tiles * height_tiles) by nia.
  cbn [struct_pack].
  rewrite (pack_uint_ok 4 (54 + 64 + _)) by (rewrite E; change (2 ^ (8 * Z.of_nat 4)) with (2 ^ 32); lia).
  rewrite (pack_uint_ok 4 (width_tiles * 8)) by (change (2 ^ (8 * Z.of_nat 4)) with (2 ^ 32); lia).
  rewrite (pack_uint_ok 4 (height_tiles * 8)) by (change (2 ^ (8 * Z.of_nat 4)) with (2 ^ 32); lia).
  rewrite !pack_uint_ok
    by (first [ change (2 ^ (8 * Z.of_nat 4)) with 4294967296
              | change (2 ^ (8 * Z.of_nat 2)) with 65536 ]; lia).
  reflexivity.
Qed.

Lemma length_bmp_headers (width_tiles height_tiles : Z) :
  length (bmp_headers width_tiles height_tiles) = 54%nat.
Proof.
  unfold bmp_headers. repeat rewrite ?length_app, ?length_le_bytes. reflexivity.
Qed.

(** With the global bound and dimensions that fit the headers,
    [create_bmp] returns, whatever the palette and the tile bytes are. *)
Lemma create_bmp_ok (palette tiles tile_data : list Z) (width_tiles height_tiles : Z) :
  header_fits width_tiles height_tiles ->
  create_bmp (Some tile_data) palette tiles width_tiles height_tiles
  = Ok (bmp_headers width_tiles height_tiles ++ color_entries palette
        ++ pixel_rows tile_data width_tiles height_tiles).
Proof.
  intros Hfit. unfold create_bmp. cbv zeta.
  pose proof (struct_pack_headers width_tiles height_tiles Hfit) as Hh.
  destruct (struct_pack [fmt_H; fmt_L; fmt_H; fmt_H; fmt_L] _) as [h1|e];
    [|discriminate Hh].
  cbn [bind] in Hh |- *.
  destruct (struct_pack _ [40; _; _; 1; 4; 0; 0; 2835; 2835; 16; 16]) as [h2|e];
    [|discriminate Hh].
  cbn [bind] in Hh |- *. injection Hh as Hh. rewrite Hh.
  rewrite color_table_of_entries. cbn [bind].
  rewrite (concatM_Ok _ (fun ty =>
             concat (map (fun y => padded_row tile_data width_tiles ty y)
                         (range_down 8)))).
  - reflexivity.
  - intros ty _. apply concatM_Ok. intros y _. apply bmp_row_ok.
Qed.

Lemma length_row_bytes_le (tile_data : list Z) (width_tiles ty y : Z) :
  0 <= width_tiles -> 0 <= ty -> 0 <= y ->
  Z.of_nat (length (row_bytes tile_data width_tiles ty y)) <= 4 * width_tiles.
Proof.
  intros Hw Hty Hy. unfold row_bytes.
  pose proof (length_concat_le
    (fun tx => slice tile_data ((ty * width_tiles + tx) * 32 + y * 4)
                     ((ty * width_tiles + tx) * 32 + y * 4 + 4))
    (range width_tiles) 4) as L.
  rewrite length_range in L.
  assert (length (concat (map (fun tx =>
            slice tile_data ((ty * width_tiles + tx) * 32 + y * 4)
                  ((ty * width_tiles + tx) * 32 + y * 4 + 4)) (range width_tiles)))
          <= 4 * Z.to_nat width_tiles)%nat; [|lia].
  apply L. intros tx Htx. apply in_range in Htx.
  pose proof (length_slice_le tile_data ((ty * width_tiles + tx) * 32 + y * 4)
                ((ty * width_tiles + tx) * 32 + y * 4 + 4)) as S.
  assert (0 <= ty * width_tiles) by nia.
  lia.
Qed.

Lemma length_padded_row_le (tile_data : list Z) (width_tiles ty y : Z) :
  0 <= width_tiles -> 0 <= ty -> 0 <= y ->
  Z.of_nat (length (padded_row tile_data width_tiles ty y)) <= 4 * width_tiles.
Proof.
  intros Hw Hty Hy.
  pose proof (length_row_bytes_le tile_data width_tiles ty y Hw Hty Hy) as L.
  unfold padded_row. cbv zeta.
  rewrite length_app, repeat_length, length_map.
  set (k := Z.of_nat (length (row_bytes tile_data width_tiles ty y))) in *.
  pose proof (Z.mod_pos_bound (- k) 4 ltac:(lia)) as B.
  pose proof (Z.div_mod (- k) 4 ltac:(lia)) as D.
  rewrite Nat2Z.inj_add, Z2Nat.id by lia. lia.
Qed.

Lemma length_pixel_rows_le (tile_data : list Z) (width_tiles height_tiles : Z) :
  0 <= width_tiles -> 0 <= height_tiles ->
  Z.of_nat (length (pixel_rows tile_data width_tiles height_tiles))
  <= 32 * width_tiles * height_tiles.
Proof.
  intros Hw Hh. unfold pixel_rows.
  pose proof (length_concat_le
    (fun ty => concat (map (fun y => padded_row tile_data width_tiles ty y)
                           (range_down 8)))
    (range_down height_tiles) (Z.to_nat (32 * width_tiles))) as L.
  rewrite length_range_down in L.
  match type of L with _ -> (?a <= _)%nat =>
    assert (a <= Z.to_nat (32 * width_tiles) * Z.to_nat height_tiles)%nat as L'
  end; [|nia].
  apply L. intros ty Hty. apply in_range_down in Hty.
  pose proof (length_concat_le
    (fun y => padded_row tile_data width_tiles ty y) (range_down 8)
    (Z.to_nat (4 * width_tiles))) as L2.
  rewrite length_range_down in L2.
  match type of L2 with _ -> (?a <= _)%nat =>
    assert (a <= Z.to_nat (4 * width_tiles) * Z.to_nat 8)%nat as L2'
  end; [|lia].
  apply L2. intros y Hy. apply in_range_down in Hy.
  pose proof (length_padded_row_le tile_data width_tiles ty y Hw ltac:(lia) ltac:(lia)).
  lia.
Qed.

Lemma length_row_bytes_full (tile_data : list Z) (width_tiles height_tiles ty y : Z) :
  32 * width_tiles * height_tiles <= Z.of_nat (length tile_data) ->
  0 <= width_tiles -> 0 <= ty < height_tiles -> 0 <= y < 8 ->
  length (row_bytes tile_data width_tiles ty y) = (4 * Z.to_nat width_tiles)%nat.
Proof.
  intros Hlen Hw Hty Hy. unfold row_bytes.
  rewrite <- (length_range width_tiles).
  apply length_concat_eq. intros tx Htx. apply in_range in Htx.
  rewrite length_slice_full; [lia | nia | nia].
Qed.

Lemma length_padded_row_full (tile_data : list Z) (width_tiles height_tiles ty y : Z) :
  32 * width_tiles * height_tiles <= Z.of_nat (length tile_data) ->
  0 <= width_tiles -> 0 <= ty < height_tiles -> 0 <= y < 8 ->
  length (padded_row tile_data width_tiles ty y) = (4 * Z.to_nat width_tiles)%nat.
Proof.
  intros Hlen Hw Hty Hy. unfold padded_row. cbv zeta.
  rewrite length_app, repeat_length, length_map.
  rewrite (length_row_bytes_full tile_data width_tiles height_tiles ty y) by assumption.
  replace (- Z.of_nat (4 * Z.to_nat width_tiles)) with ((- width_tiles) * 4) by lia.
  rewrite Z.mod_mul by lia. simpl. lia.
Qed.

(** With every tile present the pixel data has the size the header
    announces. *)
Lemma length_pixel_rows_full (tile_data : list Z) (width_tiles height_tiles : Z) :
  32 * width_tiles * height_tiles <= Z.of_nat (length tile_data) ->
  0 <= width_tiles -> 0 <= height_tiles ->
  Z.of_nat (length (pixel_rows tile_data width_tiles height_tiles))
  = 32 * width_tiles * height_tiles.
Proof.
  intros Hlen Hw Hh. unfold pixel_rows.
  rewrite (length_concat_eq _ _ (32 * Z.to_nat width_tiles)).
  - rewrite length_range_down. nia.
  - intros ty Hty. apply in_range_down in Hty.
    rewrite (length_concat_eq _ _ (4 * Z.to_nat width_tiles)).
    + rewrite length_range_down. change (Z.to_nat 8) with 8%nat. lia.
    + intros y Hy. apply in_range_down in Hy.
      apply (length_padded_row_full tile_data width_tiles height_tiles); assumption.
Qed.

Lemma read_le_4 (v : Z) (rest : list Z) :
  0 <= v < 2 ^ 32 -> read_le 4 (le_bytes 4 v ++ rest) 0 = v.
Proof.
  intros Hv. unfold read_le, le_bytes.
  cbn [seq map app skipn firstn fold_right].
  change 255 with (Z.ones 8). rewrite !Z.land_ones by lia.
  rewrite !Z.shiftr_div_pow2 by lia.
  change (8 * Z.of_nat 0) with 0. change (8 * Z.of_nat 1) with 8.
  change (8 * Z.of_nat 2) with 16. change (8 * Z.of_nat 3) with 24.
  change (2 ^ 0) with 1. change (2 ^ 8) with 256.
  change (2 ^ 16) with (256 * 256). change (2 ^ 24) with (256 * 256 * 256).
  change (2 ^ 32) with 4294967296 in Hv.
  rewrite Z.div_1_r, <- !Z.div_div by lia.
  pose proof (Z.div_mod v 256 ltac:(lia)).
  pose proof (Z.div_mod (v / 256) 256 ltac:(lia)).
  pose proof (Z.div_mod (v / 256 / 256) 256 ltac:(lia)).
  pose proof (Z.mod_pos_bound v 256 ltac:(lia)).
  pose proof (Z.mod_pos_bound (v / 256) 256 ltac:(lia)).
  pose proof (Z.mod_pos_bound (v / 256 / 256) 256 ltac:(lia)).
  assert (0 <= v / 256 / 256 / 256 < 256).
  { split; [repeat apply Z.div_pos; lia|].
    repeat apply Z.div_lt_upper_bound; lia. }
  rewrite (Z.mod_small (v / 256 / 256 / 256)) by assumption.
  lia.
Qed.

Lemma size_field (width_tiles height_tiles : Z) (rest : list Z) :
  header_fits width_tiles height_tiles ->
  read_le 4 (bmp_headers width_tiles height_tiles ++ rest) 2
  = 118 + 32 * width_tiles * height_tiles.
Proof.
  intros (Hw & Hh & Hwp & Hhp & Hsize).
  assert (E : width_tiles * 8 * (height_tiles * 8) / 2 = 32 * width_tiles * height_tiles).
  { replace (width_tiles * 8 * (height_tiles * 8))
      with (32 * width_tiles * height_tiles * 2) by lia.
    apply Z.div_mul. lia. }
  assert (0 <= 32 * width_tiles * height_tiles) by nia.
  unfold bmp_headers. rewrite E.
  change (le_bytes 2 19778) with [66; 77].
  rewrite <- !app_assoc.
  change (read_le 4 ([66; 77] ++ ?l) 2) with (read_le 4 l 0).
  unfold read_le at 1. cbn [app skipn].
  apply read_le_4. lia.
Qed.

(** C9, as the code has it. A tile byte list shorter than
    [width_tiles * height_tiles * 32] raises nothing in the writer: with
    grid dimensions that fit the header fields it returns a file -- the
    54-byte header, still announcing [118 + 32 * width_tiles * height_tiles]
    bytes, the color table, and pixel data of at most
    [32 * width_tiles * height_tiles] bytes built from whatever the slices
    of the list yield. *)
Theorem short_tile_data_is_written (palette tile_data : list Z)
        (width_tiles height_tiles : Z) :
  header_fits width_tiles height_tiles ->
  Z.of_nat (length tile_data) < width_tiles * height_tiles * 32 ->
  exists file pixel_data,
    create_bmp (Some tile_data) palette tile_data width_tiles height_tiles = Ok file /\
    file = bmp_headers width_tiles height_tiles ++ color_entries palette ++ pixel_data /\
    pixel_data = pixel_rows tile_data width_tiles height_tiles /\
    read_le 4 file 2 = 118 + 32 * width_tiles * height_tiles /\
    Z.of_nat (length pixel_data) <= 32 * width_tiles * height_tiles.
Proof.
  intros Hfit Hshort.
  exists (bmp_headers width_tiles height_tiles ++ color_entries palette
          ++ pixel_rows tile_data width_tiles height_tiles).
  exists (pixel_rows tile_data width_tiles height_tiles).
  split; [apply create_bmp_ok, Hfit|].
  split; [reflexivity|]. split; [reflexivity|].
  split; [apply size_field, Hfit|].
  destruct Hfit as (Hw & Hh & _). apply length_pixel_rows_le; assumption.
Qed.

Lemma header_fits_1_1 : header_fits 1 1.
Proof. unfold header_fits. change (2 ^ 32) with 4294967296. lia. Qed.

Lemma short_tile_data_is_written_witness :
  (header_fits 1 1 /\ Z.of_nat (length [0x12; 0x34]) < 1 * 1 * 32) /\
  exists file pixel_data,
    create_bmp (Some [0x12; 0x34]) [] [0x12; 0x34] 1 1 = Ok file /\
    file = bmp_headers 1 1 ++ color_entries [] ++ pixel_data /\
    pixel_data = pixel_rows [0x12; 0x34] 1 1 /\
    read_le 4 file 2 = 118 + 32 * 1 * 1 /\
    Z.of_nat (length pixel_data) <= 32 * 1 * 1.
Proof.
  assert (H : header_fits 1 1 /\ Z.of_nat (length [0x12; 0x34]) < 1 * 1 * 32).
  { split; [exact header_fits_1_1 | simpl; lia]. }
  split; [exact H|].
  apply (short_tile_data_is_written [] [0x12; 0x34] 1 1); apply H.
Defined.

(** C9, as the specification states it, fails: with no tile bytes at all
    and a 1 x 1 grid the writer returns a 118-byte file (header and color
    table, no pixel data) instead of failing. *)
Lemma no_insufficient_data_error :
  Z.of_nat (length (@nil Z)) < 1 * 1 * 32 /\
  exists file,
    create_bmp (Some []) [] [] 1 1 = Ok file /\ length file = 118%nat.
Proof.
  split; [simpl; lia|].
  eexists. split; [vm_compute; reflexivity | reflexivity].
Qed.

(** C6. Reconstructing one tile (8 x 8 pixels) with a 16-entry palette
    writes a file of exactly 54 + 64 + 32 = 150 bytes whose header records
    the signature BM, file size 150, pixel-data offset 118, width and
    height 8, 1 plane, 4 bits per pixel, no compression and 16 colors used
    and important. *)
Theorem bmp_one_tile (palette tiles tile_data : list Z) :
  length palette = 16%nat -> (32 <= length tile_data)%nat ->
  exists file,
    create_bmp (Some tile_data) palette tiles 1 1 = Ok file /\
    length file = 150%nat /\
    read_le 2 file 0 = 0x4D42 /\
    read_le 4 file 2 = 150 /\
    read_le 4 file 10 = 118 /\
    read_le 4 file 14 = 40 /\
    read_le 4 file 18 = 8 /\
    read_le 4 file 22 = 8 /\
    read_le 2 file 26 = 1 /\
    read_le 2 file 28 = 4 /\
    read_le 4 file 30 = 0 /\
    read_le 4 file 46 = 16 /\
    read_le 4 file 50 = 16.
Proof.
  intros Hp Ht.
  exists (bmp_headers 1 1 ++ color_entries palette ++ pixel_rows tile_data 1 1).
  split; [apply create_bmp_ok, header_fits_1_1|].
  split.
  - rewrite !length_app, length_bmp_headers, length_color_entries by lia.
    pose proof (length_pixel_rows_full tile_data 1 1) as L. lia.
  - assert (E : bmp_headers 1 1 =
      [66; 77; 150; 0; 0; 0; 0; 0; 0; 0; 118; 0; 0; 0;
       40; 0; 0; 0; 8; 0; 0; 0; 8; 0; 0; 0; 1; 0; 4; 0; 0; 0; 0; 0;
       0; 0; 0; 0; 19; 11; 0; 0; 19; 11; 0; 0; 16; 0; 0; 0; 16; 0; 0; 0])
      by (vm_compute; reflexivity).
    rewrite E. repeat split; reflexivity.
Qed.

Lemma bmp_one_tile_witness :
  let palette := repeat 0x1FF 16 in
  let tile_data := repeat 0x21 32 in
  (length palette = 16%nat /\ (32 <= length tile_data)%nat) /\
  exists file,
    create_bmp (Some tile_data) palette tile_data 1 1 = Ok file /\
    length file = 150%nat /\
    read_le 2 file 0 = 0x4D42 /\
    read_le 4 file 2 = 150 /\
    read_le 4 file 10 = 118 /\
    read_le 4 file 14 = 40 /\
    read_le 4 file 18 = 8 /\
    read_le 4 file 22 = 8 /\
    read_le 2 file 26 = 1 /\
    read_le 2 file 28 = 4 /\
    read_le 4 file 30 = 0 /\
    read_le 4 file 46 = 16 /\
    read_le 4 file 50 = 16.
Proof.
  assert (H : length (repeat 0x1FF 16) = 16%nat /\ (32 <= length (repeat 0x21 32))%nat).
  { split; [reflexivity | simpl; lia]. }
  split; [exact H|].
  apply (bmp_one_tile (repeat 0x1FF 16) (repeat 0x21 32) (repeat 0x21 32)); apply H.
Defined.

(** ** AssemblyParser: locating a label *)

Lemma strip_prefix_app (lit rest : list ascii) :
  strip_prefix lit (lit ++ rest) = Some rest.
Proof.
  induction lit as [|a lit IH]; [destruct rest; reflexivity|].
  cbn [app strip_prefix]. rewrite Ascii.eqb_refl. exact IH.
Qed.

Lemma strip_prefix_Some (lit s rest : list ascii) :
  strip_prefix lit s = Some rest -> s = lit ++ rest.
Proof.
  revert s. induction lit as [|a lit IH]; intros s H.
  - destruct s; injection H as <-; reflexivity.
  - destruct s as [|b s]; [discriminate|].
    cbn [strip_prefix] in H.
    destruct (Ascii.eqb_spec a b) as [<-|]; [|discriminate].
    cbn [app]. f_equal. apply IH, H.
Qed.

Lemma find_literal_Some (lit s rest : list ascii) :
  find_literal lit s = Some rest -> exists pre, s = pre ++ lit ++ rest.
Proof.
  induction s as [|c s IH]; intros H.
  - cbn [find_literal] in H.
    destruct (strip_prefix lit []) eqn:E; [|discriminate].
    injection H as <-. exists []. exact (strip_prefix_Some _ _ _ E).
  - cbn [find_literal] in H.
    destruct (strip_prefix lit (c :: s)) eqn:E.
    + injection H as <-. exists []. exact (strip_prefix_Some _ _ _ E).
    + destruct (IH H) as [pre ->]. exists (c :: pre). reflexivity.
Qed.

Lemma occurs_spec (lit s : list ascii) :
  occurs lit s = true <-> exists pre post, s = pre ++ lit ++ post.
Proof.
  unfold occurs. rewrite existsb_exists. split.
  - intros (k & _ & Hk).
    destruct (list_eq_dec ascii_dec (firstn (length lit) (skipn k s)) lit) as [E|];
      [|discriminate].
    exists (firstn k s), (skipn (length lit) (skipn k s)).
    rewrite <- E at 1. rewrite firstn_skipn, firstn_skipn. reflexivity.
  - intros (pre & post & ->). exists (length pre). split.
    + apply in_seq. rewrite !length_app. lia.
    + rewrite skipn_app, Nat.sub_diag, skipn_all.
      cbn [app skipn]. rewrite firstn_app, Nat.sub_diag, firstn_all.
      cbn [firstn]. rewrite app_nil_r.
      destruct (list_eq_dec ascii_dec lit lit); [reflexivity | contradiction].
Qed.

Lemma find_literal_absent (lit s : list ascii) :
  occurs lit s = false -> find_literal lit s = None.
Proof.
  intros H. destruct (find_literal lit s) as [rest|] eqn:E; [|reflexivity].
  apply find_literal_Some in E as [pre ->].
  assert (occurs lit (pre ++ lit ++ rest) = true) as T
    by (apply occurs_spec; eauto).
  congruence.
Qed.

Lemma findall_section_absent (label content : list ascii) :
  occurs label content = false -> findall_section label content = [].
Proof.
  intros H. unfold findall_section. cbn [findall_section_fuel].
  rewrite find_literal_absent by exact H. reflexivity.
Qed.

(** C8. A text with no [palette_data:] label (here: whether or not it has
    a [tile_data:] section) parses to an empty palette, nothing is raised,
    and the writer run on the parse result emits a color table of 16
    zeroed 4-byte entries: the file is the 54-byte header, 64 zero bytes,
    then the pixel data. *)
Theorem missing_palette_gives_black_table (content : list ascii)
        (width_tiles height_tiles : Z) :
  occurs (str "palette_data:") content = false ->
  header_fits width_tiles height_tiles ->
  fst (parse_genesis_assembly content) = [] /\
  color_table_of [] = Ok (repeat 0 64) /\
  exists headers pixel_data,
    length headers = 54%nat /\
    convert content width_tiles height_tiles
    = Ok (headers ++ repeat 0 64 ++ pixel_data).
Proof.
  intros Habsent Hfit.
  assert (P : fst (parse_genesis_assembly content) = []).
  { unfold parse_genesis_assembly. cbn [fst].
    rewrite findall_section_absent by exact Habsent. reflexivity. }
  split; [exact P|]. split; [reflexivity|].
  unfold convert.
  destruct (parse_genesis_assembly content) as [palette tile_data].
  cbn [fst] in P. subst palette.
  exists (bmp_headers width_tiles height_tiles),
         (pixel_rows tile_data width_tiles height_tiles).
  split; [apply length_bmp_headers|].
  rewrite create_bmp_ok by exact Hfit. reflexivity.
Qed.

Lemma missing_palette_gives_black_table_witness :
  let content := str "tile_data:
    dc.b $12, $34" in
  (occurs (str "palette_data:") content = false /\ header_fits 1 1) /\
  fst (parse_genesis_assembly content) = [] /\
  color_table_of [] = Ok (repeat 0 64) /\
  exists headers pixel_data,
    length headers = 54%nat /\
    convert content 1 1 = Ok (headers ++ repeat 0 64 ++ pixel_data).
Proof.
  split; [split; [vm_compute; reflexivity | exact header_fits_1_1]|].
  apply (missing_palette_gives_black_table _ 1 1);
    [vm_compute; reflexivity | exact header_fits_1_1].
Defined.

(** ** Tiler: padding the canvas *)

Lemma skipn_repeat {A : Type} (x : A) (k n : nat) :
  skipn k (repeat x n) = repeat x (n - k).
Proof.
  revert k. induction n as [|n IH]; intros [|k]; try reflexivity.
  cbn [repeat skipn]. apply IH.
Qed.

Lemma paste_rows_new (src : list (list Z)) (w nw nh : nat) :
  Forall (fun row => length row = w) src -> (w <= nw)%nat ->
  (length src <= nh)%nat ->
  paste_rows (repeat (repeat 0 nw) nh) src = pad_rows src w nw nh.
Proof.
  intros Hrows Hw. revert nh. unfold pad_rows.
  induction Hrows as [|row src Hrow Hsrc IH]; intros nh Hh.
  - destruct nh; cbn [paste_rows map app length]; rewrite ?Nat.sub_0_r; reflexivity.
  - destruct nh as [|nh]; [simpl in Hh; lia|].
    cbn [repeat paste_rows map app length].
    rewrite repeat_length, Hrow, skipn_repeat, firstn_all2 by lia.
    f_equal. apply IH. simpl in Hh. lia.
Qed.

Lemma nth_pad_rows (rows : list (list Z)) (w nw nh px py : nat) :
  Forall (fun row => length row = w) rows ->
  (px < nw)%nat -> (py < nh)%nat -> (length rows <= nh)%nat ->
  nth px (nth py (pad_rows rows w nw nh) []) 0
  = if (px <? w)%nat && (py <? length rows)%nat
    then nth px (nth py rows []) 0 else 0.
Proof.
  intros Hrows Hpx Hpy Hlen. unfold pad_rows.
  destruct (Nat.ltb_spec py (length rows)) as [Hin|Hout].
  - rewrite app_nth1 by (rewrite length_map; exact Hin).
    rewrite (nth_indep _ [] ([] ++ repeat 0 (nw - w))) by (rewrite length_map; exact Hin).
    rewrite (map_nth (fun row => row ++ repeat 0 (nw - w))).
    assert (length (nth py rows []) = w) as Hrow.
    { rewrite Forall_forall in Hrows. apply Hrows, nth_In, Hin. }
    destruct (Nat.ltb_spec px w).
    + rewrite app_nth1 by lia. reflexivity.
    + rewrite app_nth2 by lia. cbn [andb]. apply nth_repeat.
  - rewrite andb_false_r.
    rewrite app_nth2 by (rewrite length_map; exact Hout).
    rewrite nth_repeat_lt by (rewrite length_map; lia).
    apply nth_repeat.
Qed.

Lemma length_pad_rows (rows : list (list Z)) (w nw nh : nat) :
  (length rows <= nh)%nat -> length (pad_rows rows w nw nh) = nh.
Proof.
  intros H. unfold pad_rows. rewrite length_app, length_map, repeat_length. lia.
Qed.

Lemma pad_rows_widths (rows : list (list Z)) (w nw nh : nat) :
  Forall (fun row => length row = w) rows -> (w <= nw)%nat ->
  Forall (fun row => length row = nw) (pad_rows rows w nw nh).
Proof.
  intros Hrows Hw. unfold pad_rows. apply Forall_app. split.
  - apply Forall_map. eapply Forall_impl; [|exact Hrows].
    intros row Hrow. cbv beta in *. rewrite length_app, repeat_length. lia.
  - apply Forall_forall. intros row Hin. apply repeat_spec in Hin. subst.
    apply repeat_length.
Qed.

(** ** Tiler: grids *)

Lemma index_nth {A : Type} (l : list A) (i : Z) (d : A) :
  0 <= i < Z.of_nat (length l) -> index l i = Ok (nth (Z.to_nat i) l d).
Proof.
  intros Hi. unfold index. destruct (Z.ltb_spec i 0); [lia|]. cbv zeta.
  destruct (Z.ltb_spec i 0); [lia|].
  rewrite (nth_error_nth' l d) by lia. reflexivity.
Qed.

Lemma nth_error_below (n k : nat) :
  (k < n)%nat -> nth_error (below n) k = Some (Z.of_nat k).
Proof.
  intros Hk. unfold below.
  rewrite (nth_error_nth' _ 0) by (rewrite length_map, length_seq; exact Hk).
  f_equal. change 0 with (Z.of_nat 0) at 1. rewrite map_nth, seq_nth by exact Hk.
  reflexivity.
Qed.

Lemma nth_error_concat_uniform {B : Type} (ls : list (list B)) (n k j : nat) :
  (forall l, In l ls -> length l = n) -> (j < n)%nat ->
  nth_error (concat ls) (k * n + j)
  = match nth_error ls k with
    | Some l => nth_error l j
    | None => None
    end.
Proof.
  intros Hlen Hj. revert k. induction ls as [|l ls IH]; intros k.
  - destruct k; cbn [concat nth_error]; destruct (_ + _)%nat; reflexivity.
  - cbn [concat]. destruct k as [|k].
    + cbn [Nat.mul Nat.add nth_error].
      apply nth_error_app1. rewrite (Hlen l) by (left; reflexivity). exact Hj.
    + rewrite nth_error_app2 by (rewrite (Hlen l) by (left; reflexivity); lia).
      rewrite (Hlen l) by (left; reflexivity).
      replace (S k * n + j - n)%nat with (k * n + j)%nat by lia.
      cbn [nth_error]. apply IH. intros l' Hl'. apply Hlen. right. exact Hl'.
Qed.

(** Element [(i, j)] of a row-major grid built by two nested loops. *)
Lemma nth_error_grid {B : Type} (f : Z -> Z -> B) (m n i j : Z) :
  0 <= i < m -> 0 <= j < n ->
  nth_error (concat (map (fun a => map (f a) (range n)) (range m)))
            (Z.to_nat (i * n + j)) = Some (f i j).
Proof.
  intros Hi Hj.
  replace (Z.to_nat (i * n + j)) with (Z.to_nat i * Z.to_nat n + Z.to_nat j)%nat by nia.
  rewrite (nth_error_concat_uniform _ (Z.to_nat n)).
  - rewrite (range_below m), nth_error_map, nth_error_below by lia.
    cbn [option_map]. rewrite (range_below n), nth_error_map, nth_error_below by lia.
    cbn [option_map]. rewrite !Z2Nat.id by lia. reflexivity.
  - intros l Hl. apply in_map_iff in Hl as (a & <- & _).
    rewrite length_map. apply length_range.
  - lia.
Qed.

Lemma length_grid {B : Type} (f : Z -> Z -> B) (m n : Z) :
  0 <= m -> 0 <= n ->
  Z.of_nat (length (concat (map (fun a => map (f a) (range n)) (range m)))) = m * n.
Proof.
  intros Hm Hn.
  rewrite (length_concat_eq _ _ (Z.to_nat n))
    by (intros; rewrite length_map; apply length_range).
  rewrite length_range. nia.
Qed.

Lemma extract_tile_ok (img_array : list (list Z)) (nw nh : nat) (tile_y tile_x : Z) :
  length img_array = nh -> Forall (fun row => length row = nw) img_array ->
  0 <= tile_y -> tile_y * 8 + 8 <= Z.of_nat nh ->
  0 <= tile_x -> tile_x * 8 + 8 <= Z.of_nat nw ->
  extract_tile img_array tile_y tile_x = Ok (tile_at img_array tile_y tile_x).
Proof.
  intros Hh Hrows Hy0 Hy1 Hx0 Hx1. unfold extract_tile, tile_at.
  apply concatM_Ok. intros y Hy. apply in_range in Hy.
  rewrite <- mapM_Ok. apply mapM_ext. intros x Hx. apply in_range in Hx.
  unfold array_get.
  rewrite (index_nth img_array _ []) by lia. cbn [bind].
  assert (length (nth (Z.to_nat (tile_y * 8 + y)) img_array []) = nw) as Hrow.
  { rewrite Forall_forall in Hrows. apply Hrows, nth_In. lia. }
  rewrite (index_nth _ _ 0) by lia. reflexivity.
Qed.

Lemma length_tile_at (img_array : list (list Z)) (tile_y tile_x : Z) :
  length (tile_at img_array tile_y tile_x) = 64%nat.
Proof.
  unfold tile_at.
  pose proof (length_grid
    (fun y x => Z.land (nth (Z.to_nat (tile_x * 8 + x))
                            (nth (Z.to_nat (tile_y * 8 + y)) img_array []) 0) 0xF)
    8 8 ltac:(lia) ltac:(lia)) as L.
  cbv beta in L. lia.
Qed.

Lemma nth_error_tile_at (img_array : list (list Z)) (tile_y tile_x y x : Z) :
  0 <= y < 8 -> 0 <= x < 8 ->
  nth_error (tile_at img_array tile_y tile_x) (Z.to_nat (y * 8 + x))
  = Some (Z.land (nth (Z.to_nat (tile_x * 8 + x))
                      (nth (Z.to_nat (tile_y * 8 + y)) img_array []) 0) 0xF).
Proof.
  intros Hy Hx. unfold tile_at.
  apply (nth_error_grid
    (fun y x => Z.land (nth (Z.to_nat (tile_x * 8 + x))
                            (nth (Z.to_nat (tile_y * 8 + y)) img_array []) 0) 0xF)
    8 8 y x Hy Hx).
Qed.

(** The canvas the tiler reads: the image itself when both sides are
    multiples of 8, otherwise the image pasted on a zero-filled canvas. *)
Lemma canvas_spec (im : Image) (W H : Z) :
  im_size im = (W, H) -> well_formed im -> 0 <= W -> 0 <= H ->
  let new_width := (W + 7) / 8 * 8 in
  let new_height := (H + 7) / 8 * 8 in
  let canvas :=
    im_rows (if negb (new_width =? W) || negb (new_height =? H)
             then paste (Image_new (new_width, new_height) 0) im
             else im) in
  length canvas = Z.to_nat new_height /\
  Forall (fun row => length row = Z.to_nat new_width) canvas /\
  forall px py, 0 <= px < new_width -> 0 <= py < new_height ->
    Z.land (nth (Z.to_nat px) (nth (Z.to_nat py) canvas []) 0) 0xF
    = stored_index im px py.
Proof.
  intros Hsize [Hrows Hcols] HW HH new_width new_height.
  rewrite Hsize in Hrows, Hcols. cbn [fst snd] in Hrows, Hcols.
  assert (Hnw : W <= new_width < W + 8).
  { subst new_width. pose proof (Z.div_mod (W + 7) 8 ltac:(lia)).
    pose proof (Z.mod_pos_bound (W + 7) 8 ltac:(lia)). lia. }
  assert (Hnh : H <= new_height < H + 8).
  { subst new_height. pose proof (Z.div_mod (H + 7) 8 ltac:(lia)).
    pose proof (Z.mod_pos_bound (H + 7) 8 ltac:(lia)). lia. }
  assert (Hcols' : Forall (fun row => length row = Z.to_nat W) (im_rows im)).
  { eapply Forall_impl; [|exact Hcols]. intros row Hrow. cbv beta in *. lia. }
  destruct (negb (new_width =? W) || negb (new_height =? H)) eqn:Hcond; cbv zeta.
  - cbn [paste im_rows Image_new fst snd].
    rewrite (paste_rows_new _ (Z.to_nat W)) by (try assumption; lia).
    split; [apply length_pad_rows; lia|].
    split; [apply pad_rows_widths; [assumption | lia]|].
    intros px py Hpx Hpy.
    rewrite nth_pad_rows by (try assumption; lia).
    unfold stored_index, pixel_at. rewrite Hsize. cbn [fst snd].
    destruct (Z.ltb_spec px W), (Nat.ltb_spec (Z.to_nat px) (Z.to_nat W)); try lia;
      destruct (Z.ltb_spec py H), (Nat.ltb_spec (Z.to_nat py) (length (im_rows im)));
      try lia; reflexivity.
  - apply orb_false_elim in Hcond as [Ew Eh].
    apply negb_false_iff, Z.eqb_eq in Ew, Eh.
    split; [lia|]. split.
    + eapply Forall_impl; [|exact Hcols']. intros row Hrow. cbv beta in *. lia.
    + intros px py Hpx Hpy. unfold stored_index, pixel_at.
      rewrite Hsize. cbn [fst snd].
      destruct (Z.ltb_spec px W); [|lia]. destruct (Z.ltb_spec py H); [|lia].
      reflexivity.
Qed.

(** C4. For an indexed pixel buffer of width [W >= 1] and height
    [H >= 1] the tiler returns [ceil(W/8) * ceil(H/8)] tiles in row-major
    order over the tile grid (tile [(tx, ty)] is number [ty * tiles_x + tx]);
    each tile has 64 entries, local pixel [(x, y)] at offset [y * 8 + x];
    the entry is the palette index of image pixel [(tx*8 + x, ty*8 + y)]
    (its low four bits, which is the index itself for indices in 0..15)
    and 0 for every pixel outside the original [W x H] region. *)
Theorem tiler_layout (im : Image) (W H : Z) :
  im_size im = (W, H) -> well_formed im -> 1 <= W -> 1 <= H ->
  let tiles_x := (W + 7) / 8 in
  let tiles_y := (H + 7) / 8 in
  8 * (tiles_x - 1) < W <= 8 * tiles_x /\
  8 * (tiles_y - 1) < H <= 8 * tiles_y /\
  exists tiles,
    image_to_tiles im = Ok (tiles, tiles_x, tiles_y) /\
    Z.of_nat (length tiles) = tiles_x * tiles_y /\
    (forall ty tx, 0 <= ty < tiles_y -> 0 <= tx < tiles_x ->
       exists tile,
         nth_error tiles (Z.to_nat (ty * tiles_x + tx)) = Some tile /\
         length tile = 64%nat /\
         forall y x, 0 <= y < 8 -> 0 <= x < 8 ->
           nth_error tile (Z.to_nat (y * 8 + x))
           = Some (stored_index im (tx * 8 + x) (ty * 8 + y))) /\
    (forall px py, W <= px \/ H <= py -> stored_index im px py = 0) /\
    (forall px py, 0 <= px < W -> 0 <= py < H -> nibble (pixel_at im px py) ->
       stored_index im px py = pixel_at im px py).
Proof.
  intros Hsize Hwf HW HH tiles_x tiles_y.
  assert (Bx : 8 * (tiles_x - 1) < W <= 8 * tiles_x).
  { subst tiles_x. pose proof (Z.div_mod (W + 7) 8 ltac:(lia)).
    pose proof (Z.mod_pos_bound (W + 7) 8 ltac:(lia)). lia. }
  assert (By : 8 * (tiles_y - 1) < H <= 8 * tiles_y).
  { subst tiles_y. pose proof (Z.div_mod (H + 7) 8 ltac:(lia)).
    pose proof (Z.mod_pos_bound (H + 7) 8 ltac:(lia)). lia. }
  split; [exact Bx|]. split; [exact By|].
  destruct (canvas_spec im W H Hsize Hwf ltac:(lia) ltac:(lia)) as (Hrows & Hcols & Hpix).
  fold tiles_x tiles_y in Hrows, Hcols, Hpix.
  set (canvas := im_rows _) in Hrows, Hcols, Hpix.
  exists (concat (map (fun ty => map (tile_at canvas ty) (range tiles_x))
                      (range tiles_y))).
  split; [|split; [|split; [|split]]].
  - unfold image_to_tiles. rewrite Hsize.
    fold tiles_x tiles_y. fold canvas.
    rewrite !Z.div_mul by lia.
    rewrite (concatM_Ok _ (fun ty => map (tile_at canvas ty) (range tiles_x))).
    + reflexivity.
    + intros ty Hty. apply in_range in Hty.
      rewrite <- mapM_Ok. apply mapM_ext. intros tx Htx. apply in_range in Htx.
      apply (extract_tile_ok canvas (Z.to_nat (tiles_x * 8)) (Z.to_nat (tiles_y * 8)));
        try assumption; lia.
  - rewrite (length_grid (tile_at canvas)) by lia. lia.
  - intros ty tx Hty Htx.
    exists (tile_at canvas ty tx).
    split; [apply (nth_error_grid (tile_at canvas)); assumption|].
    split; [apply length_tile_at|].
    intros y x Hy Hx. rewrite nth_error_tile_at by assumption.
    f_equal. apply Hpix; lia.
  - intros px py Hout. unfold stored_index. rewrite Hsize. cbn [fst snd].
    destruct (Z.ltb_spec px W), (Z.ltb_spec py H); try reflexivity; lia.
  - intros px py Hpx Hpy Hn. unfold stored_index. rewrite Hsize. cbn [fst snd].
    destruct (Z.ltb_spec px W); [|lia]. destruct (Z.ltb_spec py H); [|lia].
    cbn [andb]. unfold nibble in Hn.
    change 0xF with (Z.ones 4). rewrite Z.land_ones by lia.
    apply Z.mod_small. change (2 ^ 4) with 16. lia.
Qed.

Lemma tiler_layout_witness :
  let im := mkImage (10, 9) (repeat (repeat 5 10) 9) in
  (im_size im = (10, 9) /\ well_formed im /\ 1 <= 10 /\ 1 <= 9) /\
  8 * ((10 + 7) / 8 - 1) < 10 <= 8 * ((10 + 7) / 8) /\
  8 * ((9 + 7) / 8 - 1) < 9 <= 8 * ((9 + 7) / 8) /\
  exists tiles,
    image_to_tiles im = Ok (tiles, (10 + 7) / 8, (9 + 7) / 8) /\
    Z.of_nat (length tiles) = (10 + 7) / 8 * ((9 + 7) / 8) /\
    (forall ty tx, 0 <= ty < (9 + 7) / 8 -> 0 <= tx < (10 + 7) / 8 ->
       exists tile,
         nth_error tiles (Z.to_nat (ty * ((10 + 7) / 8) + tx)) = Some tile /\
         length tile = 64%nat /\
         forall y x, 0 <= y < 8 -> 0 <= x < 8 ->
           nth_error tile (Z.to_nat (y * 8 + x))
           = Some (stored_index im (tx * 8 + x) (ty * 8 + y))) /\
    (forall px py, 10 <= px \/ 9 <= py -> stored_index im px py = 0) /\
    (forall px py, 0 <= px < 10 -> 0 <= py < 9 -> nibble (pixel_at im px py) ->
       stored_index im px py = pixel_at im px py).
Proof.
  assert (H : im_size (mkImage (10, 9) (repeat (repeat 5 10) 9)) = (10, 9) /\
              well_formed (mkImage (10, 9) (repeat (repeat 5 10) 9)) /\
              1 <= 10 /\ 1 <= 9).
  { split; [reflexivity|]. split; [|lia].
    split; [reflexivity|]. cbn [im_rows im_size fst].
    apply Forall_forall. intros row Hrow. apply repeat_spec in Hrow. subst.
    reflexivity. }
  split; [exact H|].
  apply (tiler_layout (mkImage (10, 9) (repeat (repeat 5 10) 9)) 10 9); apply H.
Defined.

(** ** AssemblyParser: passing over text that cannot match *)

Lemma find_literal_unfold (lit s : list ascii) :
  find_literal lit s
  = match strip_prefix lit s with
    | Some rest => Some rest
    | None => match s with
              | [] => None
              | _ :: s' => find_literal lit s'
              end
    end.
Proof. destruct s; reflexivity. Qed.

Lemma find_literal_here (lit rest : list ascii) :
  find_literal lit (lit ++ rest) = Some rest.
Proof. rewrite find_literal_unfold, strip_prefix_app. reflexivity. Qed.

Lemma clash_strip (lit t v : list ascii) :
  clash lit t = true -> strip_prefix lit (t ++ v) = None.
Proof.
  revert t. induction lit as [|a lit IH]; intros t H; [discriminate|].
  destruct t as [|b t]; [discriminate|].
  cbn [clash] in H. cbn [app strip_prefix].
  destruct (Ascii.eqb a b); [apply IH, H | reflexivity].
Qed.

Lemma find_literal_skip (lit seg v : list ascii) :
  no_start lit seg = true -> find_literal lit (seg ++ v) = find_literal lit v.
Proof.
  induction seg as [|c seg IH]; intros H; [reflexivity|].
  cbn [no_start] in H. apply andb_prop in H as [Hc Hs].
  rewrite find_literal_unfold, (clash_strip _ _ _ Hc).
  cbn [app]. apply IH, Hs.
Qed.

Lemma clash_app (lit t u : list ascii) :
  clash lit t = true -> clash lit (t ++ u) = true.
Proof.
  revert t. induction lit as [|a lit IH]; intros t H; [discriminate|].
  destruct t as [|b t]; [discriminate|].
  cbn [clash app] in *. destruct (Ascii.eqb a b); [apply IH, H | reflexivity].
Qed.

Lemma no_start_app (lit a b : list ascii) :
  no_start lit a = true -> no_start lit b = true -> no_start lit (a ++ b) = true.
Proof.
  intros Ha Hb. induction a as [|c a IH]; [exact Hb|].
  cbn [no_start] in Ha. apply andb_prop in Ha as [Hc Ha].
  change ((c :: a) ++ b) with (c :: (a ++ b)). cbn [no_start].
  rewrite (IH Ha), andb_true_r.
  change (c :: a ++ b) with ((c :: a) ++ b). apply clash_app, Hc.
Qed.

Lemma no_start_chars (a : ascii) (lit seg : list ascii) :
  forallb (not_char a) seg = true -> no_start (a :: lit) seg = true.
Proof.
  induction seg as [|c seg IH]; intros H; [reflexivity|].
  cbn [forallb] in H. apply andb_prop in H as [Hc Hs].
  cbn [no_start clash]. unfold not_char in Hc.
  rewrite Ascii.eqb_sym. destruct (Ascii.eqb c a); [discriminate|].
  cbn [andb]. apply IH, Hs.
Qed.

Lemma skip_spaces_app (u v : list ascii) (c : ascii) :
  forallb is_space u = true -> is_space c = false ->
  skip_spaces (u ++ c :: v) = c :: v.
Proof.
  intros Hu Hc. induction u as [|d u IH].
  - cbn [app skip_spaces]. rewrite Hc. reflexivity.
  - cbn [forallb] in Hu. apply andb_prop in Hu as [Hd Hu].
    cbn [app skip_spaces]. rewrite Hd. apply IH, Hu.
Qed.

Lemma lazy_to_boundary_nil : lazy_to_boundary [] = ([], []).
Proof. reflexivity. Qed.

Lemma lazy_to_boundary_cons (c : ascii) (s : list ascii) :
  lazy_to_boundary (c :: s)
  = if at_boundary (c :: s) then ([], c :: s)
    else let '(g, rest) := lazy_to_boundary s in (c :: g, rest).
Proof. reflexivity. Qed.

(** The lazy group runs through a segment whose line feeds are all
    followed by white space. *)
Lemma lazy_to_boundary_app (seg v : list ascii) :
  nl_ok seg = true ->
  lazy_to_boundary (seg ++ v)
  = (seg ++ fst (lazy_to_boundary v), snd (lazy_to_boundary v)).
Proof.
  induction seg as [|c seg IH]; intros H.
  - cbn [app]. destruct (lazy_to_boundary v); reflexivity.
  - cbn [nl_ok] in H. apply andb_prop in H as [Hc Hs].
    cbn [app]. rewrite lazy_to_boundary_cons.
    assert (B : at_boundary (c :: seg ++ v) = false).
    { unfold at_boundary. destruct (Ascii.eqb c nl).
      - destruct seg as [|d seg]; [discriminate|].
        cbn [app]. rewrite Hc. reflexivity.
      - destruct (seg ++ v); reflexivity. }
    rewrite B, (IH Hs). reflexivity.
Qed.

Lemma nl_ok_tail (c : ascii) (seg : list ascii) :
  nl_ok (c :: seg) = true -> nl_ok seg = true.
Proof. cbn [nl_ok]. intros H. apply andb_prop in H as [_ H]. exact H. Qed.

Lemma nl_ok_skip_spaces (s : list ascii) :
  nl_ok s = true -> nl_ok (skip_spaces s) = true.
Proof.
  induction s as [|c s IH]; intros H; [reflexivity|].
  cbn [skip_spaces]. destruct (is_space c); [apply IH, (nl_ok_tail c), H | exact H].
Qed.

Lemma nl_ok_app (a b : list ascii) :
  nl_ok a = true -> nl_ok b = true -> nl_ok (a ++ b) = true.
Proof.
  intros Ha Hb. induction a as [|c a IH]; [exact Hb|].
  cbn [nl_ok] in Ha. apply andb_prop in Ha as [Hc Ha].
  cbn [app nl_ok]. rewrite (IH Ha), andb_true_r.
  destruct (Ascii.eqb c nl); [|reflexivity].
  destruct a as [|d a]; [discriminate | exact Hc].
Qed.

Lemma nl_ok_chars (seg : list ascii) :
  forallb (not_char nl) seg = true -> nl_ok seg = true.
Proof.
  induction seg as [|c seg IH]; intros H; [reflexivity|].
  cbn [forallb] in H. apply andb_prop in H as [Hc Hs].
  cbn [nl_ok]. unfold not_char in Hc.
  destruct (Ascii.eqb c nl); [discriminate|]. apply IH, Hs.
Qed.

(** A group that runs to the end of the text. *)
Lemma lazy_to_boundary_all (seg : list ascii) :
  nl_ok seg = true -> lazy_to_boundary seg = (seg, []).
Proof.
  intros H. rewrite <- (app_nil_r seg) at 1.
  rewrite (lazy_to_boundary_app seg [] H). cbn [lazy_to_boundary at_boundary fst snd].
  rewrite app_nil_r. reflexivity.
Qed.

(** ** AssemblyParser: the hexadecimal literals *)

Lemma findall_hex_skip (lo hi : nat) (u v : list ascii) :
  findall_hex_from lo hi (length u) (u ++ v) = findall_hex_from lo hi 0 v.
Proof.
  induction u as [|c u IH]; [reflexivity|].
  destruct v as [|d v].
  - rewrite app_nil_r in *. cbn [length findall_hex_from]. exact IH.
  - cbn [length app findall_hex_from]. exact IH.
Qed.

Lemma findall_hex_pass (lo hi : nat) (u v : list ascii) :
  forallb (not_char "$") u = true ->
  findall_hex_from lo hi 0 (u ++ v) = findall_hex_from lo hi 0 v.
Proof.
  induction u as [|c u IH]; intros H; [reflexivity|].
  cbn [forallb] in H. apply andb_prop in H as [Hc Hu].
  cbn [app findall_hex_from]. unfold not_char in Hc.
  destruct (Ascii.eqb c "$"); [discriminate|]. apply IH, Hu.
Qed.

Lemma take_hex_exact (h v : list ascii) :
  forallb is_hex h = true -> take_hex (length h) (h ++ v) = h.
Proof.
  induction h as [|c h IH]; intros H.
  - destruct v; reflexivity.
  - cbn [forallb] in H. apply andb_prop in H as [Hc Hh].
    cbn [length app take_hex]. rewrite Hc, (IH Hh). reflexivity.
Qed.

Lemma findall_hex_token (lo hi : nat) (h v : list ascii) :
  (lo <= hi)%nat -> length h = hi -> forallb is_hex h = true ->
  findall_hex_from lo hi 0 ("$"%char :: h ++ v)
  = h :: findall_hex_from lo hi 0 v.
Proof.
  intros Hlo Hlen Hhex. subst hi.
  cbn [findall_hex_from]. rewrite Ascii.eqb_refl.
  rewrite (take_hex_exact h v Hhex). cbv zeta.
  destruct (Nat.leb_spec lo (length h)); [|lia].
  rewrite findall_hex_skip. reflexivity.
Qed.

Lemma findall_hex_no_dollar (lo hi : nat) (u : list ascii) :
  forallb (not_char "$") u = true -> findall_hex_from lo hi 0 u = [].
Proof.
  intros H. rewrite <- (app_nil_r u), (findall_hex_pass lo hi u [] H). reflexivity.
Qed.

Lemma tokenized_findall (lo hi : nat) (s : list ascii) (hs : list (list ascii)) :
  (lo <= hi)%nat -> tokenized hi s hs -> findall_hex lo hi s = hs.
Proof.
  intros Hlo T. unfold findall_hex. induction T as [u Hu | u h t hs Hu Hlen Hhex T IH].
  - apply findall_hex_no_dollar, Hu.
  - rewrite (findall_hex_pass lo hi u _ Hu).
    rewrite (findall_hex_token lo hi h t Hlo Hlen Hhex), IH. reflexivity.
Qed.

Lemma tokenized_prepend (hi : nat) (u s : list ascii) (hs : list (list ascii)) :
  forallb (not_char "$") u = true -> tokenized hi s hs -> tokenized hi (u ++ s) hs.
Proof.
  intros Hu T. destruct T as [u' Hu' | u' h t hs Hu' Hlen Hhex T].
  - apply tok_end. rewrite forallb_app, Hu, Hu'. reflexivity.
  - rewrite app_assoc. apply tok_cons; try assumption.
    rewrite forallb_app, Hu, Hu'. reflexivity.
Qed.

Lemma tokenized_app (hi : nat) (a b : list ascii) (ha hb : list (list ascii)) :
  tokenized hi a ha -> tokenized hi b hb -> tokenized hi (a ++ b) (ha ++ hb).
Proof.
  intros Ta Tb. induction Ta as [u Hu | u h t hs Hu Hlen Hhex T IH].
  - cbn [app]. apply tokenized_prepend; assumption.
  - rewrite <- app_assoc. cbn [app]. rewrite <- app_assoc.
    apply tok_cons; assumption.
Qed.

Lemma tokenized_one (hi : nat) (h : list ascii) :
  length h = hi -> forallb is_hex h = true ->
  tokenized hi ("$"%char :: h) [h].
Proof.
  intros Hlen Hhex.
  pose proof (tok_cons hi [] h [] [] eq_refl Hlen Hhex (tok_end hi [] eq_refl)) as T.
  cbn [app] in T. rewrite app_nil_r in T. exact T.
Qed.

(** A line body [$h0, $h1, ...] yields its literals in order. *)
Lemma tokenized_join (hi : nat) (sep : list ascii) (hs : list (list ascii)) :
  forallb (not_char "$") sep = true ->
  Forall (fun h => length h = hi /\ forallb is_hex h = true) hs ->
  tokenized hi (join sep (map (cons "$"%char) hs)) hs.
Proof.
  intros Hsep Hhs. induction Hhs as [|h hs [Hlen Hhex] Hhs IH].
  - apply tok_end. reflexivity.
  - destruct hs as [|h' hs'].
    + cbn [map join]. apply tokenized_one; assumption.
    + change (join sep (map (cons "$"%char) (h :: h' :: hs')))
        with (("$"%char :: h) ++ sep ++ join sep (map (cons "$"%char) (h' :: hs'))).
      apply (tokenized_app hi _ _ [h] (h' :: hs')).
      * apply tokenized_one; assumption.
      * apply tokenized_prepend; [exact Hsep | exact IH].
Qed.

(** ["$" + ", $".join(hs)] is [", ".join("$" + h for h in hs)]. *)
Lemma join_dollar (sep : list ascii) (hs : list (list ascii)) :
  hs <> [] ->
  "$"%char :: join (sep ++ ["$"%char]) hs = join sep (map (cons "$"%char) hs).
Proof.
  intros Hne. induction hs as [|h hs IH]; [contradiction|].
  destruct hs as [|h' hs']; [reflexivity|].
  change (join (sep ++ ["$"%char]) (h :: h' :: hs'))
    with (h ++ (sep ++ ["$"%char]) ++ join (sep ++ ["$"%char]) (h' :: hs')).
  change (join sep (map (cons "$"%char) (h :: h' :: hs')))
    with (("$"%char :: h) ++ sep ++ join sep (map (cons "$"%char) (h' :: hs'))).
  rewrite <- IH by discriminate.
  cbn [app]. rewrite <- !app_assoc. reflexivity.
Qed.

Lemma forallb_join (p : ascii -> bool) (sep : list ascii) (parts : list (list ascii)) :
  forallb p sep = true -> Forall (fun x => forallb p x = true) parts ->
  forallb p (join sep parts) = true.
Proof.
  intros Hsep Hparts. induction Hparts as [|x parts Hx Hparts IH]; [reflexivity|].
  destruct parts as [|y parts]; [exact Hx|].
  change (join sep (x :: y :: parts)) with (x ++ sep ++ join sep (y :: parts)).
  rewrite !forallb_app, Hx, Hsep, IH. reflexivity.
Qed.

Lemma findall_hex_skip_spaces (lo hi : nat) (s : list ascii) :
  findall_hex lo hi (skip_spaces s) = findall_hex lo hi s.
Proof.
  unfold findall_hex. induction s as [|c s IH]; [reflexivity|].
  cbn [skip_spaces]. destruct (is_space c) eqn:Hc; [|reflexivity].
  rewrite IH. cbn [findall_hex_from].
  destruct (Ascii.eqb_spec c "$") as [->|]; [discriminate Hc | reflexivity].
Qed.

(** ** AssemblyFormatter: the characters it emits *)

Lemma forallb_impl (p q : ascii -> bool) (l : list ascii) :
  (forall c, p c = true -> q c = true) ->
  forallb p l = true -> forallb q l = true.
Proof.
  intros Hpq H. rewrite forallb_forall in *. intros c Hc. apply Hpq, H, Hc.
Qed.

(** A class that excludes [a] only holds for characters other than [a]. *)
Lemma class_not_char (p : ascii -> bool) (a c : ascii) :
  p a = false -> p c = true -> not_char a c = true.
Proof.
  intros Ha Hc. unfold not_char.
  destruct (Ascii.eqb_spec c a) as [->|]; [congruence | reflexivity].
Qed.

Lemma format_X_word (v : Z) :
  color9 v ->
  length (format_X 4 v) = 4%nat /\ forallb is_hex (format_X 4 v) = true /\
  int16 (format_X 4 v) = v.
Proof.
  intros Hv.
  assert (H : hex_format_ok 4 v = true).
  { apply (forallb_below (hex_format_ok 4) 512);
      [vm_compute; reflexivity | unfold color9 in Hv; lia]. }
  unfold hex_format_ok in H. cbv zeta in H.
  apply andb_prop in H as [H Hi]. apply andb_prop in H as [Hl Hh].
  apply Nat.eqb_eq in Hl. apply Z.eqb_eq in Hi. auto.
Qed.

Lemma format_X_byte (v : Z) :
  byte_range v ->
  length (format_X 2 v) = 2%nat /\ forallb is_hex (format_X 2 v) = true /\
  int16 (format_X 2 v) = v.
Proof.
  intros Hv.
  assert (H : hex_format_ok 2 v = true).
  { apply (forallb_below (hex_format_ok 2) 256);
      [vm_compute; reflexivity | unfold byte_range in Hv; lia]. }
  unfold hex_format_ok in H. cbv zeta in H.
  apply andb_prop in H as [H Hi]. apply andb_prop in H as [Hl Hh].
  apply Nat.eqb_eq in Hl. apply Z.eqb_eq in Hi. auto.
Qed.

Lemma format_X_words (vs : list Z) :
  Forall color9 vs ->
  Forall (fun h => length h = 4%nat /\ forallb is_hex h = true) (map (format_X 4) vs) /\
  map int16 (map (format_X 4) vs) = vs.
Proof.
  induction 1 as [|v vs Hv Hvs [IH1 IH2]]; [split; [constructor | reflexivity]|].
  destruct (format_X_word v Hv) as (Hl & Hh & Hi).
  cbn [map]. split; [constructor; auto | rewrite Hi, IH2; reflexivity].
Qed.

Lemma format_X_bytes (vs : list Z) :
  Forall byte_range vs ->
  Forall (fun h => length h = 2%nat /\ forallb is_hex h = true) (map (format_X 2) vs) /\
  map int16 (map (format_X 2) vs) = vs.
Proof.
  induction 1 as [|v vs Hv Hvs [IH1 IH2]]; [split; [constructor | reflexivity]|].
  destruct (format_X_byte v Hv) as (Hl & Hh & Hi).
  cbn [map]. split; [constructor; auto | rewrite Hi, IH2; reflexivity].
Qed.

Lemma dec_uint_chars (d : Decimal.uint) : forallb dec_char (dec_uint d) = true.
Proof. induction d; cbn [dec_uint forallb]; rewrite ?IHd; reflexivity. Qed.

Lemma format_int_chars (n : Z) : forallb dec_char (format_int n) = true.
Proof.
  unfold format_int. destruct (Z.to_int n); cbn [forallb];
    rewrite dec_uint_chars; reflexivity.
Qed.

Lemma format_int_not_char (a : ascii) (n : Z) :
  dec_char a = false -> forallb (not_char a) (format_int n) = true.
Proof.
  intros Ha. apply (forallb_impl dec_char); [|apply format_int_chars].
  intros c. apply class_not_char, Ha.
Qed.

(** The body of a data line: [$]-literals joined by [", "]. *)
Lemma body_chars (hi : nat) (hs : list (list ascii)) :
  Forall (fun h => length h = hi /\ forallb is_hex h = true) hs ->
  forallb body_char (join (str ", ") (map (cons "$"%char) hs)) = true.
Proof.
  intros Hhs. apply forallb_join; [reflexivity|].
  apply Forall_map. eapply Forall_impl; [|exact Hhs].
  intros h [_ Hh]. cbn [forallb]. apply andb_true_intro. split; [reflexivity|].
  apply (forallb_impl is_hex); [|exact Hh].
  intros c Hc. unfold body_char. rewrite Hc. reflexivity.
Qed.

Lemma body_not_char (a : ascii) (hi : nat) (hs : list (list ascii)) :
  body_char a = false ->
  Forall (fun h => length h = hi /\ forallb is_hex h = true) hs ->
  forallb (not_char a) (join (str ", ") (map (cons "$"%char) hs)) = true.
Proof.
  intros Ha Hhs. apply (forallb_impl body_char); [|apply (body_chars hi), Hhs].
  intros c. apply class_not_char, Ha.
Qed.

(** ** AssemblyFormatter: lines *)

Lemma join_cons (sep x : list ascii) (rest : list (list ascii)) :
  join sep (x :: rest) = x ++ concat (map (fun y => sep ++ y) rest).
Proof.
  revert x. induction rest as [|y rest IH]; intros x.
  - cbn [join map concat]. rewrite app_nil_r. reflexivity.
  - change (join sep (x :: y :: rest)) with (x ++ sep ++ join sep (y :: rest)).
    rewrite IH. cbn [map concat]. rewrite <- app_assoc. reflexivity.
Qed.

Lemma slice_map {A B : Type} (f : A -> B) (l : list A) (a b : Z) :
  slice (map f l) a b = map f (slice l a b).
Proof.
  unfold slice. rewrite length_map, skipn_map, firstn_map. reflexivity.
Qed.

Lemma In_slice {A : Type} (l : list A) (a b : Z) (x : A) :
  In x (slice l a b) -> In x l.
Proof.
  unfold slice. intros H.
  set (n := Z.to_nat _) in H. set (m := Z.to_nat _) in H.
  rewrite <- (firstn_skipn m l). apply in_or_app. right.
  rewrite <- (firstn_skipn n (skipn m l)). apply in_or_app. left. exact H.
Qed.

Lemma Forall_slice {A : Type} (P : A -> Prop) (l : list A) (a b : Z) :
  Forall P l -> Forall P (slice l a b).
Proof.
  intros H. rewrite Forall_forall in *. intros x Hx. apply H, (In_slice l a b), Hx.
Qed.

(** The lines of sixteen cover the list once, in order. *)
Lemma chunks_concat {A : Type} (l : list A) (n a : nat) :
  (length l <= 16 * (a + n))%nat ->
  concat (map (fun i => slice l i (i + 16))
              (map (fun k => 0 + 16 * Z.of_nat k) (seq a n)))
  = skipn (16 * a) l.
Proof.
  revert a. induction n as [|n IH]; intros a Hlen.
  - cbn [seq map concat]. rewrite skipn_all2 by lia. reflexivity.
  - cbn [seq map concat]. rewrite IH by lia.
    rewrite slice_nonneg by lia.
    replace (Z.to_nat (0 + 16 * Z.of_nat a)) with (16 * a)%nat by lia.
    replace (Z.to_nat (0 + 16 * Z.of_nat a + 16 - (0 + 16 * Z.of_nat a))) with 16%nat by lia.
    replace (16 * S a)%nat with (16 + 16 * a)%nat by lia.
    rewrite <- skipn_skipn. apply firstn_skipn.
Qed.

Lemma range_step_16 (len : nat) :
  range_step 0 (Z.of_nat len) 16
  = map (fun k => 0 + 16 * Z.of_nat k) (seq 0 (Z.to_nat ((Z.of_nat len + 15) / 16))).
Proof.
  unfold range_step.
  replace (Z.of_nat len - 0 + 16 - 1) with (Z.of_nat len + 15) by lia. reflexivity.
Qed.

Lemma chunks_cover {A : Type} (l : list A) :
  concat (map (fun i => slice l i (i + 16)) (range_step 0 (Z.of_nat (length l)) 16)) = l.
Proof.
  rewrite range_step_16.
  rewrite (chunks_concat l _ 0); [reflexivity|].
  pose proof (Z.div_mod (Z.of_nat (length l) + 15) 16 ltac:(lia)).
  pose proof (Z.mod_pos_bound (Z.of_nat (length l) + 15) 16 ltac:(lia)).
  assert (0 <= (Z.of_nat (length l) + 15) / 16) by (apply Z.div_pos; lia).
  lia.
Qed.

Lemma in_range_step_16 (len : nat) (i : Z) :
  In i (range_step 0 (Z.of_nat len) 16) -> 0 <= i < Z.of_nat len.
Proof.
  rewrite range_step_16. intros H.
  apply in_map_iff in H as (k & <- & Hk). apply in_seq in Hk.
  pose proof (Z.div_mod (Z.of_nat len + 15) 16 ltac:(lia)).
  pose proof (Z.mod_pos_bound (Z.of_nat len + 15) 16 ltac:(lia)).
  assert (0 <= (Z.of_nat len + 15) / 16) by (apply Z.div_pos; lia).
  lia.
Qed.

Lemma slice_nonempty {A : Type} (l : list A) (i : Z) :
  0 <= i < Z.of_nat (length l) -> slice l i (i + 16) <> [].
Proof.
  intros Hi E. apply (f_equal (@length A)) in E.
  rewrite slice_nonneg, length_firstn, length_skipn in E by lia.
  cbn [length] in E. lia.
Qed.

Lemma join_app (sep : list ascii) (xs ys : list (list ascii)) :
  xs <> [] ->
  join sep (xs ++ ys) = join sep xs ++ concat (map (fun y => sep ++ y) ys).
Proof.
  intros Hne. destruct xs as [|x xs]; [contradiction|].
  cbn [app]. rewrite !join_cons, map_app, concat_app, app_assoc. reflexivity.
Qed.

Lemma slices_16 {A : Type} (l : list A) :
  length l = 16%nat -> slice l 0 (0 + 8) ++ slice l 8 (8 + 8) = l.
Proof.
  intros Hl. rewrite !slice_nonneg by lia.
  replace (Z.to_nat (0 + 8 - 0)) with 8%nat by lia.
  replace (Z.to_nat (8 + 8 - 8)) with 8%nat by lia.
  replace (Z.to_nat 0) with 0%nat by lia.
  replace (Z.to_nat 8) with 8%nat by lia.
  rewrite (skipn_O l).
  rewrite (firstn_all2 (skipn 8 l)) by (rewrite length_skipn; lia).
  apply firstn_skipn.
Qed.

Lemma dollar_slice (f : Z -> list ascii) (l : list Z) (a b : Z) :
  slice (map (fun color => "$"%char :: f color) l) a b
  = map (cons "$"%char) (slice (map f l) a b).
Proof. rewrite !slice_map, map_map. reflexivity. Qed.

(** ** AssemblyFormatter: the tile block *)

Lemma byte_line_body (hs : list (list ascii)) :
  hs <> [] ->
  str "    dc.b $" ++ join (str ", $") hs
  = str "    dc.b " ++ join (str ", ") (map (cons "$"%char) hs).
Proof.
  intros Hne. rewrite <- (join_dollar (str ", ") hs Hne). reflexivity.
Qed.

Lemma tile_block_tokenized (hexb : list (list ascii)) (idxs : list Z) :
  Forall (fun h => length h = 2%nat /\ forallb is_hex h = true) hexb ->
  (forall i, In i idxs -> 0 <= i < Z.of_nat (length hexb)) ->
  tokenized 2
    (concat (map (fun y => [nl] ++ y)
       (map (fun i =>
               let line_data := slice hexb i (i + 16) in
               str "    dc.b $" ++ join (str ", $") line_data) idxs)))
    (concat (map (fun i => slice hexb i (i + 16)) idxs)).
Proof.
  intros Hhex Hin. induction idxs as [|i idxs IH].
  - apply tok_end. reflexivity.
  - cbn [map concat]. cbv zeta.
    rewrite byte_line_body by (apply slice_nonempty, Hin; left; reflexivity).
    apply tokenized_app.
    + rewrite app_assoc. apply tokenized_prepend; [reflexivity|].
      apply tokenized_join; [reflexivity | apply Forall_slice, Hhex].
    + apply IH. intros j Hj. apply Hin. right. exact Hj.
Qed.

Lemma tile_block_nl_ok (hexb : list (list ascii)) (idxs : list Z) :
  Forall (fun h => length h = 2%nat /\ forallb is_hex h = true) hexb ->
  (forall i, In i idxs -> 0 <= i < Z.of_nat (length hexb)) ->
  nl_ok
    (concat (map (fun y => [nl] ++ y)
       (map (fun i =>
               let line_data := slice hexb i (i + 16) in
               str "    dc.b $" ++ join (str ", $") line_data) idxs))) = true.
Proof.
  intros Hhex Hin. induction idxs as [|i idxs IH]; [reflexivity|].
  cbn [map concat]. cbv zeta.
  rewrite byte_line_body by (apply slice_nonempty, Hin; left; reflexivity).
  apply nl_ok_app; [|apply IH; intros j Hj; apply Hin; right; exact Hj].
  change ([nl] ++ str "    dc.b " ++ ?b) with (nl :: " "%char :: (str "   dc.b " ++ b)).
  cbn [nl_ok]. change (Ascii.eqb nl nl) with true. change (is_space " ") with true.
  cbn [andb]. change (Ascii.eqb " " nl) with false. cbn [andb].
  apply nl_ok_chars. rewrite forallb_app. apply andb_true_intro.
  split; [reflexivity|].
  apply (body_not_char nl 2); [reflexivity | apply Forall_slice, Hhex].
Qed.

Lemma findall_section_head (label content after : list ascii) :
  find_literal label content = Some after ->
  exists more,
    findall_section label content
    = fst (lazy_to_boundary (skip_spaces after)) :: more.
Proof.
  intros H. unfold findall_section. cbn [findall_section_fuel]. rewrite H.
  destruct (lazy_to_boundary (skip_spaces after)) as [g rest].
  eexists. reflexivity.
Qed.

Lemma lazy_blank_line (c : ascii) (rest : list ascii) :
  is_space c = false ->
  lazy_to_boundary (nl :: nl :: c :: rest) = ([nl], nl :: c :: rest).
Proof.
  intros Hc. rewrite lazy_to_boundary_cons.
  change (at_boundary (nl :: nl :: c :: rest)) with false. cbv iota.
  rewrite lazy_to_boundary_cons.
  assert (B : at_boundary (nl :: c :: rest) = true).
  { unfold at_boundary. rewrite Hc. reflexivity. }
  rewrite B. reflexivity.
Qed.

(** ** AssemblyFormatter / AssemblyParser *)

(** The document as one run of pieces: fixed text around the two
    palette line bodies, the three decimal numbers and the tile block. *)
Lemma format_output_shape (pal : list Z) (hexb : list (list ascii))
      (tx ty total : Z) :
  format_output (mkData pal hexb tx ty total)
  = (str "; Genesis Palette Data (16 colors)" ++ [nl])
    ++ str "palette_data:"
    ++ (nl :: str "    ")
    ++ "d"%char :: str "c.w "
    ++ join (str ", ") (slice (map (fun color => "$"%char :: format_X 4 color) pal) 0 (0 + 8))
    ++ (nl :: str "    dc.w ")
    ++ join (str ", ") (slice (map (fun color => "$"%char :: format_X 4 color) pal) 8 (8 + 8))
    ++ nl :: nl :: ";"%char :: (str " Genesis Tile Data" ++ nl :: str "; ")
    ++ format_int total ++ str " tiles (" ++ format_int tx ++ str "x"
    ++ format_int ty ++ (str ")" ++ [nl])
    ++ str "tile_data:"
    ++ concat (map (fun y => [nl] ++ y)
         (map (fun i =>
                 let line_data := slice hexb i (i + 16) in
                 str "    dc.b $" ++ join (str ", $") line_data)
              (range_step 0 (Z.of_nat (length hexb)) 16))).
Proof.
  unfold format_output.
  cbn [palette tile_data tiles_x tiles_y total_tiles].
  rewrite join_app by (intros E; apply (f_equal (@length _)) in E; discriminate E).
  change (range_step 0 16 8) with [0; 8].
  cbn [map app join].
  repeat (rewrite <- app_assoc || rewrite <- app_comm_cons).
  reflexivity.
Qed.

(** C2. For a palette of exactly 16 Color9 values and any sequence of
    tile bytes, parsing the document that [format_output] emits (whatever
    the tile counts written in its comment line) returns exactly that
    palette and exactly those bytes. *)
Theorem parse_format_output (pal bytes : list Z) (tx ty total : Z) :
  length pal = 16%nat -> Forall color9 pal -> Forall byte_range bytes ->
  parse_genesis_assembly
    (format_output (mkData pal (map (format_X 2) bytes) tx ty total))
  = (pal, bytes).
Proof.
  intros Hlen Hpal Hbytes.
  destruct (format_X_words pal Hpal) as [Hw Iw].
  destruct (format_X_bytes bytes Hbytes) as [Hb Ib].
  set (hexb := map (format_X 2) bytes) in *.
  rewrite format_output_shape, !dollar_slice.
  set (hexw := map (format_X 4) pal) in *.
  assert (Hw0 : Forall (fun h => length h = 4%nat /\ forallb is_hex h = true)
                       (slice hexw 0 (0 + 8))) by apply Forall_slice, Hw.
  assert (Hw1 : Forall (fun h => length h = 4%nat /\ forallb is_hex h = true)
                       (slice hexw 8 (8 + 8))) by apply Forall_slice, Hw.
  pose proof (tokenized_join 4 (str ", ") _ eq_refl Hw0) as T0.
  pose proof (tokenized_join 4 (str ", ") _ eq_refl Hw1) as T1.
  pose proof (fun a Ha => body_not_char a 4 _ Ha Hw0) as C0.
  pose proof (fun a Ha => body_not_char a 4 _ Ha Hw1) as C1.
  set (W0 := join (str ", ") (map (cons "$"%char) (slice hexw 0 (0 + 8)))) in *.
  set (W1 := join (str ", ") (map (cons "$"%char) (slice hexw 8 (8 + 8)))) in *.
  pose proof (tile_block_tokenized hexb _ Hb (in_range_step_16 (length hexb))) as TT.
  pose proof (tile_block_nl_ok hexb _ Hb (in_range_step_16 (length hexb))) as NT.
  rewrite chunks_cover in TT.
  set (T := concat _) in *.
  set (D1 := format_int total). set (D2 := format_int tx). set (D3 := format_int ty).
  assert (ND : forall n, forallb (not_char "t") (format_int n) = true)
    by (intros n; apply format_int_not_char; reflexivity).
  unfold parse_genesis_assembly.
  (* the palette section *)
  match goal with |- context [findall_section (str "palette_data:") ?doc] =>
    assert (FP : find_literal (str "palette_data:") doc
                 = Some ((nl :: str "    ")
                         ++ "d"%char :: (str "c.w " ++ W0 ++ (nl :: str "    dc.w ") ++ W1)
                         ++ nl :: nl :: ";"%char :: (str " Genesis Tile Data" ++ nl :: str "; ")
                         ++ D1 ++ str " tiles (" ++ D2 ++ str "x" ++ D3
                         ++ (str ")" ++ [nl]) ++ str "tile_data:" ++ T))
  end.
  { rewrite find_literal_skip by reflexivity.
    rewrite find_literal_here. f_equal. app_normalize. reflexivity. }
  destruct (findall_section_head _ _ _ FP) as [moreP EP]. rewrite EP. clear EP FP.
  rewrite skip_spaces_app by reflexivity.
  change ("d"%char :: (str "c.w " ++ W0 ++ (nl :: str "    dc.w ") ++ W1) ++ ?x)
    with ((str "dc.w " ++ W0 ++ (nl :: str "    dc.w ") ++ W1) ++ x).
  assert (NP : nl_ok (str "dc.w " ++ W0 ++ (nl :: str "    dc.w ") ++ W1) = true).
  { apply nl_ok_app; [reflexivity|].
    apply nl_ok_app; [apply nl_ok_chars, C0; reflexivity|].
    apply nl_ok_app; [reflexivity|].
    apply nl_ok_chars, C1; reflexivity. }
  rewrite (lazy_to_boundary_app _ _ NP), lazy_blank_line by reflexivity.
  cbn [fst].
  assert (TP : tokenized 4 ((str "dc.w " ++ W0 ++ (nl :: str "    dc.w ") ++ W1) ++ [nl])
                         (slice hexw 0 (0 + 8) ++ slice hexw 8 (8 + 8) ++ [])).
  { rewrite <- !app_assoc.
    apply tokenized_prepend; [reflexivity|].
    apply tokenized_app; [exact T0|].
    apply tokenized_prepend; [reflexivity|].
    apply tokenized_app; [exact T1|].
    apply tok_end. reflexivity. }
  rewrite app_nil_r, slices_16 in TP by (unfold hexw; rewrite length_map; exact Hlen).
  rewrite (tokenized_findall 3 4 _ _ ltac:(lia) TP), Iw.
  (* the tile section *)
  match goal with |- context [findall_section (str "tile_data:") ?doc] =>
    assert (FT : find_literal (str "tile_data:") doc = Some T)
  end.
  { match goal with |- find_literal _ ?doc = _ =>
      replace doc with
        (str "; Genesis Palette Data (16 colors)
palette_data:
    dc.w " ++ W0 ++ (nl :: str "    dc.w ") ++ W1
         ++ (nl :: nl :: str "; Genesis Tile Data" ++ nl :: str "; ")
         ++ D1 ++ str " tiles (" ++ D2 ++ str "x" ++ D3 ++ (str ")" ++ [nl])
         ++ str "tile_data:" ++ T)
        by (app_normalize; reflexivity)
    end.
    rewrite find_literal_skip by reflexivity.
    rewrite find_literal_skip by (apply no_start_chars, C0; reflexivity).
    rewrite find_literal_skip by reflexivity.
    rewrite find_literal_skip by (apply no_start_chars, C1; reflexivity).
    rewrite find_literal_skip by reflexivity.
    rewrite find_literal_skip by (apply no_start_chars, ND).
    rewrite find_literal_skip by reflexivity.
    rewrite find_literal_skip by (apply no_start_chars, ND).
    rewrite find_literal_skip by reflexivity.
    rewrite find_literal_skip by (apply no_start_chars, ND).
    rewrite find_literal_skip by reflexivity.
    apply find_literal_here. }
  destruct (findall_section_head _ _ _ FT) as [moreT ET]. rewrite ET. clear ET FT.
  rewrite (lazy_to_boundary_all _ (nl_ok_skip_spaces _ NT)). cbn [fst].
  rewrite findall_hex_skip_spaces.
  rewrite (tokenized_findall 2 2 _ _ ltac:(lia) TT), Ib.
  reflexivity.
Qed.

Lemma parse_format_output_witness :
  let pal := [0x007; 0x038; 0x1C0; 0x1FF; 0; 1; 2; 3; 4; 5; 6; 7; 8; 9; 10; 11] in
  let bytes := [0x00; 0x12; 0xAB; 0xFF; 0x7F; 1; 2; 3; 4; 5; 6; 7; 8; 9; 10; 11; 12] in
  (length pal = 16%nat /\ Forall color9 pal /\ Forall byte_range bytes) /\
  parse_genesis_assembly
    (format_output (mkData pal (map (format_X 2) bytes) 1 1 1))
  = (pal, bytes).
Proof.
  assert (H : length [0x007; 0x038; 0x1C0; 0x1FF; 0; 1; 2; 3; 4; 5; 6; 7; 8; 9; 10; 11]
              = 16%nat /\
              Forall color9 [0x007; 0x038; 0x1C0; 0x1FF; 0; 1; 2; 3; 4; 5; 6; 7; 8; 9; 10; 11] /\
              Forall byte_range [0x00; 0x12; 0xAB; 0xFF; 0x7F; 1; 2; 3; 4; 5; 6; 7; 8; 9;
                                 10; 11; 12]).
  { split; [reflexivity|].
    split; repeat constructor; unfold color9, byte_range; lia. }
  split; [exact H|].
  apply parse_format_output; apply H.
Defined.

(** * Further properties of the two converters *)

(** ** [tiles_to_genesis_hex] *)

Lemma index_app_left {A : Type} (l suf : list A) (i : Z) :
  0 <= i < Z.of_nat (length l) -> index (l ++ suf) i = index l i.
Proof.
  intros Hi. unfold index. rewrite length_app.
  destruct (Z.ltb_spec i 0); [lia|]. cbv zeta.
  destruct (Z.ltb_spec i 0); [lia|].
  rewrite nth_error_app1 by lia. reflexivity.
Qed.

(** The packing loop asked for more pairs than the list holds. *)
Lemma mapM_pairs_short (n a : nat) (pre l : list Z) :
  length pre = (2 * a)%nat -> (length l < 2 * n)%nat ->
  mapM (fun i =>
          hi <- index (pre ++ l) i ;;
          lo <- index (pre ++ l) (i + 1) ;;
          Ok (Z.lor (Z.shiftl hi 4) lo))
       (map (fun k => 0 + 2 * Z.of_nat k) (seq a n)) = Raise IndexError.
Proof.
  revert a pre l. induction n as [|n IH]; intros a pre l Hpre Hl; [lia|].
  cbn [seq map mapM].
  destruct l as [|hi [|lo l]].
  - rewrite index_past_end; [reflexivity | rewrite length_app; cbn [length]; lia].
  - replace (0 + 2 * Z.of_nat a) with (Z.of_nat (length pre)) by lia.
    rewrite index_app_at. cbn [bind].
    rewrite index_past_end; [reflexivity | rewrite length_app; cbn [length]; lia].
  - replace (0 + 2 * Z.of_nat a) with (Z.of_nat (length pre)) by lia.
    rewrite index_app_at. cbn [bind].
    replace (pre ++ hi :: lo :: l) with ((pre ++ [hi]) ++ lo :: l) at 1
      by (rewrite <- app_assoc; reflexivity).
    replace (Z.of_nat (length pre) + 1) with (Z.of_nat (length (pre ++ [hi])))
      by (rewrite length_app; cbn [length]; lia).
    rewrite index_app_at. cbn [bind].
    replace (pre ++ hi :: lo :: l) with ((pre ++ [hi; lo]) ++ l)
      by (rewrite <- app_assoc; reflexivity).
    rewrite (IH (S a) (pre ++ [hi; lo]) l);
      [reflexivity | rewrite length_app; cbn [length]; lia | cbn [length] in Hl; lia].
Qed.

Lemma tile_bytes_short (tile : list Z) :
  (length tile < 64)%nat -> tile_bytes tile = Raise IndexError.
Proof.
  intros Hl. unfold tile_bytes.
  change (range_step 0 64 2) with (map (fun k => 0 + 2 * Z.of_nat k) (seq 0 32)).
  apply (mapM_pairs_short 32 0 [] tile); [reflexivity | lia].
Qed.

Lemma in_range_step_even (i : Z) :
  In i (map (fun k => 0 + 2 * Z.of_nat k) (seq 0 32)) -> 0 <= i /\ i + 1 < 64.
Proof.
  intros H. apply in_map_iff in H as (k & <- & Hk). apply in_seq in Hk. lia.
Qed.

(** Only the first 64 entries of a tile are read. *)
Lemma tile_bytes_first_64 (tile : list Z) :
  (64 <= length tile)%nat -> tile_bytes tile = Ok (pair_up (firstn 64 tile)).
Proof.
  intros Hl.
  rewrite <- (tile_bytes_pair_up (firstn 64 tile)) by (rewrite length_firstn; lia).
  unfold tile_bytes.
  change (range_step 0 64 2) with (map (fun k => 0 + 2 * Z.of_nat k) (seq 0 32)).
  assert (E : forall j, 0 <= j < 64 -> index tile j = index (firstn 64 tile) j).
  { intros j Hj. rewrite <- (firstn_skipn 64 tile) at 1.
    apply index_app_left. rewrite length_firstn. lia. }
  apply mapM_ext. intros i Hi. apply in_range_step_even in Hi.
  rewrite !E by lia. reflexivity.
Qed.

Lemma tile_bytes_cases (tile : list Z) :
  tile_bytes tile = Ok (pair_up (firstn 64 tile)) \/ tile_bytes tile = Raise IndexError.
Proof.
  destruct (Nat.le_gt_cases 64 (length tile)).
  - left. apply tile_bytes_first_64. assumption.
  - right. apply tile_bytes_short. assumption.
Qed.

Lemma mapM_raise {A B : Type} (f : A -> result B) (e : exn) (xs : list A) (x : A) :
  (forall y, In y xs -> (exists b, f y = Ok b) \/ f y = Raise e) ->
  In x xs -> f x = Raise e -> mapM f xs = Raise e.
Proof.
  induction xs as [|y xs IH]; intros Hall Hin Hx; [contradiction|].
  cbn [mapM].
  destruct (Hall y (or_introl eq_refl)) as [[b Hb] | Hr]; [|rewrite Hr; reflexivity].
  rewrite Hb. cbn [bind].
  destruct Hin as [-> | Hin]; [congruence|].
  rewrite (IH (fun z Hz => Hall z (or_intror Hz)) Hin Hx). reflexivity.
Qed.



(** X2. A tile with fewer than 64 entries anywhere in the list makes
    [tiles_to_genesis_hex] raise [IndexError]: no hexadecimal data is
    returned for any tile. *)
Theorem tiles_to_genesis_hex_short_tile (tiles : list (list Z)) (tile : list Z) :
  In tile tiles -> (length tile < 64)%nat ->
  tiles_to_genesis_hex tiles = Raise IndexError.
Proof.
  intros Hin Hshort. unfold tiles_to_genesis_hex, concatM.
  rewrite (mapM_raise _ IndexError tiles tile); [reflexivity | | exact Hin |].
  - intros t _. destruct (tile_bytes_cases t) as [E | E]; rewrite E; cbn [bind].
    + left. eexists. reflexivity.
    + right. reflexivity.
  - rewrite (tile_bytes_short tile Hshort). reflexivity.
Qed.

Lemma tiles_to_genesis_hex_short_tile_witness :
  (In (repeat 1 63) [repeat 0 64; repeat 1 63; repeat 2 64] /\
   (length (repeat 1 63) < 64)%nat) /\
  tiles_to_genesis_hex [repeat 0 64; repeat 1 63; repeat 2 64] = Raise IndexError.
Proof.
  assert (H : In (repeat 1 63) [repeat 0 64; repeat 1 63; repeat 2 64] /\
              (length (repeat 1 63) < 64)%nat).
  { split; [right; left; reflexivity | rewrite repeat_length; lia]. }
  split; [exact H|].
  apply (tiles_to_genesis_hex_short_tile _ (repeat 1 63)); apply H.
Defined.

(** ** [image_to_tiles] on any image *)

Lemma land_15_nibble (x : Z) : nibble (Z.land x 0xF).
Proof.
  unfold nibble. change (Z.land x 0xF) with (Z.land x (Z.ones 4)).
  rewrite Z.land_ones by lia.
  change (2 ^ 4) with 16. pose proof (Z.mod_pos_bound x 16 ltac:(lia)). lia.
Qed.

Lemma tile_at_nibbles (img_array : list (list Z)) (tile_y tile_x : Z) :
  Forall nibble (tile_at img_array tile_y tile_x).
Proof.
  unfold tile_at. apply Forall_concat, Forall_map, Forall_forall.
  intros y _. apply Forall_map, Forall_forall. intros x _. apply land_15_nibble.
Qed.

(** The tiler never raises on a well-formed image, empty ones included. *)
Lemma image_to_tiles_grid (im : Image) (W H : Z) :
  im_size im = (W, H) -> well_formed im -> 0 <= W -> 0 <= H ->
  exists canvas,
    (forall px py, 0 <= px < (W + 7) / 8 * 8 -> 0 <= py < (H + 7) / 8 * 8 ->
       Z.land (nth (Z.to_nat px) (nth (Z.to_nat py) canvas []) 0) 0xF
       = stored_index im px py) /\
    image_to_tiles im
    = Ok (concat (map (fun ty => map (tile_at canvas ty) (range ((W + 7) / 8)))
                      (range ((H + 7) / 8))),
          (W + 7) / 8, (H + 7) / 8).
Proof.
  intros Hsize Hwf HW HH.
  destruct (canvas_spec im W H Hsize Hwf HW HH) as (Hrows & Hcols & Hpix).
  set (canvas := im_rows _) in Hrows, Hcols, Hpix.
  assert (0 <= (W + 7) / 8) by (apply Z.div_pos; lia).
  assert (0 <= (H + 7) / 8) by (apply Z.div_pos; lia).
  exists canvas. split; [exact Hpix|].
  unfold image_to_tiles. rewrite Hsize. fold canvas.
  rewrite !Z.div_mul by lia.
  rewrite (concatM_Ok _ (fun ty => map (tile_at canvas ty) (range ((W + 7) / 8)))).
  - reflexivity.
  - intros ty Hty. apply in_range in Hty.
    rewrite <- mapM_Ok. apply mapM_ext. intros tx Htx. apply in_range in Htx.
    apply (extract_tile_ok canvas (Z.to_nat ((W + 7) / 8 * 8))
                           (Z.to_nat ((H + 7) / 8 * 8)));
      try assumption; lia.
Qed.

Lemma grid_Forall {B : Type} (P : B -> Prop) (f : Z -> Z -> B) (m n : Z) :
  (forall a b, P (f a b)) ->
  Forall P (concat (map (fun a => map (f a) (range n)) (range m))).
Proof.
  intros H. apply Forall_concat, Forall_map, Forall_forall.
  intros a _. apply Forall_map, Forall_forall. intros b _. apply H.
Qed.



(** ** [create_genesis_palette] with a full palette *)




(** ** Hexadecimal formatting and reading, for every non-negative number *)

Lemma int16_snoc (ds : list ascii) (c : ascii) :
  int16 (ds ++ [c])
  = 16 * int16 ds + match hex_value c with Some v => v | None => 0 end.
Proof. unfold int16. rewrite fold_left_app. reflexivity. Qed.

Lemma int16_zeros (k : nat) (ds : list ascii) :
  int16 (repeat "0"%char k ++ ds) = int16 ds.
Proof.
  unfold int16. rewrite fold_left_app. f_equal.
  induction k as [|k IH]; [reflexivity|]. cbn [repeat fold_left]. exact IH.
Qed.

Lemma hex_digit_char_value (d : Z) :
  0 <= d < 16 ->
  hex_value (hex_digit_char d) = Some d /\ is_hex (hex_digit_char d) = true.
Proof.
  intros Hd.
  assert (H : (fun x => match hex_value (hex_digit_char x) with
                        | Some v => v =? x
                        | None => false
                        end) d = true).
  { apply (forallb_below (fun x => match hex_value (hex_digit_char x) with
                                   | Some v => v =? x
                                   | None => false
                                   end) 16); [vm_compute; reflexivity | lia]. }
  cbv beta in H. unfold is_hex.
  destruct (hex_value (hex_digit_char d)) as [v|]; [|discriminate].
  apply Z.eqb_eq in H. subst. auto.
Qed.

Lemma hex_digits_aux_spec (fuel : nat) (n : Z) (acc : list ascii) :
  0 <= n < 16 ^ Z.of_nat fuel ->
  exists ds,
    hex_digits_aux fuel n acc = ds ++ acc /\
    int16 ds = n /\ forallb is_hex ds = true /\
    forall k, (1 <= k)%nat -> n < 16 ^ Z.of_nat k -> (length ds <= k)%nat.
Proof.
  revert n acc. induction fuel as [|fuel IH]; intros n acc Hn.
  - exists []. change (16 ^ Z.of_nat 0) with 1 in Hn.
    repeat split; try reflexivity; [cbn; lia | intros; cbn [length]; lia].
  - cbn [hex_digits_aux].
    pose proof (Z.mod_pos_bound n 16 ltac:(lia)) as Hm.
    destruct (hex_digit_char_value (n mod 16) Hm) as [Hv Hh].
    destruct (Z.ltb_spec n 16) as [Hsmall | Hbig].
    + exists [hex_digit_char (n mod 16)].
      split; [reflexivity|]. split.
      { unfold int16. cbn [fold_left]. rewrite Hv. rewrite Z.mod_small by lia. lia. }
      split; [cbn [forallb]; rewrite Hh; reflexivity|].
      intros k Hk _. cbn [length]. lia.
    + assert (Hdiv : 0 <= n / 16 < 16 ^ Z.of_nat fuel).
      { split; [apply Z.div_pos; lia|].
        apply Z.div_lt_upper_bound; [lia|].
        rewrite Nat2Z.inj_succ, Z.pow_succ_r in Hn by lia. lia. }
      destruct (IH (n / 16) (hex_digit_char (n mod 16) :: acc) Hdiv)
        as (ds & E & Hi & Hx & Hlen).
      exists (ds ++ [hex_digit_char (n mod 16)]).
      split; [rewrite E, <- app_assoc; reflexivity|].
      split.
      { rewrite int16_snoc, Hi, Hv. pose proof (Z.div_mod n 16 ltac:(lia)). lia. }
      split; [rewrite forallb_app, Hx; cbn [forallb]; rewrite Hh; reflexivity|].
      intros k Hk Hnk. rewrite length_app. cbn [length].
      destruct k as [|[|k]]; [lia | |].
      * change (16 ^ Z.of_nat 1) with 16 in Hnk. lia.
      * assert ((length ds <= S k)%nat); [|lia].
        apply Hlen; [lia|].
        apply Z.div_lt_upper_bound; [lia|].
        rewrite (Nat2Z.inj_succ (S k)), Z.pow_succ_r in Hnk by lia. lia.
Qed.

Lemma hex_digits_spec (n : Z) :
  0 <= n ->
  int16 (hex_digits n) = n /\ forallb is_hex (hex_digits n) = true /\
  forall k, (1 <= k)%nat -> n < 16 ^ Z.of_nat k -> (length (hex_digits n) <= k)%nat.
Proof.
  intros Hn. unfold hex_digits.
  assert (Hf : 0 <= n < 16 ^ Z.of_nat (S (Z.to_nat (Z.log2 n)))).
  { split; [exact Hn|].
    destruct (Z.eq_dec n 0) as [->|Hne].
    - apply Z.pow_pos_nonneg; lia.
    - pose proof (Z.log2_nonneg n).
      pose proof (Z.log2_spec n ltac:(lia)) as [_ Hup].
      rewrite Nat2Z.inj_succ, Z2Nat.id by lia.
      apply Z.lt_le_trans with (2 ^ Z.succ (Z.log2 n)); [exact Hup|].
      apply Z.pow_le_mono_l. lia. }
  destruct (hex_digits_aux_spec _ n [] Hf) as (ds & E & Hi & Hx & Hlen).
  rewrite E, app_nil_r. auto.
Qed.

(** Formatting with [0wX] and reading with [int(_, 16)] are inverse on
    non-negative numbers; below [16^w] the text has exactly [w] digits. *)
Lemma format_X_spec (width : nat) (n : Z) :
  0 <= n ->
  int16 (format_X width n) = n /\ forallb is_hex (format_X width n) = true /\
  ((1 <= width)%nat -> n < 16 ^ Z.of_nat width -> length (format_X width n) = width).
Proof.
  intros Hn. unfold format_X. destruct (Z.ltb_spec n 0); [lia|].
  destruct (hex_digits_spec n Hn) as (Hi & Hx & Hlen).
  unfold zero_pad. split; [rewrite int16_zeros; exact Hi|].
  split.
  - rewrite forallb_app, Hx, andb_true_r.
    apply forallb_forall. intros c Hc. apply repeat_spec in Hc. subst. reflexivity.
  - intros Hw Hlt. specialize (Hlen width Hw Hlt).
    rewrite length_app, repeat_length. lia.
Qed.

Lemma format_X_words16 (vs : list Z) :
  Forall word16 vs ->
  Forall (fun h => length h = 4%nat /\ forallb is_hex h = true) (map (format_X 4) vs) /\
  map int16 (map (format_X 4) vs) = vs.
Proof.
  induction 1 as [|v vs Hv Hvs [IH1 IH2]]; [split; [constructor | reflexivity]|].
  unfold word16 in Hv.
  destruct (format_X_spec 4 v ltac:(lia)) as (Hi & Hh & Hl).
  cbn [map]. split; [|rewrite Hi, IH2; reflexivity].
  constructor; [|exact IH1]. split; [|exact Hh].
  apply Hl; [lia|]. change (16 ^ Z.of_nat 4) with 65536. lia.
Qed.

Lemma slices_first_16 {A : Type} (l : list A) :
  slice l 0 (0 + 8) ++ slice l 8 (8 + 8) = firstn 16 l.
Proof.
  rewrite !slice_nonneg by lia.
  replace (Z.to_nat (0 + 8 - 0)) with 8%nat by lia.
  replace (Z.to_nat (8 + 8 - 8)) with 8%nat by lia.
  replace (Z.to_nat 0) with 0%nat by lia.
  replace (Z.to_nat 8) with 8%nat by lia.
  rewrite (skipn_O l).
  rewrite <- (firstn_skipn 8 (firstn 16 l)).
  rewrite firstn_firstn, skipn_firstn_comm. reflexivity.
Qed.

(** ** Documents with any palette *)

(** Whatever the length of the palette, the formatter writes its first 16
    entries and the parser reads exactly those back. *)
Lemma parse_format_output_general (pal bytes : list Z) (tx ty total : Z) :
  Forall word16 pal -> Forall byte_range bytes ->
  parse_genesis_assembly
    (format_output (mkData pal (map (format_X 2) bytes) tx ty total))
  = (firstn 16 pal, bytes).
Proof.
  intros Hpal Hbytes.
  destruct (format_X_words16 pal Hpal) as [Hw Iw].
  destruct (format_X_bytes bytes Hbytes) as [Hb Ib].
  set (hexb := map (format_X 2) bytes) in *.
  rewrite format_output_shape, !dollar_slice.
  set (hexw := map (format_X 4) pal) in *.
  assert (Hw0 : Forall (fun h => length h = 4%nat /\ forallb is_hex h = true)
                       (slice hexw 0 (0 + 8))) by apply Forall_slice, Hw.
  assert (Hw1 : Forall (fun h => length h = 4%nat /\ forallb is_hex h = true)
                       (slice hexw 8 (8 + 8))) by apply Forall_slice, Hw.
  pose proof (tokenized_join 4 (str ", ") _ eq_refl Hw0) as T0.
  pose proof (tokenized_join 4 (str ", ") _ eq_refl Hw1) as T1.
  pose proof (fun a Ha => body_not_char a 4 _ Ha Hw0) as C0.
  pose proof (fun a Ha => body_not_char a 4 _ Ha Hw1) as C1.
  set (W0 := join (str ", ") (map (cons "$"%char) (slice hexw 0 (0 + 8)))) in *.
  set (W1 := join (str ", ") (map (cons "$"%char) (slice hexw 8 (8 + 8)))) in *.
  pose proof (tile_block_tokenized hexb _ Hb (in_range_step_16 (length hexb))) as TT.
  pose proof (tile_block_nl_ok hexb _ Hb (in_range_step_16 (length hexb))) as NT.
  rewrite chunks_cover in TT.
  set (T := concat _) in *.
  set (D1 := format_int total). set (D2 := format_int tx). set (D3 := format_int ty).
  assert (ND : forall n, forallb (not_char "t") (format_int n) = true)
    by (intros n; apply format_int_not_char; reflexivity).
  unfold parse_genesis_assembly.
  (* the palette section *)
  match goal with |- context [findall_section (str "palette_data:") ?doc] =>
    assert (FP : find_literal (str "palette_data:") doc
                 = Some ((nl :: str "    ")
                         ++ "d"%char :: (str "c.w " ++ W0 ++ (nl :: str "    dc.w ") ++ W1)
                         ++ nl :: nl :: ";"%char :: (str " Genesis Tile Data" ++ nl :: str "; ")
                         ++ D1 ++ str " tiles (" ++ D2 ++ str "x" ++ D3
                         ++ (str ")" ++ [nl]) ++ str "tile_data:" ++ T))
  end.
  { rewrite find_literal_skip by reflexivity.
    rewrite find_literal_here. f_equal. app_normalize. reflexivity. }
  destruct (findall_section_head _ _ _ FP) as [moreP EP]. rewrite EP. clear EP FP.
  rewrite skip_spaces_app by reflexivity.
  change ("d"%char :: (str "c.w " ++ W0 ++ (nl :: str "    dc.w ") ++ W1) ++ ?x)
    with ((str "dc.w " ++ W0 ++ (nl :: str "    dc.w ") ++ W1) ++ x).
  assert (NP : nl_ok (str "dc.w " ++ W0 ++ (nl :: str "    dc.w ") ++ W1) = true).
  { apply nl_ok_app; [reflexivity|].
    apply nl_ok_app; [apply nl_ok_chars, C0; reflexivity|].
    apply nl_ok_app; [reflexivity|].
    apply nl_ok_chars, C1; reflexivity. }
  rewrite (lazy_to_boundary_app _ _ NP), lazy_blank_line by reflexivity.
  cbn [fst].
  assert (TP : tokenized 4 ((str "dc.w " ++ W0 ++ (nl :: str "    dc.w ") ++ W1) ++ [nl])
                         (slice hexw 0 (0 + 8) ++ slice hexw 8 (8 + 8) ++ [])).
  { rewrite <- !app_assoc.
    apply tokenized_prepend; [reflexivity|].
    apply tokenized_app; [exact T0|].
    apply tokenized_prepend; [reflexivity|].
    apply tokenized_app; [exact T1|].
    apply tok_end. reflexivity. }
  rewrite app_nil_r, slices_first_16 in TP.
  rewrite (tokenized_findall 3 4 _ _ ltac:(lia) TP).
  rewrite <- (firstn_map int16), Iw.
  (* the tile section *)
  match goal with |- context [findall_section (str "tile_data:") ?doc] =>
    assert (FT : find_literal (str "tile_data:") doc = Some T)
  end.
  { match goal with |- find_literal _ ?doc = _ =>
      replace doc with
        (str "; Genesis Palette Data (16 colors)
palette_data:
    dc.w " ++ W0 ++ (nl :: str "    dc.w ") ++ W1
         ++ (nl :: nl :: str "; Genesis Tile Data" ++ nl :: str "; ")
         ++ D1 ++ str " tiles (" ++ D2 ++ str "x" ++ D3 ++ (str ")" ++ [nl])
         ++ str "tile_data:" ++ T)
        by (app_normalize; reflexivity)
    end.
    rewrite find_literal_skip by reflexivity.
    rewrite find_literal_skip by (apply no_start_chars, C0; reflexivity).
    rewrite find_literal_skip by reflexivity.
    rewrite find_literal_skip by (apply no_start_chars, C1; reflexivity).
    rewrite find_literal_skip by reflexivity.
    rewrite find_literal_skip by (apply no_start_chars, ND).
    rewrite find_literal_skip by reflexivity.
    rewrite find_literal_skip by (apply no_start_chars, ND).
    rewrite find_literal_skip by reflexivity.
    rewrite find_literal_skip by (apply no_start_chars, ND).
    rewrite find_literal_skip by reflexivity.
    apply find_literal_here. }
  destruct (findall_section_head _ _ _ FT) as [moreT ET]. rewrite ET. clear ET FT.
  rewrite (lazy_to_boundary_all _ (nl_ok_skip_spaces _ NT)). cbn [fst].
  rewrite findall_hex_skip_spaces.
  rewrite (tokenized_findall 2 2 _ _ ltac:(lia) TT), Ib.
  reflexivity.
Qed.

(** X5. For a palette of any length whose entries fit four hexadecimal
    digits (0..65535) and any tile bytes, the document written by
    [format_output] parses back to the first 16 palette entries -- later
    entries are not written -- and to exactly the tile bytes. *)
Theorem parse_format_output_any_palette (pal bytes : list Z) (tx ty total : Z) :
  Forall word16 pal -> Forall byte_range bytes ->
  parse_genesis_assembly
    (format_output (mkData pal (map (format_X 2) bytes) tx ty total))
  = (firstn 16 pal, bytes).
Proof. exact (parse_format_output_general pal bytes tx ty total). Qed.

Lemma parse_format_output_any_palette_witness :
  let pal := [0xFFFF; 0x0EEE; 7] in
  let bytes := [0xAB] in
  (Forall word16 pal /\ Forall byte_range bytes) /\
  parse_genesis_assembly
    (format_output (mkData pal (map (format_X 2) bytes) 1 1 1))
  = (firstn 16 pal, bytes).
Proof.
  assert (H : Forall word16 [0xFFFF; 0x0EEE; 7] /\ Forall byte_range [0xAB]).
  { split; repeat constructor; unfold word16, byte_range; lia. }
  split; [exact H|].
  apply parse_format_output_any_palette; apply H.
Defined.

(** ** What the parser can return *)

Lemma hex_value_range (c : ascii) (v : Z) : hex_value c = Some v -> 0 <= v <= 15.
Proof.
  unfold hex_value. cbv zeta.
  set (n := Z.of_nat (nat_of_ascii c)).
  destruct (Z.leb_spec 48 n), (Z.leb_spec n 57), (Z.leb_spec 65 n),
    (Z.leb_spec n 70), (Z.leb_spec 97 n), (Z.leb_spec n 102);
    cbn [andb]; intros E; inversion E; lia.
Qed.

Lemma int16_fold_bound (ds : list ascii) (acc : Z) :
  0 <= acc ->
  acc * 16 ^ Z.of_nat (length ds)
  <= fold_left (fun a c => 16 * a + match hex_value c with
                                    | Some v => v
                                    | None => 0
                                    end) ds acc
  < (acc + 1) * 16 ^ Z.of_nat (length ds).
Proof.
  revert acc. induction ds as [|c ds IH]; intros acc Hacc.
  - cbn [fold_left length]. change (16 ^ Z.of_nat 0) with 1. lia.
  - cbn [fold_left length].
    assert (Hv : 0 <= match hex_value c with Some v => v | None => 0 end <= 15).
    { destruct (hex_value c) eqn:E; [apply (hex_value_range c), E | lia]. }
    set (v := match hex_value c with Some v => v | None => 0 end) in *.
    specialize (IH (16 * acc + v) ltac:(lia)).
    rewrite Nat2Z.inj_succ, Z.pow_succ_r by lia.
    assert (0 < 16 ^ Z.of_nat (length ds)) by (apply Z.pow_pos_nonneg; lia).
    nia.
Qed.

Lemma int16_bound (ds : list ascii) (hi : nat) :
  (length ds <= hi)%nat -> 0 <= int16 ds < 16 ^ Z.of_nat hi.
Proof.
  intros Hl. pose proof (int16_fold_bound ds 0 ltac:(lia)) as B.
  fold (int16 ds) in B.
  assert (16 ^ Z.of_nat (length ds) <= 16 ^ Z.of_nat hi)
    by (apply Z.pow_le_mono_r; lia).
  lia.
Qed.

Lemma length_take_hex (n : nat) (s : list ascii) : (length (take_hex n s) <= n)%nat.
Proof.
  revert s. induction n as [|n IH]; intros s; [destruct s; cbn; lia|].
  destruct s as [|c s]; [cbn; lia|].
  cbn [take_hex]. destruct (is_hex c); cbn [length]; [specialize (IH s)|]; lia.
Qed.

Lemma findall_hex_lengths (lo hi skip : nat) (s : list ascii) :
  Forall (fun ds => (length ds <= hi)%nat) (findall_hex_from lo hi skip s).
Proof.
  revert skip. induction s as [|c s IH]; intros skip; [constructor|].
  cbn [findall_hex_from]. destruct skip as [|skip]; [|apply IH].
  destruct (Ascii.eqb c "$"); [|apply IH].
  cbv zeta. destruct (lo <=? length (take_hex hi s))%nat; [|apply IH].
  constructor; [apply length_take_hex | apply IH].
Qed.

(** X6. Whatever the text, every palette entry the parser returns lies in
    0..65535 and every tile entry in 0..255. *)
Theorem parse_genesis_assembly_ranges (content : list ascii) :
  Forall word16 (fst (parse_genesis_assembly content)) /\
  Forall byte_range (snd (parse_genesis_assembly content)).
Proof.
  unfold parse_genesis_assembly. cbn [fst snd]. split.
  - destruct (findall_section (str "palette_data:") content) as [|m0 ms];
      [constructor|].
    apply Forall_map. eapply Forall_impl; [|apply (findall_hex_lengths 3 4 0 m0)].
    intros ds Hl. cbv beta in Hl. pose proof (int16_bound ds 4 Hl) as B.
    change (16 ^ Z.of_nat 4) with 65536 in B. unfold word16. lia.
  - destruct (findall_section (str "tile_data:") content) as [|m0 ms];
      [constructor|].
    apply Forall_map. eapply Forall_impl; [|apply (findall_hex_lengths 2 2 0 m0)].
    intros ds Hl. cbv beta in Hl. pose proof (int16_bound ds 2 Hl) as B.
    change (16 ^ Z.of_nat 2) with 256 in B. unfold byte_range. lia.
Qed.

(** ** A document without a tile section *)

Lemma concat_map_nil {A B : Type} (f : A -> list B) (xs : list A) :
  (forall x, f x = []) -> concat (map f xs) = [].
Proof.
  intros H. induction xs as [|x xs IH]; [reflexivity|].
  cbn [map concat]. rewrite H, IH. reflexivity.
Qed.

Lemma slice_nil {A : Type} (a b : Z) : slice (@nil A) a b = [].
Proof. unfold slice. rewrite skipn_nil, firstn_nil. reflexivity. Qed.

Lemma pixel_rows_nil (width_tiles height_tiles : Z) :
  pixel_rows [] width_tiles height_tiles = [].
Proof.
  unfold pixel_rows. apply concat_map_nil. intros ty.
  apply concat_map_nil. intros y.
  unfold padded_row, row_bytes.
  rewrite concat_map_nil by (intros tx; apply slice_nil). reflexivity.
Qed.

(** X7. A text with no [tile_data:] label parses to an empty tile list,
    and the conversion of that text still succeeds for any grid that fits
    the headers: the file is only the 54-byte header, announcing
    [118 + 32 * width_tiles * height_tiles] bytes, and the color table, with
    no pixel data. *)
Theorem missing_tile_section_writes_no_pixels (content : list ascii)
        (width_tiles height_tiles : Z) :
  occurs (str "tile_data:") content = false ->
  header_fits width_tiles height_tiles ->
  snd (parse_genesis_assembly content) = [] /\
  exists headers table,
    length headers = 54%nat /\
    color_table_of (fst (parse_genesis_assembly content)) = Ok table /\
    convert content width_tiles height_tiles = Ok (headers ++ table) /\
    read_le 4 (headers ++ table) 2 = 118 + 32 * width_tiles * height_tiles.
Proof.
  intros Habsent Hfit.
  assert (P : snd (parse_genesis_assembly content) = []).
  { unfold parse_genesis_assembly. cbn [snd].
    rewrite findall_section_absent by exact Habsent. reflexivity. }
  split; [exact P|].
  unfold convert.
  destruct (parse_genesis_assembly content) as [palette tile_data].
  cbn [fst snd] in *. subst tile_data.
  exists (bmp_headers width_tiles height_tiles), (color_entries palette).
  split; [apply length_bmp_headers|].
  split; [apply color_table_of_entries|].
  split.
  - rewrite create_bmp_ok by exact Hfit. rewrite pixel_rows_nil, app_nil_r. reflexivity.
  - apply size_field, Hfit.
Qed.

Lemma missing_tile_section_writes_no_pixels_witness :
  let content := str "palette_data:
    dc.w $0007, $0038" in
  (occurs (str "tile_data:") content = false /\ header_fits 1 1) /\
  snd (parse_genesis_assembly content) = [] /\
  exists headers table,
    length headers = 54%nat /\
    color_table_of (fst (parse_genesis_assembly content)) = Ok table /\
    convert content 1 1 = Ok (headers ++ table) /\
    read_le 4 (headers ++ table) 2 = 118 + 32 * 1 * 1.
Proof.
  split; [split; [vm_compute; reflexivity | exact header_fits_1_1]|].
  apply (missing_tile_section_writes_no_pixels _ 1 1);
    [vm_compute; reflexivity | exact header_fits_1_1].
Defined.

(** ** [create_bmp]: the errors it can raise *)

Lemma pack_uint_err (n : nat) (v : Z) :
  ~ 0 <= v < 2 ^ (8 * Z.of_nat n) -> pack_uint n v = Raise StructError.
Proof.
  intros Hv. unfold pack_uint.
  destruct (Z.leb_spec 0 v); [|reflexivity].
  destruct (Z.ltb_spec v (2 ^ (8 * Z.of_nat n))); [lia | reflexivity].
Qed.

Lemma struct_pack_headers_err (width_tiles height_tiles : Z) :
  ~ header_fits width_tiles height_tiles ->
  (headers <-
     struct_pack [fmt_H; fmt_L; fmt_H; fmt_H; fmt_L]
       [0x4D42; 54 + 64 + (width_tiles * 8 * (height_tiles * 8) / 2); 0; 0; 54 + 64] ;;
   info <-
     struct_pack [fmt_L; fmt_L; fmt_L; fmt_H; fmt_H; fmt_L; fmt_L; fmt_L; fmt_L;
                  fmt_L; fmt_L]
       [40; width_tiles * 8; height_tiles * 8; 1; 4; 0; 0; 2835; 2835; 16; 16] ;;
   Ok (headers ++ info))
  = Raise StructError.
Proof.
  intros Hfit.
  assert (E : width_tiles * 8 * (height_tiles * 8) / 2 = 32 * width_tiles * height_tiles).
  { replace (width_tiles * 8 * (height_tiles * 8))
      with (32 * width_tiles * height_tiles * 2) by lia.
    apply Z.div_mul. lia. }
  rewrite E. cbn [struct_pack].
  rewrite (pack_uint_ok 2 19778) by (change (2 ^ (8 * Z.of_nat 2)) with 65536; lia).
  cbn [bind].
  assert (P32 : 2 ^ (8 * Z.of_nat 4) = 4294967296) by reflexivity.
  assert (P16 : 2 ^ (8 * Z.of_nat 2) = 65536) by reflexivity.
  destruct (Z_lt_dec (54 + 64 + 32 * width_tiles * height_tiles) 0) as [Hneg|Hnn];
    [rewrite pack_uint_err by lia; reflexivity|].
  destruct (Z_lt_dec (54 + 64 + 32 * width_tiles * height_tiles) 4294967296)
    as [Hlt|Hge]; [|rewrite pack_uint_err by lia; reflexivity].
  rewrite (pack_uint_ok 4 (54 + 64 + _)) by lia. cbn [bind].
  rewrite !(pack_uint_ok 2 0), (pack_uint_ok 4 (54 + 64)) by lia. cbn [bind].
  rewrite (pack_uint_ok 4 40) by lia. cbn [bind].
  destruct (Z_lt_dec (width_tiles * 8) 0);
    [rewrite pack_uint_err by lia; reflexivity|].
  destruct (Z_lt_dec (width_tiles * 8) 4294967296);
    [|rewrite pack_uint_err by lia; reflexivity].
  rewrite (pack_uint_ok 4 (width_tiles * 8)) by lia. cbn [bind].
  destruct (Z_lt_dec (height_tiles * 8) 0);
    [rewrite pack_uint_err by lia; reflexivity|].
  destruct (Z_lt_dec (height_tiles * 8) 4294967296);
    [|rewrite pack_uint_err by lia; reflexivity].
  exfalso. apply Hfit. unfold header_fits.
  change (2 ^ 32) with 4294967296. lia.
Qed.

(** X8. Tile-grid dimensions that do not fit the header fields -- a
    negative width or height, a pixel width or height of [2^32] or more, or a
    file size of [2^32] or more -- make [create_bmp] raise [struct.error]
    before anything else is computed, whatever the palette, the tile data
    and the state of the global. *)
Theorem create_bmp_bad_dimensions (g_tile_data : option (list Z))
        (palette tiles : list Z) (width_tiles height_tiles : Z) :
  ~ header_fits width_tiles height_tiles ->
  create_bmp g_tile_data palette tiles width_tiles height_tiles = Raise StructError.
Proof.
  intros Hfit. unfold create_bmp. cbv zeta.
  pose proof (struct_pack_headers_err width_tiles height_tiles Hfit) as Hh.
  destruct (struct_pack [fmt_H; fmt_L; fmt_H; fmt_H; fmt_L] _) as [h1|e];
    cbn [bind] in Hh |- *; [|exact Hh].
  destruct (struct_pack _ [40; _; _; 1; 4; 0; 0; 2835; 2835; 16; 16]) as [h2|e];
    cbn [bind] in Hh |- *; [discriminate Hh | exact Hh].
Qed.

Lemma create_bmp_bad_dimensions_witness :
  (~ header_fits (-1) (-1)) /\
  create_bmp (Some [0; 1; 2]) [7] [0; 1; 2] (-1) (-1) = Raise StructError.
Proof.
  assert (H : ~ header_fits (-1) (-1)) by (unfold header_fits; lia).
  split; [exact H|].
  apply (create_bmp_bad_dimensions (Some [0; 1; 2]) [7] [0; 1; 2] (-1) (-1) H).
Defined.

Lemma mapM_all_raise {A B : Type} (f : A -> result B) (e : exn) (xs : list A) :
  xs <> [] -> (forall x, In x xs -> f x = Raise e) -> mapM f xs = Raise e.
Proof.
  intros Hne H. destruct xs as [|x xs]; [contradiction|].
  cbn [mapM]. rewrite (H x (or_introl eq_refl)). reflexivity.
Qed.

Lemma range_nonempty (n : Z) : 1 <= n -> range n <> [].
Proof.
  intros Hn E. apply (f_equal (@length Z)) in E.
  rewrite length_range in E. cbn [length] in E. lia.
Qed.

Lemma range_down_nonempty (n : Z) : 1 <= n -> range_down n <> [].
Proof.
  intros Hn E. apply (f_equal (@length Z)) in E.
  rewrite length_range_down in E. cbn [length] in E. lia.
Qed.

Lemma create_bmp_headers_ok (g_tile_data : option (list Z))
      (palette tiles : list Z) (width_tiles height_tiles : Z) :
  header_fits width_tiles height_tiles ->
  create_bmp g_tile_data palette tiles width_tiles height_tiles
  = (pixel_data <-
       concatM (fun ty =>
                  concatM (fun y => bmp_row g_tile_data width_tiles ty y)
                          (range_down 8))
               (range_down height_tiles) ;;
     Ok (bmp_headers width_tiles height_tiles ++ color_entries palette ++ pixel_data)).
Proof.
  intros Hfit. unfold create_bmp. cbv zeta.
  pose proof (struct_pack_headers width_tiles height_tiles Hfit) as Hh.
  destruct (struct_pack [fmt_H; fmt_L; fmt_H; fmt_H; fmt_L] _) as [h1|e];
    [|discriminate Hh].
  cbn [bind] in Hh |- *.
  destruct (struct_pack _ [40; _; _; 1; 4; 0; 0; 2835; 2835; 16; 16]) as [h2|e];
    [|discriminate Hh].
  cbn [bind] in Hh |- *. injection Hh as Hh. rewrite Hh.
  rewrite color_table_of_entries. reflexivity.
Qed.

(** X9. Called while the module-level name [tile_data] is unbound (the
    body reads that global, not its parameter [tiles]), [create_bmp]
    raises [NameError] for every grid of at least one tile that fits the
    headers, whatever is passed as [tiles]; for a grid with no tiles the
    name is never read and the file is just the header and the color
    table. *)
Theorem create_bmp_needs_global (palette tiles : list Z)
        (width_tiles height_tiles : Z) :
  header_fits width_tiles height_tiles ->
  (1 <= width_tiles /\ 1 <= height_tiles ->
   create_bmp None palette tiles width_tiles height_tiles = Raise NameError) /\
  (width_tiles = 0 \/ height_tiles = 0 ->
   create_bmp None palette tiles width_tiles height_tiles
   = Ok (bmp_headers width_tiles height_tiles ++ color_entries palette)).
Proof.
  intros Hfit. rewrite (create_bmp_headers_ok None) by exact Hfit. split.
  - intros [Hw Hh].
    assert (R : forall ty y, bmp_row None width_tiles ty y = Raise NameError).
    { intros ty y. unfold bmp_row, concatM.
      rewrite (mapM_all_raise _ NameError);
        [reflexivity | apply range_nonempty, Hw | reflexivity]. }
    unfold concatM at 1.
    rewrite (mapM_all_raise _ NameError);
      [reflexivity | apply range_down_nonempty, Hh |].
    intros ty _. unfold concatM.
    rewrite (mapM_all_raise _ NameError);
      [reflexivity | apply range_down_nonempty; lia | intros y _; apply R].
  - intros Hz.
    rewrite (concatM_Ok _ (fun _ => [])).
    + cbn [bind]. rewrite concat_map_nil by reflexivity.
      rewrite app_nil_r. reflexivity.
    + intros ty Hty. apply in_range_down in Hty.
      destruct Hz as [Hw0 | Hh0]; [|lia]. subst width_tiles.
      rewrite (concatM_Ok _ (fun _ => [])).
      * rewrite concat_map_nil by reflexivity. reflexivity.
      * intros y _. reflexivity.
Qed.

Lemma create_bmp_needs_global_witness :
  header_fits 1 1 /\
  (1 <= 1 /\ 1 <= 1 -> create_bmp None [7] (repeat 0 32) 1 1 = Raise NameError) /\
  (1 = 0 \/ 1 = 0 ->
   create_bmp None [7] (repeat 0 32) 1 1 = Ok (bmp_headers 1 1 ++ color_entries [7])).
Proof.
  split; [exact header_fits_1_1|].
  apply (create_bmp_needs_global [7] (repeat 0 32) 1 1 header_fits_1_1).
Defined.

(** ** [create_bmp]: the file it writes *)

Lemma read_le_skip (n : nat) (pre rest : list Z) :
  read_le n (pre ++ rest) (length pre) = read_le n rest 0.
Proof.
  unfold read_le. rewrite skipn_app, skipn_all, Nat.sub_diag. reflexivity.
Qed.

(** X10. With a bound global holding all [32 * width_tiles * height_tiles]
    tile bytes and a palette of at most 16 entries, the file has exactly
    [118 + 32 * width_tiles * height_tiles] bytes, which is the size its
    header records; the header also records pixel-data offset 118 and the
    pixel width and height [8 * width_tiles] and [8 * height_tiles]. *)
Theorem create_bmp_full_size (palette tiles tile_data : list Z)
        (width_tiles height_tiles : Z) :
  header_fits width_tiles height_tiles ->
  32 * width_tiles * height_tiles <= Z.of_nat (length tile_data) ->
  (length palette <= 16)%nat ->
  exists file,
    create_bmp (Some tile_data) palette tiles width_tiles height_tiles = Ok file /\
    Z.of_nat (length file) = 118 + 32 * width_tiles * height_tiles /\
    read_le 4 file 2 = Z.of_nat (length file) /\
    read_le 4 file 10 = 118 /\
    read_le 4 file 18 = 8 * width_tiles /\
    read_le 4 file 22 = 8 * height_tiles.
Proof.
  intros Hfit Hlen Hpal.
  exists (bmp_headers width_tiles height_tiles ++ color_entries palette
          ++ pixel_rows tile_data width_tiles height_tiles).
  split; [apply create_bmp_ok, Hfit|].
  assert (L : Z.of_nat (length (bmp_headers width_tiles height_tiles
                                ++ color_entries palette
                                ++ pixel_rows tile_data width_tiles height_tiles))
              = 118 + 32 * width_tiles * height_tiles).
  { rewrite !length_app, length_bmp_headers, length_color_entries by exact Hpal.
    destruct Hfit as (Hw & Hh & _).
    pose proof (length_pixel_rows_full tile_data width_tiles height_tiles Hlen Hw Hh).
    lia. }
  split; [exact L|].
  split; [rewrite L; apply size_field, Hfit|].
  destruct Hfit as (Hw & Hh & Hwp & Hhp & Hsize).
  set (rest := color_entries palette ++ _).
  unfold bmp_headers. rewrite <- !app_assoc.
  set (size := 54 + 64 + _).
  split; [|split].
  - change (read_le 4 (le_bytes 4 118 ++ []) 0 = 118). reflexivity.
  - replace (8 * width_tiles) with (width_tiles * 8) by lia.
    rewrite <- (read_le_4 (width_tiles * 8) []) at 2 by lia. reflexivity.
  - replace (8 * height_tiles) with (height_tiles * 8) by lia.
    rewrite <- (read_le_4 (height_tiles * 8) []) at 2 by lia. reflexivity.
Qed.

Lemma create_bmp_full_size_witness :
  let tile_data := repeat 0x5A 128 in
  (header_fits 2 2 /\ 32 * 2 * 2 <= Z.of_nat (length tile_data) /\
   (length [7; 56] <= 16)%nat) /\
  exists file,
    create_bmp (Some tile_data) [7; 56] tile_data 2 2 = Ok file /\
    Z.of_nat (length file) = 118 + 32 * 2 * 2 /\
    read_le 4 file 2 = Z.of_nat (length file) /\
    read_le 4 file 10 = 118 /\
    read_le 4 file 18 = 8 * 2 /\
    read_le 4 file 22 = 8 * 2.
Proof.
  assert (H : header_fits 2 2 /\ 32 * 2 * 2 <= Z.of_nat (length (repeat 0x5A 128)) /\
              (length [7; 56] <= 16)%nat).
  { split; [unfold header_fits; change (2 ^ 32) with 4294967296; lia|].
    split; [rewrite repeat_length; lia | cbn [length]; lia]. }
  split; [exact H|].
  apply (create_bmp_full_size [7; 56] (repeat 0x5A 128) (repeat 0x5A 128) 2 2); apply H.
Defined.

Lemma le_bytes_range (n : nat) (v : Z) : Forall byte_range (le_bytes n v).
Proof.
  unfold le_bytes. apply Forall_map, Forall_forall. intros k _.
  unfold byte_range.
  change (Z.land (Z.shiftr v (8 * Z.of_nat k)) 255)
    with (Z.land (Z.shiftr v (8 * Z.of_nat k)) (Z.ones 8)).
  rewrite Z.land_ones by lia.
  change (2 ^ 8) with 256.
  pose proof (Z.mod_pos_bound (Z.shiftr v (8 * Z.of_nat k)) 256 ltac:(lia)). lia.
Qed.

Lemma color_entry_range (color : Z) : Forall byte_range (color_entry color).
Proof.
  unfold color_entry. pose proof (genesis_to_rgb_bytes color) as H.
  destruct (genesis_to_rgb color) as [[r g] b].
  destruct H as (Hr & Hg & Hb & _).
  constructor; [exact Hb|]. constructor; [exact Hg|]. constructor; [exact Hr|].
  constructor; [unfold byte_range; lia | constructor].
Qed.

Lemma repack_range (b : Z) : byte_range (repack b).
Proof. unfold repack. apply nibble_pair_byte; apply land_15_nibble. Qed.

Lemma zeros_range (k : nat) : Forall byte_range (repeat 0 k).
Proof.
  apply Forall_forall. intros x Hx. apply repeat_spec in Hx. subst.
  unfold byte_range. lia.
Qed.

(** X11. Every value [create_bmp] writes is a byte: whatever integers the
    palette and the tile data hold, each element of the file lies in
    0..255, so no [bytearray] operation of the function can fail. *)
Theorem create_bmp_writes_bytes (palette tiles tile_data : list Z)
        (width_tiles height_tiles : Z) :
  header_fits width_tiles height_tiles ->
  exists file,
    create_bmp (Some tile_data) palette tiles width_tiles height_tiles = Ok file /\
    Forall byte_range file.
Proof.
  intros Hfit. eexists. split; [apply create_bmp_ok, Hfit|].
  apply Forall_app. split.
  { unfold bmp_headers. repeat (apply Forall_app; split);
      try apply le_bytes_range; constructor. }
  apply Forall_app. split.
  { unfold color_entries. cbv zeta. apply Forall_app. split; [|apply zeros_range].
    apply Forall_concat, Forall_map, Forall_forall.
    intros c _. apply color_entry_range. }
  unfold pixel_rows. apply Forall_concat, Forall_map, Forall_forall. intros ty _.
  apply Forall_concat, Forall_map, Forall_forall. intros y _.
  unfold padded_row. cbv zeta. apply Forall_app. split; [|apply zeros_range].
  apply Forall_map, Forall_forall. intros b _. apply repack_range.
Qed.

Lemma create_bmp_writes_bytes_witness :
  header_fits 1 1 /\
  exists file,
    create_bmp (Some [-1; 300; 70000]) [-5; 99999] [] 1 1 = Ok file /\
    Forall byte_range file.
Proof.
  split; [exact header_fits_1_1|].
  apply (create_bmp_writes_bytes [-5; 99999] [] [-1; 300; 70000] 1 1 header_fits_1_1).
Defined.

(** ** [create_bmp]: where each tile byte lands *)

Lemma nth_error_range (n k : Z) :
  0 <= k < n -> nth_error (range n) (Z.to_nat k) = Some k.
Proof.
  intros Hk. rewrite range_below, nth_error_below by lia. f_equal. lia.
Qed.

Lemma nth_error_range_down (n k : Z) :
  0 <= k < n -> nth_error (range_down n) (Z.to_nat k) = Some (n - 1 - k).
Proof.
  intros Hk. unfold range_down. rewrite nth_error_rev, length_range.
  destruct (Nat.ltb_spec (Z.to_nat k) (Z.to_nat n)); [|lia].
  replace (Z.to_nat n - S (Z.to_nat k))%nat with (Z.to_nat (n - 1 - k)) by lia.
  apply nth_error_range. lia.
Qed.

Lemma nth_error_slice4 {A : Type} (l : list A) (a k : Z) :
  0 <= a -> 0 <= k < 4 ->
  nth_error (slice l a (a + 4)) (Z.to_nat k) = nth_error l (Z.to_nat (a + k)).
Proof.
  intros Ha Hk. rewrite slice_nonneg by lia.
  rewrite nth_error_firstn.
  destruct (Nat.ltb_spec (Z.to_nat k) (Z.to_nat (a + 4 - a))); [|lia].
  rewrite nth_error_skipn. f_equal. lia.
Qed.

Lemma nth_error_map_range {B : Type} (f : Z -> B) (n k : Z) :
  0 <= k < n -> nth_error (map f (range n)) (Z.to_nat k) = Some (f k).
Proof.
  intros Hk. rewrite nth_error_map, nth_error_range by exact Hk. reflexivity.
Qed.

Lemma nth_error_map_range_down {B : Type} (f : Z -> B) (n k : Z) :
  0 <= k < n ->
  nth_error (map f (range_down n)) (Z.to_nat k) = Some (f (n - 1 - k)).
Proof.
  intros Hk. rewrite nth_error_map, nth_error_range_down by exact Hk. reflexivity.
Qed.

Lemma nth_error_row_bytes (tile_data : list Z)
      (width_tiles height_tiles ty y tx k : Z) :
  32 * width_tiles * height_tiles <= Z.of_nat (length tile_data) ->
  0 <= ty < height_tiles -> 0 <= y < 8 -> 0 <= tx < width_tiles -> 0 <= k < 4 ->
  nth_error (row_bytes tile_data width_tiles ty y) (Z.to_nat (4 * tx + k))
  = nth_error tile_data (Z.to_nat ((ty * width_tiles + tx) * 32 + 4 * y + k)).
Proof.
  intros Hlen Hty Hy Htx Hk. unfold row_bytes.
  replace (Z.to_nat (4 * tx + k)) with (Z.to_nat tx * 4 + Z.to_nat k)%nat by lia.
  rewrite (nth_error_concat_uniform _ 4).
  - rewrite (nth_error_map_range
               (fun tx0 => slice tile_data ((ty * width_tiles + tx0) * 32 + y * 4)
                                 ((ty * width_tiles + tx0) * 32 + y * 4 + 4)))
      by exact Htx.
    rewrite nth_error_slice4 by nia. f_equal. lia.
  - intros l Hl. apply in_map_iff in Hl as (tx0 & <- & Hin). apply in_range in Hin.
    rewrite length_slice_full; [lia | nia | nia].
  - lia.
Qed.

Lemma nth_error_padded_row (tile_data : list Z)
      (width_tiles height_tiles ty y : Z) (j : nat) :
  32 * width_tiles * height_tiles <= Z.of_nat (length tile_data) ->
  0 <= width_tiles -> 0 <= ty < height_tiles -> 0 <= y < 8 ->
  (j < 4 * Z.to_nat width_tiles)%nat ->
  nth_error (padded_row tile_data width_tiles ty y) j
  = option_map repack (nth_error (row_bytes tile_data width_tiles ty y) j).
Proof.
  intros Hlen Hw Hty Hy Hj. unfold padded_row. cbv zeta.
  rewrite nth_error_app1, nth_error_map; [reflexivity|].
  rewrite length_map,
    (length_row_bytes_full tile_data width_tiles height_tiles ty y) by assumption.
  exact Hj.
Qed.

Lemma nth_error_pixel_rows (tile_data : list Z)
      (width_tiles height_tiles ty y : Z) (j : nat) :
  32 * width_tiles * height_tiles <= Z.of_nat (length tile_data) ->
  0 <= width_tiles -> 0 <= ty < height_tiles -> 0 <= y < 8 ->
  (j < 4 * Z.to_nat width_tiles)%nat ->
  nth_error (pixel_rows tile_data width_tiles height_tiles)
            (Z.to_nat (height_tiles - 1 - ty) * (32 * Z.to_nat width_tiles)
             + (Z.to_nat (7 - y) * (4 * Z.to_nat width_tiles) + j))
  = nth_error (padded_row tile_data width_tiles ty y) j.
Proof.
  intros Hlen Hw Hty Hy Hj. unfold pixel_rows.
  rewrite (nth_error_concat_uniform _ (32 * Z.to_nat width_tiles)).
  - rewrite (nth_error_map_range_down
               (fun ty0 => concat (map (fun y0 => padded_row tile_data width_tiles ty0 y0)
                                       (range_down 8)))) by lia.
    replace (height_tiles - 1 - (height_tiles - 1 - ty)) with ty by lia.
    rewrite (nth_error_concat_uniform _ (4 * Z.to_nat width_tiles)).
    + rewrite (nth_error_map_range_down
                 (fun y0 => padded_row tile_data width_tiles ty y0)) by lia.
      replace (8 - 1 - (7 - y)) with y by lia. reflexivity.
    + intros l Hl. apply in_map_iff in Hl as (y0 & <- & Hin).
      apply in_range_down in Hin.
      apply (length_padded_row_full tile_data width_tiles height_tiles); assumption.
    + exact Hj.
  - intros l Hl. apply in_map_iff in Hl as (ty0 & <- & Hin).
    apply in_range_down in Hin.
    rewrite (length_concat_eq _ _ (4 * Z.to_nat width_tiles)).
    + rewrite length_range_down. change (Z.to_nat 8) with 8%nat. lia.
    + intros y0 Hy0. apply in_range_down in Hy0.
      apply (length_padded_row_full tile_data width_tiles height_tiles); assumption.
  - assert (Z.to_nat (7 - y) <= 7)%nat by lia. nia.
Qed.

(** Byte [k] of row [y] of tile [(tx, ty)] in a complete file. *)
Lemma nth_error_bmp_tile_byte (palette tile_data : list Z)
      (width_tiles height_tiles ty tx y k : Z) :
  Forall byte_range tile_data ->
  32 * width_tiles * height_tiles <= Z.of_nat (length tile_data) ->
  (length palette <= 16)%nat ->
  0 <= ty < height_tiles -> 0 <= tx < width_tiles -> 0 <= y < 8 -> 0 <= k < 4 ->
  nth_error (bmp_headers width_tiles height_tiles ++ color_entries palette
             ++ pixel_rows tile_data width_tiles height_tiles)
            (Z.to_nat (118 + ((height_tiles - 1 - ty) * 8 + (7 - y)) * (4 * width_tiles)
                       + 4 * tx + k))
  = nth_error tile_data (Z.to_nat ((ty * width_tiles + tx) * 32 + 4 * y + k)).
Proof.
  intros Hbytes Hlen Hpal Hty Htx Hy Hk.
  rewrite app_assoc, nth_error_app2;
    rewrite length_app, length_bmp_headers, length_color_entries by exact Hpal;
    [|nia].
  replace (Z.to_nat (118 + ((height_tiles - 1 - ty) * 8 + (7 - y)) * (4 * width_tiles)
                     + 4 * tx + k) - (54 + 64))%nat
    with (Z.to_nat (height_tiles - 1 - ty) * (32 * Z.to_nat width_tiles)
          + (Z.to_nat (7 - y) * (4 * Z.to_nat width_tiles) + Z.to_nat (4 * tx + k)))%nat
    by nia.
  rewrite (nth_error_pixel_rows tile_data width_tiles height_tiles ty y)
    by (try assumption; lia).
  rewrite (nth_error_padded_row tile_data width_tiles height_tiles ty y)
    by (try assumption; lia).
  rewrite (nth_error_row_bytes tile_data width_tiles height_tiles) by assumption.
  destruct (nth_error tile_data _) as [b|] eqn:E; [|reflexivity].
  cbn [option_map]. f_equal. apply repack_byte.
  rewrite Forall_forall in Hbytes. apply Hbytes. eapply nth_error_In, E.
Qed.

(** X12. In the file written for complete tile data (bytes, at least
    [32 * width_tiles * height_tiles] of them, palette of at most 16
    entries) the rows are stored bottom-up and each row is assembled from
    the tile columns left to right: byte [k] of row [y] of tile [(tx, ty)],
    i.e. tile byte [(ty * width_tiles + tx) * 32 + 4 * y + k], is the file
    byte at offset
    [118 + ((height_tiles - 1 - ty) * 8 + (7 - y)) * 4 * width_tiles + 4 * tx + k]. *)
Theorem create_bmp_tile_byte_offset (palette tiles tile_data : list Z)
        (width_tiles height_tiles : Z) :
  header_fits width_tiles height_tiles ->
  Forall byte_range tile_data ->
  32 * width_tiles * height_tiles <= Z.of_nat (length tile_data) ->
  (length palette <= 16)%nat ->
  exists file,
    create_bmp (Some tile_data) palette tiles width_tiles height_tiles = Ok file /\
    forall ty tx y k,
      0 <= ty < height_tiles -> 0 <= tx < width_tiles -> 0 <= y < 8 -> 0 <= k < 4 ->
      nth_error file
        (Z.to_nat (118 + ((height_tiles - 1 - ty) * 8 + (7 - y)) * (4 * width_tiles)
                   + 4 * tx + k))
      = nth_error tile_data (Z.to_nat ((ty * width_tiles + tx) * 32 + 4 * y + k)).
Proof.
  intros Hfit Hbytes Hlen Hpal.
  eexists. split; [apply create_bmp_ok, Hfit|].
  intros ty tx y k Hty Htx Hy Hk.
  apply nth_error_bmp_tile_byte; assumption.
Qed.

Lemma create_bmp_tile_byte_offset_witness :
  let tile_data := map Z.of_nat (seq 0 64) in
  (header_fits 2 1 /\ Forall byte_range tile_data /\
   32 * 2 * 1 <= Z.of_nat (length tile_data) /\ (length [7] <= 16)%nat) /\
  exists file,
    create_bmp (Some tile_data) [7] tile_data 2 1 = Ok file /\
    forall ty tx y k,
      0 <= ty < 1 -> 0 <= tx < 2 -> 0 <= y < 8 -> 0 <= k < 4 ->
      nth_error file
        (Z.to_nat (118 + ((1 - 1 - ty) * 8 + (7 - y)) * (4 * 2) + 4 * tx + k))
      = nth_error tile_data (Z.to_nat ((ty * 2 + tx) * 32 + 4 * y + k)).
Proof.
  assert (H : header_fits 2 1 /\ Forall byte_range (map Z.of_nat (seq 0 64)) /\
              32 * 2 * 1 <= Z.of_nat (length (map Z.of_nat (seq 0 64))) /\
              (length [7] <= 16)%nat).
  { split; [unfold header_fits; change (2 ^ 32) with 4294967296; lia|].
    split; [|split; [rewrite length_map, length_seq; lia | cbn [length]; lia]].
    apply Forall_forall. intros x Hx. apply in_map_iff in Hx as (n & <- & Hn).
    apply in_seq in Hn. unfold byte_range. lia. }
  split; [exact H|].
  apply (create_bmp_tile_byte_offset [7] (map Z.of_nat (seq 0 64))
           (map Z.of_nat (seq 0 64)) 2 1); apply H.
Defined.

(** ** [create_bmp]: the color table *)

Lemma skipn_headers (width_tiles height_tiles : Z) (n : nat) (rest : list Z) :
  skipn (54 + n) (bmp_headers width_tiles height_tiles ++ rest) = skipn n rest.
Proof.
  rewrite skipn_app, length_bmp_headers.
  rewrite skipn_all2 by (rewrite length_bmp_headers; lia).
  replace (54 + n - 54)%nat with n by lia. reflexivity.
Qed.

Lemma color_entries_at (palette rest : list Z) (i : nat) (color : Z) :
  nth_error palette i = Some color ->
  firstn 4 (skipn (4 * i) (color_entries palette ++ rest)) = color_entry color.
Proof.
  intros Hi. apply nth_error_split in Hi as (l1 & l2 & -> & Hl1).
  unfold color_entries. cbv zeta.
  rewrite map_app, concat_app. cbn [map concat]. rewrite <- !app_assoc.
  rewrite skipn_app.
  rewrite (length_concat_eq color_entry l1 4) by (intros; apply length_color_entry).
  rewrite Hl1, skipn_all2
    by (rewrite (length_concat_eq color_entry l1 4)
          by (intros; apply length_color_entry); lia).
  replace (4 * i - 4 * i)%nat with 0%nat by lia. cbn [app skipn].
  rewrite firstn_app, length_color_entry, Nat.sub_diag.
  rewrite firstn_O, app_nil_r. apply firstn_all2.
  rewrite length_color_entry. lia.
Qed.

(** X13. The color table starts at offset 54 and holds, for palette entry
    [i], the four bytes (blue, green, red, 0) of its decoded color; a
    palette shorter than 16 entries is filled up with zero bytes to 64
    bytes, a longer one is written in full, so the pixel data starts at
    [54 + max(64, 4 * len(palette))] while the header always records
    offset 118. *)
Theorem create_bmp_color_table (palette tiles tile_data : list Z)
        (width_tiles height_tiles : Z) :
  header_fits width_tiles height_tiles ->
  exists file,
    create_bmp (Some tile_data) palette tiles width_tiles height_tiles = Ok file /\
    (forall i color, nth_error palette i = Some color ->
       firstn 4 (skipn (54 + 4 * i) file)
       = let '(r, g, b) := genesis_to_rgb color in [b; g; r; 0]) /\
    (forall j, (4 * length palette <= j < 64)%nat ->
       nth_error file (54 + j) = Some 0) /\
    skipn (54 + Nat.max 64 (4 * length palette)) file
    = pixel_rows tile_data width_tiles height_tiles /\
    read_le 4 file 10 = 118.
Proof.
  intros Hfit. eexists. split; [apply create_bmp_ok, Hfit|].
  assert (Lt : length (concat (map color_entry palette)) = (4 * length palette)%nat)
    by (apply length_concat_eq; intros; apply length_color_entry).
  split; [|split; [|split]].
  - intros i color Hi. rewrite skipn_headers.
    rewrite (color_entries_at palette _ i color Hi). reflexivity.
  - intros j Hj.
    rewrite nth_error_app2 by (rewrite length_bmp_headers; lia).
    rewrite length_bmp_headers. replace (54 + j - 54)%nat with j by lia.
    unfold color_entries. cbv zeta. rewrite <- app_assoc.
    rewrite nth_error_app2 by lia.
    rewrite nth_error_app1 by (rewrite repeat_length; lia).
    apply nth_error_repeat. lia.
  - rewrite skipn_headers. rewrite skipn_app.
    assert (Lc : length (color_entries palette) = Nat.max 64 (4 * length palette)).
    { unfold color_entries. cbv zeta. rewrite length_app, repeat_length. lia. }
    rewrite skipn_all2 by lia. rewrite Lc, Nat.sub_diag. reflexivity.
  - unfold bmp_headers. rewrite <- !app_assoc.
    change (read_le 4 (le_bytes 4 118 ++ []) 0 = 118). reflexivity.
Qed.

Lemma create_bmp_color_table_witness :
  header_fits 1 1 /\
  exists file,
    create_bmp (Some (repeat 0 32)) [7; 0x1C0] (repeat 0 32) 1 1 = Ok file /\
    (forall i color, nth_error [7; 0x1C0] i = Some color ->
       firstn 4 (skipn (54 + 4 * i) file)
       = let '(r, g, b) := genesis_to_rgb color in [b; g; r; 0]) /\
    (forall j, (4 * length [7; 0x1C0] <= j < 64)%nat ->
       nth_error file (54 + j) = Some 0) /\
    skipn (54 + Nat.max 64 (4 * length [7; 0x1C0])) file
    = pixel_rows (repeat 0 32) 1 1 /\
    read_le 4 file 10 = 118.
Proof.
  split; [exact header_fits_1_1|].
  apply (create_bmp_color_table [7; 0x1C0] (repeat 0 32) (repeat 0 32) 1 1
           header_fits_1_1).
Defined.

(** ** Forward conversion *)


(** The forward converter on an image that Pillow quantizes to a
    well-formed palettised image with a full palette. *)
Lemma bitmap_to_genesis_hex_ok
      (RGBImage : Type) (quantize : RGBImage -> Image)
      (getpalette : Image -> list Z) (img : RGBImage) (W H : Z) :
  im_size (quantize img) = (W, H) -> well_formed (quantize img) ->
  0 <= W -> 0 <= H ->
  (48 <= length (getpalette (quantize img)))%nat ->
  Forall byte_range (firstn 48 (getpalette (quantize img))) ->
  exists genesis_palette canvas,
    length genesis_palette = 16%nat /\ Forall color9 genesis_palette /\
    (forall px py, 0 <= px < (W + 7) / 8 * 8 -> 0 <= py < (H + 7) / 8 * 8 ->
       Z.land (nth (Z.to_nat px) (nth (Z.to_nat py) canvas []) 0) 0xF
       = stored_index (quantize img) px py) /\
    let tiles :=
      concat (map (fun ty => map (tile_at canvas ty) (range ((W + 7) / 8)))
                  (range ((H + 7) / 8))) in
    bitmap_to_genesis_hex RGBImage quantize getpalette img
    = Ok (mkData genesis_palette
                 (map (format_X 2) (concat (map pair_up tiles)))
                 ((W + 7) / 8) ((H + 7) / 8) (Z.of_nat (length tiles))).
Proof.
  intros Hsize Hwf HW HH Hlen Hbytes.
  set (pc := getpalette (quantize img)) in *.
  assert (Hl48 : length (firstn 48 pc) = 48%nat) by (rewrite length_firstn; lia).
  destruct (palette_of_colors_full (firstn 48 pc) Hl48 Hbytes) as (E & L & C).
  destruct (image_to_tiles_grid (quantize img) W H Hsize Hwf HW HH)
    as (canvas & Hpix & Et).
  exists (map encode_exact (triples (firstn 48 pc))), canvas.
  split; [exact L|]. split; [exact C|]. split; [exact Hpix|].
  intros tiles. fold tiles in Et.
  unfold bitmap_to_genesis_hex, create_genesis_palette. fold pc.
  rewrite slice_nonneg by lia. cbn [Z.to_nat Z.sub Z.opp Z.add skipn].
  change (Pos.to_nat 48) with 48%nat. rewrite E. cbn [bind].
  rewrite Et. cbn [bind].
  unfold tiles_to_genesis_hex.
  rewrite (concatM_Ok _ (fun tile => map (format_X 2) (pair_up tile))).
  - cbn [bind]. rewrite concat_map, map_map. reflexivity.
  - intros tile Hin.
    assert (Hl : length tile = 64%nat).
    { unfold tiles in Hin. apply in_concat in Hin as (row & Hrow & Hin).
      apply in_map_iff in Hrow as (ty & <- & _).
      apply in_map_iff in Hin as (tx & <- & _). apply length_tile_at. }
    rewrite (tile_bytes_pair_up tile Hl). reflexivity.
Qed.

(** X14. For an image that Pillow quantizes to a well-formed [W x H]
    palettised image with at least 48 palette bytes,
    [bitmap_to_genesis_hex] returns a 16-entry Color9 palette, the tile
    counts [ceil(W/8)] and [ceil(H/8)], their product as [total_tiles], and
    32 two-digit upper-case hexadecimal strings per tile. *)
Theorem bitmap_to_genesis_hex_summary
        (RGBImage : Type) (quantize : RGBImage -> Image)
        (getpalette : Image -> list Z) (img : RGBImage) (W H : Z) :
  im_size (quantize img) = (W, H) -> well_formed (quantize img) ->
  0 <= W -> 0 <= H ->
  (48 <= length (getpalette (quantize img)))%nat ->
  Forall byte_range (firstn 48 (getpalette (quantize img))) ->
  exists data,
    bitmap_to_genesis_hex RGBImage quantize getpalette img = Ok data /\
    length (palette data) = 16%nat /\ Forall color9 (palette data) /\
    tiles_x data = (W + 7) / 8 /\ tiles_y data = (H + 7) / 8 /\
    total_tiles data = tiles_x data * tiles_y data /\
    Z.of_nat (length (tile_data data)) = 32 * total_tiles data /\
    Forall (fun h => length h = 2%nat /\ forallb is_hex h = true) (tile_data data).
Proof.
  intros Hsize Hwf HW HH Hlen Hbytes.
  destruct (bitmap_to_genesis_hex_ok RGBImage quantize getpalette img W H
              Hsize Hwf HW HH Hlen Hbytes) as (pal & canvas & L & C & _ & E).
  cbv zeta in E.
  set (tiles := concat (map (fun ty => map (tile_at canvas ty) (range ((W + 7) / 8)))
                            (range ((H + 7) / 8)))) in E.
  assert (0 <= (W + 7) / 8) by (apply Z.div_pos; lia).
  assert (0 <= (H + 7) / 8) by (apply Z.div_pos; lia).
  assert (Ht : Forall (fun tile => length tile = 64%nat /\ Forall nibble tile) tiles).
  { apply (grid_Forall _ (tile_at canvas)). intros a b.
    split; [apply length_tile_at | apply tile_at_nibbles]. }
  assert (Hn : Z.of_nat (length tiles) = (W + 7) / 8 * ((H + 7) / 8)).
  { unfold tiles. rewrite (length_grid (tile_at canvas)) by lia. lia. }
  assert (Hb : Forall byte_range (concat (map pair_up tiles))).
  { apply Forall_concat, Forall_map. eapply Forall_impl; [|exact Ht].
    intros tile [_ Hnib]. apply pair_up_bytes, Hnib. }
  eexists. split; [exact E|]. cbn [palette tiles_x tiles_y total_tiles tile_data].
  split; [exact L|]. split; [exact C|].
  split; [reflexivity|]. split; [reflexivity|]. split; [exact Hn|].
  split; [|apply format_X_bytes, Hb].
  rewrite length_map, (length_concat_eq pair_up tiles 32).
  - lia.
  - intros tile Hin. rewrite Forall_forall in Ht. destruct (Ht tile Hin) as [Hl _].
    apply length_pair_up. rewrite Hl. reflexivity.
Qed.

Lemma bitmap_to_genesis_hex_summary_witness :
  let quantize := fun _ : unit => mkImage (9, 8) (repeat (repeat 3 9) 8) in
  let getpalette := fun _ : Image => repeat 128 48 in
  (im_size (quantize tt) = (9, 8) /\ well_formed (quantize tt) /\ 0 <= 9 /\ 0 <= 8 /\
   (48 <= length (getpalette (quantize tt)))%nat /\
   Forall byte_range (firstn 48 (getpalette (quantize tt)))) /\
  exists data,
    bitmap_to_genesis_hex unit quantize getpalette tt = Ok data /\
    length (palette data) = 16%nat /\ Forall color9 (palette data) /\
    tiles_x data = (9 + 7) / 8 /\ tiles_y data = (8 + 7) / 8 /\
    total_tiles data = tiles_x data * tiles_y data /\
    Z.of_nat (length (tile_data data)) = 32 * total_tiles data /\
    Forall (fun h => length h = 2%nat /\ forallb is_hex h = true) (tile_data data).
Proof.
  assert (H : im_size (mkImage (9, 8) (repeat (repeat 3 9) 8)) = (9, 8) /\
              well_formed (mkImage (9, 8) (repeat (repeat 3 9) 8)) /\
              0 <= 9 /\ 0 <= 8 /\
              (48 <= length (repeat 128 48))%nat /\
              Forall byte_range (firstn 48 (repeat 128 48))).
  { split; [reflexivity|]. split.
    { split; [reflexivity|]. cbn [im_rows im_size fst].
      apply Forall_forall. intros row Hrow. apply repeat_spec in Hrow. subst.
      reflexivity. }
    split; [lia|]. split; [lia|]. split; [rewrite repeat_length; lia|].
    apply Forall_forall. intros x Hx.
    assert (In x (repeat 128 48)) as Hin.
    { rewrite <- (firstn_skipn 48 (repeat 128 48)). apply in_or_app. left. exact Hx. }
    apply repeat_spec in Hin. subst. unfold byte_range. lia. }
  split; [exact H|].
  apply (bitmap_to_genesis_hex_summary unit
           (fun _ : unit => mkImage (9, 8) (repeat (repeat 3 9) 8))
           (fun _ : Image => repeat 128 48) tt 9 8); apply H.
Defined.

(** ** Forward conversion followed by the reverse conversion *)






(** ** Color precision *)

Lemma round_ratio_closed (c : Z) :
  byte_range c ->
  round_ratio (c * 7) 255 = (14 * c + 255) / 510 /\
  c - 44 <= 32 * round_ratio (c * 7) 255 <= c + 13.
Proof.
  intros Hc.
  assert (H : (fun x => (round_ratio (x * 7) 255 =? (14 * x + 255) / 510)
                        && (x - 44 <=? 32 * round_ratio (x * 7) 255)
                        && (32 * round_ratio (x * 7) 255 <=? x + 13)) c = true).
  { apply (forallb_below
             (fun x => (round_ratio (x * 7) 255 =? (14 * x + 255) / 510)
                       && (x - 44 <=? 32 * round_ratio (x * 7) 255)
                       && (32 * round_ratio (x * 7) 255 <=? x + 13)) 256);
      [vm_compute; reflexivity | unfold byte_range in Hc; lia]. }
  cbv beta in H. apply andb_prop in H as [H H3]. apply andb_prop in H as [H1 H2].
  apply Z.eqb_eq in H1. apply Z.leb_le in H2, H3. auto.
Qed.

(** X16. Encoding a 24-bit color and decoding the result changes each
    channel by a bounded amount: the decoded channel is a multiple of 32
    that is at most 44 below and at most 13 above the original. *)
Theorem decode_encode_error (r g b : Z) :
  byte_range r -> byte_range g -> byte_range b ->
  exists v r' g' b',
    rgb_to_genesis_color r g b = Ok v /\ genesis_to_rgb v = (r', g', b') /\
    r - 44 <= r' <= r + 13 /\ g - 44 <= g' <= g + 13 /\ b - 44 <= b' <= b + 13 /\
    r' mod 32 = 0 /\ g' mod 32 = 0 /\ b' mod 32 = 0.
Proof.
  intros Hr Hg Hb.
  destruct (rgb_to_genesis_color_exact r g b Hr Hg Hb) as [E C].
  destruct (scale_channel_exact r Hr) as [_ Br].
  destruct (scale_channel_exact g Hg) as [_ Bg].
  destruct (scale_channel_exact b Hb) as [_ Bb].
  destruct (pack9_fields _ _ _ Bb Bg Br) as (_ & Fr & Fg & Fb).
  cbv zeta in Fr, Fg, Fb. fold (encode_exact (r, g, b)) in Fr, Fg, Fb.
  destruct (genesis_to_rgb_fields _ C) as (D & _).
  rewrite Fr, Fg, Fb in D.
  destruct (round_ratio_closed r Hr) as [_ Er].
  destruct (round_ratio_closed g Hg) as [_ Eg].
  destruct (round_ratio_closed b Hb) as [_ Eb].
  exists (encode_exact (r, g, b)), (32 * round_ratio (r * 7) 255),
         (32 * round_ratio (g * 7) 255), (32 * round_ratio (b * 7) 255).
  split; [exact E|]. split; [exact D|].
  do 3 (split; [assumption|]).
  rewrite !(Z.mul_comm 32), !Z.mod_mul by lia. auto.
Qed.

Lemma decode_encode_error_witness :
  (byte_range 236 /\ byte_range 19 /\ byte_range 255) /\
  exists v r' g' b',
    rgb_to_genesis_color 236 19 255 = Ok v /\ genesis_to_rgb v = (r', g', b') /\
    236 - 44 <= r' <= 236 + 13 /\ 19 - 44 <= g' <= 19 + 13 /\
    255 - 44 <= b' <= 255 + 13 /\
    r' mod 32 = 0 /\ g' mod 32 = 0 /\ b' mod 32 = 0.
Proof.
  assert (H : byte_range 236 /\ byte_range 19 /\ byte_range 255)
    by (unfold byte_range; lia).
  split; [exact H|].
  apply (decode_encode_error 236 19 255); apply H.
Defined.

(** X17. The encoder is monotone in every channel: a channel value that
    is at least as large never encodes to a smaller 3-bit value. *)
Theorem scale_channel_monotone (c1 c2 : Z) :
  byte_range c1 -> byte_range c2 -> c1 <= c2 ->
  exists k1 k2,
    scale_channel c1 = Ok k1 /\ scale_channel c2 = Ok k2 /\ k1 <= k2.
Proof.
  intros H1 H2 Hle.
  destruct (scale_channel_exact c1 H1) as [E1 _].
  destruct (scale_channel_exact c2 H2) as [E2 _].
  destruct (round_ratio_closed c1 H1) as [F1 _].
  destruct (round_ratio_closed c2 H2) as [F2 _].
  exists (round_ratio (c1 * 7) 255), (round_ratio (c2 * 7) 255).
  split; [exact E1|]. split; [exact E2|].
  rewrite F1, F2. apply Z.div_le_mono; lia.
Qed.

Lemma scale_channel_monotone_witness :
  (byte_range 18 /\ byte_range 19 /\ 18 <= 19) /\
  exists k1 k2,
    scale_channel 18 = Ok k1 /\ scale_channel 19 = Ok k2 /\ k1 <= k2.
Proof.
  assert (H : byte_range 18 /\ byte_range 19 /\ 18 <= 19)
    by (unfold byte_range; lia).
  split; [exact H|].
  apply (scale_channel_monotone 18 19); apply H.
Defined.

(** ** The path prompt *)

Lemma forallb_rev {A : Type} (f : A -> bool) (l : list A) :
  forallb f l = true -> forallb f (rev l) = true.
Proof.
  rewrite !forallb_forall. intros H x Hx. apply H, in_rev, Hx.
Qed.

Lemma strip_core (ws1 ws2 m : list ascii) (c d : ascii) :
  forallb is_space ws1 = true -> forallb is_space ws2 = true ->
  is_space c = false -> is_space d = false ->
  strip (ws1 ++ c :: m ++ d :: ws2) = c :: m ++ [d].
Proof.
  intros H1 H2 Hc Hd. unfold strip.
  rewrite (skip_spaces_app ws1 _ c H1 Hc).
  replace (rev (c :: m ++ d :: ws2)) with (rev ws2 ++ d :: rev (c :: m)).
  - rewrite (skip_spaces_app (rev ws2) _ d (forallb_rev _ _ H2) Hd).
    cbn [rev]. rewrite rev_app_distr, rev_involutive.
    reflexivity.
  - cbn [rev]. rewrite rev_app_distr. cbn [rev].
    rewrite <- !app_assoc. reflexivity.
Qed.

Lemma slice_inner {A : Type} (q1 q2 : A) (p : list A) :
  slice (q1 :: p ++ [q2]) 1 (-1) = p.
Proof.
  unfold slice, clamp_index.
  assert (L : Z.of_nat (length (q1 :: p ++ [q2])) = Z.of_nat (length p) + 2).
  { cbn [length]. rewrite length_app. cbn [length]. lia. }
  rewrite L.
  change (1 <? 0) with false. change (-1 <? 0) with true. cbv iota.
  replace (Z.min 1 (Z.of_nat (length p) + 2)) with 1 by lia.
  replace (Z.max 0 (-1 + (Z.of_nat (length p) + 2)) - 1)
    with (Z.of_nat (length p)) by lia.
  change (Z.to_nat 1) with 1%nat. cbn [skipn].
  rewrite Nat2Z.id, firstn_app, Nat.sub_diag, firstn_all. cbn [firstn].
  apply app_nil_r.
Qed.

Lemma endswith_snoc (c d : ascii) (l : list ascii) :
  endswith c (l ++ [d]) = Ascii.eqb d c.
Proof.
  unfold endswith. rewrite rev_app_distr. reflexivity.
Qed.

Lemma endswith_cons_snoc (c d e : ascii) (l : list ascii) :
  endswith c (e :: l ++ [d]) = Ascii.eqb d c.
Proof.
  exact (endswith_snoc c d (e :: l)).
Qed.

Lemma get_image_path_spec (path_exists : list ascii -> bool)
      (inputs : list (list ascii)) :
  match snd (get_image_path path_exists inputs) with
  | Some image_path =>
      path_exists image_path = true /\
      exists rejected line rest,
        inputs = rejected ++ line :: rest /\
        image_path = unquote (strip line) /\
        fst (get_image_path path_exists inputs)
        = map (fun l => not_found_message (unquote (strip l))) rejected /\
        Forall (fun l => path_exists (unquote (strip l)) = false) rejected
  | None =>
      fst (get_image_path path_exists inputs)
      = map (fun l => not_found_message (unquote (strip l))) inputs /\
      Forall (fun l => path_exists (unquote (strip l)) = false) inputs
  end.
Proof.
  induction inputs as [|line rest IH].
  - cbn. split; [reflexivity | constructor].
  - cbn [get_image_path].
    destruct (path_exists (unquote (strip line))) eqn:E.
    + cbn [snd fst]. split; [exact E|].
      exists [], line, rest. cbn [app map]. repeat split. constructor.
    + destruct (get_image_path path_exists rest) as [printed found].
      cbn [snd fst] in *. destruct found as [image_path|].
      * destruct IH as (Hex & rejected & good & rest' & -> & -> & -> & F).
        split; [exact Hex|].
        exists (line :: rejected), good, rest'. cbn [app map].
        repeat split. constructor; [exact E | exact F].
      * destruct IH as [-> F]. cbn [map].
        split; [reflexivity | constructor; [exact E | exact F]].
Qed.

(** X18. The prompt cleans the line it reads: white space around it is
    dropped and then one pair of surrounding quotes, double or single, is
    removed, so a quoted path comes out as the text between the quotes,
    whatever that text is; a line whose first character after the white
    space is no quote comes out with only the white space removed. *)
Theorem unquote_strip (ws1 ws2 p m : list ascii) (q c d : ascii) :
  forallb is_space ws1 = true -> forallb is_space ws2 = true ->
  q = double_quote \/ q = "'"%char ->
  is_space c = false -> is_space d = false ->
  c <> double_quote -> c <> "'"%char ->
  unquote (strip (ws1 ++ q :: p ++ q :: ws2)) = p /\
  unquote (strip (ws1 ++ c :: m ++ d :: ws2)) = c :: m ++ [d].
Proof.
  intros H1 H2 Hq Hc Hd N1 N2. split.
  - assert (Sq : is_space q = false) by (destruct Hq; subst q; reflexivity).
    rewrite (strip_core ws1 ws2 p q q H1 H2 Sq Sq).
    unfold unquote.
    rewrite !endswith_cons_snoc. cbn [startswith].
    destruct Hq; subst q; cbn [Ascii.eqb Bool.eqb double_quote andb];
      apply slice_inner.
  - rewrite (strip_core ws1 ws2 m c d H1 H2 Hc Hd).
    unfold unquote. cbn [startswith].
    apply Ascii.eqb_neq in N1, N2. rewrite N1, N2. reflexivity.
Qed.

Lemma unquote_strip_witness :
  (forallb is_space (str "  ") = true /\
   forallb is_space (str " ") = true /\
   ("'"%char = double_quote \/ "'"%char = "'"%char) /\
   is_space "a" = false /\ is_space "p" = false /\
   "a"%char <> double_quote /\ "a"%char <> "'"%char) /\
  unquote (strip (str "  " ++ "'"%char :: str "my pic.bmp"
                  ++ "'"%char :: str " ")) = str "my pic.bmp" /\
  unquote (strip (str "  " ++ "a"%char :: str ".bm" ++ "p"%char :: str " "))
  = "a"%char :: str ".bm" ++ ["p"%char].
Proof.
  assert (H : forallb is_space (str "  ") = true /\
              forallb is_space (str " ") = true /\
              ("'"%char = double_quote \/ "'"%char = "'"%char) /\
              is_space "a" = false /\ is_space "p" = false /\
              "a"%char <> double_quote /\ "a"%char <> "'"%char).
  { repeat split; try reflexivity; try (right; reflexivity); discriminate. }
  split; [exact H|].
  destruct H as (H1 & H2 & H3 & H4 & H5 & H6 & H7).
  exact (unquote_strip (str "  ") (str " ") (str "my pic.bmp") (str ".bm")
           "'" "a" "p" H1 H2 H3 H4 H5 H6 H7).
Defined.

(** X19. The prompt loop returns the cleaned form of the first line whose
    cleaned form names an existing file, after printing one error line,
    naming the cleaned path, for each line before it; the lines after it
    are not read. *)
Theorem get_image_path_first_existing
        (path_exists : list ascii -> bool)
        (rejected rest : list (list ascii)) (line : list ascii) :
  Forall (fun l => path_exists (unquote (strip l)) = false) rejected ->
  path_exists (unquote (strip line)) = true ->
  get_image_path path_exists (rejected ++ line :: rest)
  = (map (fun l => not_found_message (unquote (strip l))) rejected,
     Some (unquote (strip line))).
Proof.
  intros F E. induction F as [|l rejected Hl F IH].
  - cbn [app get_image_path map]. rewrite E. reflexivity.
  - cbn [app get_image_path map]. rewrite Hl, IH. reflexivity.
Qed.

Lemma get_image_path_first_existing_witness :
  (Forall (fun l => Nat.eqb (length (unquote (strip l))) 5 = false)
          [str "bb.bmp"] /\
   Nat.eqb (length (unquote (strip (str " 'a.bmp' ")))) 5 = true) /\
  get_image_path (fun p => Nat.eqb (length p) 5)
                 ([str "bb.bmp"] ++ str " 'a.bmp' " :: [str "c.bmp"])
  = (map (fun l => not_found_message (unquote (strip l))) [str "bb.bmp"],
     Some (unquote (strip (str " 'a.bmp' ")))).
Proof.
  assert (H1 : Forall (fun l => Nat.eqb (length (unquote (strip l))) 5 = false)
                      [str "bb.bmp"])
    by (constructor; [vm_compute; reflexivity | constructor]).
  assert (H2 : Nat.eqb (length (unquote (strip (str " 'a.bmp' ")))) 5 = true)
    by (vm_compute; reflexivity).
  split; [split; [exact H1 | exact H2]|].
  exact (get_image_path_first_existing
           (fun p => Nat.eqb (length p) 5)
           [str "bb.bmp"] [str "c.bmp"] (str " 'a.bmp' ") H1 H2).
Defined.

(** X20. Whatever lines are entered, the prompt loop never returns a path
    that does not exist: a returned path is the cleaned form of an entered
    line and names an existing file, every line before it was answered
    with an error line, and when no entered line names an existing file
    the loop returns nothing and has answered every line with an error
    line. *)
Theorem get_image_path_returns_existing
        (path_exists : list ascii -> bool) (inputs : list (list ascii)) :
  match snd (get_image_path path_exists inputs) with
  | Some image_path =>
      path_exists image_path = true /\
      exists rejected line rest,
        inputs = rejected ++ line :: rest /\
        image_path = unquote (strip line) /\
        length (fst (get_image_path path_exists inputs)) = length rejected
  | None =>
      length (fst (get_image_path path_exists inputs)) = length inputs /\
      Forall (fun l => path_exists (unquote (strip l)) = false) inputs
  end.
Proof.
  pose proof (get_image_path_spec path_exists inputs) as H.
  destruct (snd (get_image_path path_exists inputs)) as [image_path|].
  - destruct H as (Hex & rejected & line & rest & E1 & E2 & E3 & _).
    split; [exact Hex|]. exists rejected, line, rest.
    rewrite E3, length_map. auto.
  - destruct H as [E F]. rewrite E, length_map. auto.
Qed.
